(** * yolo-vehicle-annotator: dataset preparation, training callbacks, YOLO export

    A shallow embedding of the parts of [custom_model_trainer.py] and
    [yolo_exporter.py] that the specification talks about, and the proofs
    that settle its claims; then of what those parts lean on or are driven
    by -- the class registry of [vehicle_class_manager.py], the ratio
    fields of [training_dialog.py], the decisions of
    [ai_prediction_dialog.py] -- with further properties of the code.

    Conventions of the embedding.
    - Python [int] is [Z]; Python [float] is the kernel's binary64 [float]
      (IEEE 754, round to nearest even, the arithmetic CPython uses).
    - An exception is a value of [exn]; a computation that may raise
      returns a [result].  Stateful code runs in the monad [M], a state
      and exception monad over [World]: effects performed before a raise
      persist, as they do in Python.
    - Python lists that are shared and mutated live in a heap of
      references ([loc]); [random] is an oracle of draws held in the world.
    - [print] output is not modelled. *)

From Stdlib Require Import ZArith Floats Ascii String DecimalString Reals Lra.
From stdpp Require Import gmap strings list fin_maps sets.

Set Warnings "-inexact-float".
Set Default Proof Using "Type".

Local Open Scope Z_scope.

(** ** Python values: exceptions, floats, integers *)

Module Py.

(** The messages of the [ValueError]s the modelled code raises.  The
    source formats them in Chinese; the embedding keeps the data each one
    carries. *)
Inductive message :=
  | NoImagesFound                (* "未找到任何圖片檔案" *)
  | NoAnnotations                (* "沒有標註資料可匯出" *)
  | RatioSumNotOne (total_ratio : float)
                                 (* f"資料集比例總和應為1.0，當前為{total_ratio}" *)
  | FloatNaNToInt                (* int(nan) *)
  | InvalidIntLiteral (s : string)  (* int("abc") *).

Inductive exn :=
  | ValueError (m : message)
  | ZeroDivisionError
  | OverflowError
  | FileNotFoundError
  | FileExistsError
  | IsADirectoryError.

Inductive result (A : Type) :=
  | Ok (a : A)
  | Raise (e : exn).
Arguments Ok {A} a.
Arguments Raise {A} e.

Definition rbind {A B} (r : result A) (k : A → result B) : result B :=
  match r with
  | Ok a => k a
  | Raise e => Raise e
  end.

(** [float(z)] for a Python int: the nearest binary64 value, ties to even;
    an int beyond the binary64 range raises [OverflowError]. *)
Definition float_of_Z (z : Z) : float :=
  SF2Prim (binary_normalize prec emax z 0 false).

Definition float_of_int (z : Z) : result float :=
  let f := float_of_Z z in
  if is_infinity f then Raise OverflowError else Ok f.

(** [int(f)]: truncation toward zero; [int(inf)] raises [OverflowError]
    and [int(nan)] raises [ValueError]. *)
Definition int_of_float (f : float) : result Z :=
  match Prim2SF f with
  | S754_zero _ => Ok 0
  | S754_finite s m e =>
      let mag := if 0 <=? e then Z.pos m * 2 ^ e else Z.pos m / 2 ^ (- e) in
      Ok (if s then - mag else mag)
  | S754_infinity _ => Raise OverflowError
  | S754_nan => Raise (ValueError FloatNaNToInt)
  end.

(** [x / y] on floats: Python raises on a zero divisor, where IEEE would
    give [inf] or [nan]. *)
Definition float_truediv (x y : float) : result float :=
  if is_zero y then Raise ZeroDivisionError else Ok (x / y)%float.

(** [a / b] on ints (true division), for operands below [2^53] in
    magnitude, where both convert exactly and the quotient is the
    correctly rounded one. *)
Definition int_truediv (a b : Z) : result float :=
  if b =? 0 then Raise ZeroDivisionError
  else Ok (float_of_Z a / float_of_Z b)%float.

(** [n * f] with [n] an int and [f] a float: the int is converted first. *)
Definition int_mul_float (n : Z) (f : float) : result float :=
  rbind (float_of_int n) (λ x, Ok (x * f)%float).

(** [f / n] with [f] a float and [n] an int. *)
Definition float_div_int (f : float) (n : Z) : result float :=
  rbind (float_of_int n) (λ y, float_truediv f y).

(** Sequence slicing [l[lo:hi]] with Python's treatment of negative and
    out-of-range bounds. *)
Definition slice_index (len i : Z) : Z :=
  if i <? 0 then Z.max (len + i) 0 else Z.min i len.

Definition slice {A} (l : list A) (lo hi : option Z) : list A :=
  let n := Z.of_nat (length l) in
  let a := from_option (slice_index n) 0 lo in
  let b := from_option (slice_index n) n hi in
  take (Z.to_nat (b - a)) (drop (Z.to_nat a) l).

End Py.
Export Py.

(** ** Python strings

    Text is ASCII: a [str] is a [string] of one-byte characters, which is
    what label files and the file names of a dataset hold. *)

Module Str.

Definition chars (s : string) : list ascii := list_ascii_of_string s.
Definition of_chars (l : list ascii) : string := string_of_list_ascii l.

Definition LF : ascii := "010"%char.
Definition CR : ascii := "013"%char.

(** [str.isspace] on one ASCII character: tab, LF, VT, FF, CR, the four
    separators 0x1c-0x1f and the space. *)
Definition is_space (c : ascii) : bool :=
  let n := nat_of_ascii c in
  ((9 <=? n) && (n <=? 13) || (28 <=? n) && (n <=? 32))%nat.

Fixpoint lstrip (l : list ascii) : list ascii :=
  match l with
  | c :: l' => if is_space c then lstrip l' else l
  | [] => []
  end.

(** [s.strip()] *)
Definition strip (l : list ascii) : list ascii :=
  reverse (lstrip (reverse (lstrip l))).

(** [s.split()]: the maximal runs of characters that are not whitespace.
    [cur] holds the run being read, last character first. *)
Fixpoint split_from (cur : list ascii) (l : list ascii) : list (list ascii) :=
  match l with
  | [] => match cur with [] => [] | _ => [reverse cur] end
  | c :: l' =>
      if is_space c
      then match cur with
           | [] => split_from [] l'
           | _ => reverse cur :: split_from [] l'
           end
      else split_from (c :: cur) l'
  end.

Definition split (l : list ascii) : list (list ascii) := split_from [] l.

(** Text-mode reading translates ["\r\n"] and a lone ["\r"] to ["\n"]. *)
Fixpoint universal_newlines (l : list ascii) : list ascii :=
  match l with
  | [] => []
  | c :: l' =>
      if Ascii.eqb c CR
      then match l' with
           | c' :: l'' =>
               if Ascii.eqb c' LF then LF :: universal_newlines l''
               else LF :: universal_newlines l'
           | [] => [LF]
           end
      else c :: universal_newlines l'
  end.

(** [f.readlines()]: the lines of the text, each with its terminator. *)
Fixpoint lines_from (cur : list ascii) (l : list ascii) : list (list ascii) :=
  match l with
  | [] => match cur with [] => [] | _ => [reverse cur] end
  | c :: l' =>
      if Ascii.eqb c LF then reverse (c :: cur) :: lines_from [] l'
      else lines_from (c :: cur) l'
  end.

Definition readlines (content : string) : list (list ascii) :=
  lines_from [] (universal_newlines (chars content)).

(** [int(s)] in base 10: surrounding whitespace, an optional sign, then
    digits, with single underscores allowed between digits. *)
Definition digit_val (c : ascii) : option Z :=
  let n := nat_of_ascii c in
  if ((48 <=? n) && (n <=? 57))%nat then Some (Z.of_nat n - 48) else None.

Fixpoint parse_digits (acc : Z) (after_digit : bool) (l : list ascii) : option Z :=
  match l with
  | [] => if after_digit then Some acc else None
  | c :: l' =>
      if Ascii.eqb c "_"%char
      then if after_digit then parse_digits acc false l' else None
      else match digit_val c with
           | Some d => parse_digits (10 * acc + d) true l'
           | None => None
           end
  end.

Definition int_of_str (l : list ascii) : result Z :=
  let t := strip l in
  let parsed :=
    match t with
    | c :: t' =>
        if Ascii.eqb c "-"%char then Z.opp <$> parse_digits 0 false t'
        else if Ascii.eqb c "+"%char then parse_digits 0 false t'
        else parse_digits 0 false t
    | [] => None
    end in
  match parsed with
  | Some z => Ok z
  | None => Raise (ValueError (InvalidIntLiteral (of_chars l)))
  end.

(** [str(z)] for an int. *)
Definition str_of_int (z : Z) : string := NilZero.string_of_int (Z.to_int z).

Definition zfill (width : nat) (s : string) : string :=
  of_chars (replicate (width - String.length s) "0"%char ++ chars s).

(** [format(f, ".<digits>f")]: the exact value of the float rounded to
    [digits] decimals, ties to even, in fixed notation; the sign bit is
    printed also when the rounded magnitude is zero. *)
Definition round_half_even (num den : Z) : Z :=
  let q := num / den in
  let r := num mod den in
  if (den <? 2 * r) || ((den =? 2 * r) && Z.odd q) then q + 1 else q.

Definition scaled_magnitude (digits : nat) (m : positive) (e : Z) : Z :=
  if 0 <=? e then Z.pos m * 2 ^ e * 10 ^ Z.of_nat digits
  else round_half_even (Z.pos m * 10 ^ Z.of_nat digits) (2 ^ (- e)).

(** What [format(f, ".<digits>f")] prints: [nan], an infinity, or a sign
    and the magnitude in units of [10^-digits]. *)
Inductive fixed :=
  | FixedNaN
  | FixedInf (neg : bool)
  | FixedDec (neg : bool) (n : Z).

Definition fixed_of_float (digits : nat) (f : float) : fixed :=
  match Prim2SF f with
  | S754_nan => FixedNaN
  | S754_infinity s => FixedInf s
  | S754_zero s => FixedDec s 0
  | S754_finite s m e => FixedDec s (scaled_magnitude digits m e)
  end.

Definition render_fixed (digits : nat) (d : fixed) : string :=
  match d with
  | FixedNaN => "nan"
  | FixedInf neg => if neg then "-inf" else "inf"
  | FixedDec neg n =>
      let unit := 10 ^ Z.of_nat digits in
      ((if neg then "-" else "") ++ str_of_int (n / unit) ++ "."
         ++ zfill digits (str_of_int (n mod unit)))%string
  end.

Definition format_fixed (digits : nat) (f : float) : string :=
  render_fixed digits (fixed_of_float digits f).

End Str.

(** ** Paths and the file system *)

Module Fs.

(** A [pathlib.Path]: whether it is absolute, and its components.
    [Path(".")] has no component. *)
Record Path := MkPath { anchored : bool; parts : list string }.

#[global] Instance Path_eq_dec : EqDecision Path.
Proof. solve_decision. Defined.

#[global] Instance Path_countable : Countable Path.
Proof.
  refine (inj_countable' (λ p, (anchored p, parts p)) (λ x, MkPath x.1 x.2) _).
  by intros [].
Defined.

Definition rel (ps : list string) : Path := MkPath false ps.

(** [p / q] *)
Definition joinpath (p q : Path) : Path :=
  if anchored q then q else MkPath (anchored p) (parts p ++ parts q).

Definition child (p : Path) (name : string) : Path := joinpath p (rel [name]).

(** [p.name] *)
Definition name (p : Path) : string := default ""%string (last (parts p)).

(** The index of the last ['.'] of a name ([str.rfind]). *)
Fixpoint rfind_dot (l : list ascii) : option nat :=
  match l with
  | [] => None
  | c :: l' =>
      match rfind_dot l' with
      | Some i => Some (S i)
      | None => if Ascii.eqb c "."%char then Some 0%nat else None
      end
  end.

(** [p.stem]: the name without its last suffix; a leading or a trailing
    dot starts no suffix. *)
Definition stem_of_name (n : string) : string :=
  let l := Str.chars n in
  match rfind_dot l with
  | Some i => if ((0 <? i) && (i <? length l - 1))%nat then Str.of_chars (take i l) else n
  | None => n
  end.

Definition stem (p : Path) : string := stem_of_name (name p).

(** [os.path.splitext(n)[0]] for a file name: split at the last dot unless
    only dots precede it. *)
Definition splitext_root (n : string) : string :=
  let l := Str.chars n in
  match rfind_dot l with
  | Some i =>
      if forallb (Ascii.eqb "."%char) (take i l) then n else Str.of_chars (take i l)
  | None => n
  end.

(** The file system: the working directory, the directories and the
    regular files with their contents, all by absolute component list.
    The root [[]] always exists.  There are no symbolic links and no
    [".."] components. *)
Record FileSystem := MkFs {
  cwd : list string;
  dirs : gset (list string);
  files : gmap (list string) string
}.

(** [p.resolve()] *)
Definition resolve (fs : FileSystem) (p : Path) : list string :=
  if anchored p then parts p else cwd fs ++ parts p.

Definition is_file (fs : FileSystem) (a : list string) : bool :=
  bool_decide (is_Some (files fs !! a)).

Definition is_dir (fs : FileSystem) (a : list string) : bool :=
  bool_decide (a = [] ∨ a ∈ dirs fs).

(** [p.exists()] *)
Definition path_exists (fs : FileSystem) (p : Path) : bool :=
  is_file fs (resolve fs p) || is_dir fs (resolve fs p).

(** The entries of directory [d], files first, in the order the file
    system lists them (which no caller may rely on). *)
Definition entry_of (d : list string) (a : list string) : option string :=
  match last a with
  | Some n => if decide (removelast a = d) then Some n else None
  | None => None
  end.

Definition listdir (fs : FileSystem) (d : list string) : list string :=
  omap (entry_of d) ((map_to_list (files fs)).*1 ++ elements (dirs fs)).

(** [p.glob("*" + suffix)]: the entries of [p] whose name ends with
    [suffix], each as [p / name] (so spelled the way [p] is). *)
Definition glob_suffix (fs : FileSystem) (p : Path) (suffix : string) : list Path :=
  child p <$>
    filter (λ n, Str.chars suffix `suffix_of` Str.chars n) (listdir fs (resolve fs p)).

(** [open(p, 'r').read()] *)
Definition read_text (fs : FileSystem) (p : Path) : result string :=
  match files fs !! resolve fs p with
  | Some content => Ok content
  | None => if is_dir fs (resolve fs p) then Raise IsADirectoryError
            else Raise FileNotFoundError
  end.

(** [open(p, 'w')] followed by writing [content] and closing: the file is
    created or truncated; its directory must exist. *)
Definition write_text (fs : FileSystem) (p : Path) (content : string)
  : result FileSystem :=
  let a := resolve fs p in
  if is_dir fs a then Raise IsADirectoryError
  else if is_dir fs (removelast a)
  then Ok (MkFs (cwd fs) (dirs fs) (<[a := content]> (files fs)))
  else Raise FileNotFoundError.

(** [p.mkdir(parents=True, exist_ok=True)] and [os.makedirs(p,
    exist_ok=True)]: every missing directory on the way is created; a
    regular file on the way makes it fail and nothing is created. *)
Definition ancestors (a : list string) : list (list string) :=
  (λ n, take n a) <$> seq 1 (length a).

Definition mkdir_p (fs : FileSystem) (p : Path) : result FileSystem :=
  let a := resolve fs p in
  if existsb (is_file fs) (ancestors a) then Raise FileExistsError
  else Ok (MkFs (cwd fs) (list_to_set (ancestors a) ∪ dirs fs) (files fs)).

(** [shutil.copy2(src, dst)]: [dst] names the new file, or the directory
    that receives it under the name of [src]. *)
Definition copy2 (fs : FileSystem) (src dst : Path) : result FileSystem :=
  rbind (read_text fs src) (λ content,
    let dst' := if is_dir fs (resolve fs dst) then child dst (name src) else dst in
    write_text fs dst' content).

End Fs.
Export Fs.

(** ** The world and the monad of effects *)

Abbreviation loc := nat.

(** The state of [random]: an unbounded supply of draws and how many were
    consumed.  [randbelow n] takes the next draw modulo [n]. *)
Record Rng := MkRng { draws : nat → nat; consumed : nat }.

(** What the callbacks handed to the pipeline received, oldest first. *)
Inductive event :=
  | Progress (percent : Z)
  | Log (line : string).

Record World := MkWorld {
  fs : FileSystem;
  heap : gmap loc (list Path);
  rng : Rng;
  events : list event
}.

Definition M (A : Type) : Type := World → result A * World.

Definition ret {A} (a : A) : M A := λ w, (Ok a, w).

Definition bind {A B} (c : M A) (k : A → M B) : M B :=
  λ w, match c w with
       | (Ok a, w') => k a w'
       | (Raise e, w') => (Raise e, w')
       end.

Definition raise {A} (e : exn) : M A := λ w, (Raise e, w).

Definition lift {A} (r : result A) : M A := λ w, (r, w).

Declare Scope py_scope.
Delimit Scope py_scope with py.
Notation "x <- c ;; k" := (bind c (λ x, k))
  (at level 100, c at next level, right associativity) : py_scope.
Notation "c ;; k" := (bind c (λ _, k))
  (at level 100, right associativity) : py_scope.
Local Open Scope py_scope.

(** [for x in l: body x] *)
Fixpoint for_each {A} (l : list A) (body : A → M unit) : M unit :=
  match l with
  | [] => ret tt
  | x :: l' => body x ;; for_each l' body
  end.

(** File-system effects. *)
Definition with_fs (op : FileSystem → result FileSystem) : M unit :=
  λ w, match op (fs w) with
       | Ok fs' => (Ok tt, MkWorld fs' (heap w) (rng w) (events w))
       | Raise e => (Raise e, w)
       end.

Definition read_fs {A} (op : FileSystem → A) : M A := λ w, (Ok (op (fs w)), w).

Definition emit (e : event) : M unit :=
  λ w, (Ok tt, MkWorld (fs w) (heap w) (rng w) (events w ++ [e])).

(** List objects.  A reference handed out by [alloc] is bound; reading
    any other one gives the empty list. *)
Definition with_heap (w : World) (h : gmap loc (list Path)) : World :=
  MkWorld (fs w) h (rng w) (events w).

Definition alloc (l : list Path) : M loc :=
  λ w, let r := fresh (dom (heap w)) in (Ok r, with_heap w (<[r := l]> (heap w))).

Definition load (r : loc) : M (list Path) :=
  λ w, (Ok (default [] (heap w !! r)), w).

(** [l.copy()] *)
Definition list_copy (r : loc) : M loc := l <- load r ;; alloc l.

(** [l[lo:hi]], a new list. *)
Definition list_slice (r : loc) (lo hi : option Z) : M loc :=
  l <- load r ;; alloc (slice l lo hi).

(** [random.shuffle(x)]:
<<
    for i in reversed(range(1, len(x))):
        j = randbelow(i + 1)
        x[i], x[j] = x[j], x[i]
>> *)
Definition randbelow (n : nat) (g : Rng) : nat * Rng :=
  ((draws g (consumed g) mod n)%nat, MkRng (draws g) (S (consumed g))).

Definition swap {A} (x : list A) (i j : nat) : list A :=
  match x !! i, x !! j with
  | Some a, Some b => <[j := a]> (<[i := b]> x)
  | _, _ => x
  end.

Fixpoint shuffle_down {A} (i : nat) (x : list A) (g : Rng) : list A * Rng :=
  match i with
  | O => (x, g)
  | S i' =>
      let '(j, g') := randbelow (S i) g in
      shuffle_down i' (swap x i j) g'
  end.

Definition shuffle {A} (x : list A) (g : Rng) : list A * Rng :=
  shuffle_down (length x - 1) x g.

Definition random_shuffle (r : loc) : M unit :=
  λ w, let '(l, g) := shuffle (default [] (heap w !! r)) (rng w) in
       (Ok tt, MkWorld (fs w) (<[r := l]> (heap w)) g (events w)).

(** ** [custom_model_trainer.py]: [TrainingConfig] *)

Record TrainingConfig := MkTrainingConfig {
  model_name : string;
  base_model : string;
  dataset_name : string;
  train_ratio : float;
  val_ratio : float;
  test_ratio : float;
  epochs : Z;
  batch_size : Z;
  image_size : Z;
  learning_rate : float;
  optimizer : string;
  weight_decay : float;
  momentum : float;
  augmentation : bool;
  mixup : float;
  copy_paste : float;
  device : string;
  workers : Z;
  patience : Z;
  save_period : Z;
  resume : bool
}.

(** The dataclass defaults. *)
Definition default_config : TrainingConfig := {|
  model_name := "custom_vehicle_model";
  base_model := "yolov8n.pt";
  dataset_name := "vehicle_dataset";
  train_ratio := 0.7;
  val_ratio := 0.2;
  test_ratio := 0.1;
  epochs := 100;
  batch_size := 16;
  image_size := 640;
  learning_rate := 0.01;
  optimizer := "AdamW";
  weight_decay := 0.0005;
  momentum := 0.937;
  augmentation := true;
  mixup := 0.1;
  copy_paste := 0.3;
  device := "auto";
  workers := 8;
  patience := 50;
  save_period := 10;
  resume := false
|}.

(** ** [custom_model_trainer.py]: [DatasetPreparer] *)

Record DatasetPreparer := MkDatasetPreparer {
  source_dir : Path;
  output_dir : Path
}.

Definition split_names : list string := ["train"; "val"; "test"]%string.

(** [_create_dataset_structure] *)
Definition _create_dataset_structure (dataset_path : Path) : M unit :=
  for_each split_names (λ split,
    with_fs (λ fs, mkdir_p fs (child (child dataset_path "images") split)) ;;
    with_fs (λ fs, mkdir_p fs (child (child dataset_path "labels") split))).

(** [_collect_files].  The extension set is iterated in the order
    written; the two [list(set(...))] results come in the order the set
    lists them. *)
Definition image_extensions : list string :=
  [".jpg"; ".jpeg"; ".png"; ".bmp"; ".tiff"; ".tif"]%string.

Definition search_paths (self : DatasetPreparer) : list Path :=
  [ source_dir self;
    child (source_dir self) "images";
    rel ["images"%string];
    child (rel ["exports"%string]) "yolo";
    rel ["labels"%string] ].

Definition found_images (fs : FileSystem) (search_path : Path) : list Path :=
  if path_exists fs search_path
  then mjoin ((λ ext, glob_suffix fs search_path ext) <$> image_extensions)
  else [].

Definition found_labels (fs : FileSystem) (search_path : Path) : list Path :=
  if path_exists fs search_path then glob_suffix fs search_path ".txt" else [].

Definition _collect_files (self : DatasetPreparer) (fs : FileSystem)
  : list Path * list Path :=
  let image_files := mjoin (found_images fs <$> search_paths self) in
  let label_files := mjoin (found_labels fs <$> search_paths self) in
  (elements (list_to_set image_files : gset Path),
   elements (list_to_set label_files : gset Path)).

(** [_find_label_file] *)
Fixpoint _find_label_file (image_file : Path) (label_files : list Path)
  : option Path :=
  match label_files with
  | [] => None
  | label_file :: rest =>
      if decide (stem label_file = stem image_file) then Some label_file
      else _find_label_file image_file rest
  end.

(** [_split_dataset].  [files] is the caller's list object. *)
Definition ratio_count (total_files : Z) (ratio : float) : result Z :=
  rbind (int_mul_float total_files ratio) int_of_float.

Definition _split_dataset (files : loc) (train_ratio val_ratio test_ratio : float)
  : M (loc * loc * loc) :=
  let total_ratio := (train_ratio + val_ratio + test_ratio)%float in
  if (0.01 <? abs (total_ratio - 1.0))%float
  then raise (ValueError (RatioSumNotOne total_ratio))
  else
    files <- list_copy files ;;
    random_shuffle files ;;
    contents <- load files ;;
    let total_files := Z.of_nat (length contents) in
    train_count <- lift (ratio_count total_files train_ratio) ;;
    val_count <- lift (ratio_count total_files val_ratio) ;;
    train_files <- list_slice files None (Some train_count) ;;
    val_files <- list_slice files (Some train_count) (Some (train_count + val_count)) ;;
    test_files <- list_slice files (Some (train_count + val_count)) None ;;
    ret (train_files, val_files, test_files).

(** [_generate_dataset_statistics]: the counting of one split. *)
Record SplitStats := MkSplitStats {
  images : Z;
  labels : Z;
  annotations : Z;
  class_distribution : gmap Z Z
}.

(** The body of [for line in lines]. *)
Definition count_line (class_counts : gmap Z Z) (line : list ascii)
  : result (gmap Z Z) :=
  match Str.split (Str.strip line) with
  | [] => Ok class_counts
  | first :: _ =>
      rbind (Str.int_of_str first) (λ class_id,
        Ok (<[class_id := default 0 (class_counts !! class_id) + 1]> class_counts))
  end.

Fixpoint count_lines (class_counts : gmap Z Z) (lines : list (list ascii))
  : result (gmap Z Z) :=
  match lines with
  | [] => Ok class_counts
  | line :: rest => rbind (count_line class_counts line) (λ c, count_lines c rest)
  end.

(** The body of [for label_file in labels_dir.glob("*.txt")], on the
    text of the file: [acc] is [(total_annotations, class_counts)]. *)
Definition count_label_text (acc : Z * gmap Z Z) (content : string)
  : result (Z * gmap Z Z) :=
  let lines := Str.readlines content in
  let total_annotations := acc.1 + Z.of_nat (length lines) in
  rbind (count_lines acc.2 lines) (λ c, Ok (total_annotations, c)).

Fixpoint count_label_files (fs : FileSystem) (acc : Z * gmap Z Z)
  (label_files : list Path) : result (Z * gmap Z Z) :=
  match label_files with
  | [] => Ok acc
  | label_file :: rest =>
      rbind (read_text fs label_file) (λ content,
      rbind (count_label_text acc content) (λ acc',
      count_label_files fs acc' rest))
  end.

Definition split_statistics (fs : FileSystem) (dataset_path : Path) (split : string)
  : result SplitStats :=
  let images_dir := child (child dataset_path "images") split in
  let labels_dir := child (child dataset_path "labels") split in
  let image_count := Z.of_nat (length (glob_suffix fs images_dir "")) in
  let label_count := Z.of_nat (length (glob_suffix fs labels_dir ".txt")) in
  rbind (count_label_files fs (0, ∅) (glob_suffix fs labels_dir ".txt")) (λ acc,
    Ok (MkSplitStats image_count label_count acc.1 acc.2)).

Fixpoint all_split_statistics (fs : FileSystem) (dataset_path : Path)
  (splits : list string) : result (list (string * SplitStats)) :=
  match splits with
  | [] => Ok []
  | split :: rest =>
      rbind (split_statistics fs dataset_path split) (λ s,
      rbind (all_split_statistics fs dataset_path rest) (λ ss,
      Ok ((split, s) :: ss)))
  end.

Section Preparation.

(** What the collaborators outside this module give: the enabled class
    names of [VehicleClassManager] ([None] when importing or calling it
    raises), the serialisers, and the clock. *)
Variable registry_classes : option (list string).
Variable yaml_dump : list string → list string → string.
Variable json_dump : string → Path → list (string * SplitStats) → string.
Variable now_isoformat : string.

(** [_load_vehicle_classes] *)
Definition classes_files (self : DatasetPreparer) : list Path :=
  [ rel ["classes.txt"%string];
    rel ["exports"%string; "yolo"%string; "classes.txt"%string];
    child (source_dir self) "classes.txt" ].

Definition nonblank_stripped (content : string) : list string :=
  Str.of_chars <$>
    filter (λ l, l ≠ []) (Str.strip <$> Str.readlines content).

Fixpoint first_classes_file (fs : FileSystem) (candidates : list Path)
  : result (list string) :=
  match candidates with
  | [] => Ok ["機車"; "汽車"; "卡車"; "公車"]%string
  | classes_file :: rest =>
      if path_exists fs classes_file
      then rbind (read_text fs classes_file) (λ content, Ok (nonblank_stripped content))
      else first_classes_file fs rest
  end.

Definition _load_vehicle_classes (self : DatasetPreparer) : M (list string) :=
  match registry_classes with
  | Some classes => ret classes
  | None => w <- read_fs (λ fs, fs) ;; lift (first_classes_file w (classes_files self))
  end.

(** [_create_dataset_yaml]: the document is [yaml_dump] of the absolute
    dataset root and the class names. *)
Definition _create_dataset_yaml (self : DatasetPreparer) (dataset_path : Path)
  (config : TrainingConfig) : M unit :=
  classes <- _load_vehicle_classes self ;;
  root <- read_fs (λ fs, resolve fs dataset_path) ;;
  with_fs (λ fs, write_text fs (child dataset_path "dataset.yaml")
                   (yaml_dump root classes)).

(** [_generate_dataset_statistics] *)
Definition _generate_dataset_statistics (dataset_path : Path) : M unit :=
  w <- read_fs (λ fs, fs) ;;
  splits <- lift (all_split_statistics w dataset_path split_names) ;;
  with_fs (λ fs, write_text fs (child dataset_path "dataset_statistics.json")
                   (json_dump now_isoformat dataset_path splits)).

(** [prepare_yolo_dataset].  [progress_callback] tells whether the caller
    passed one; its calls are recorded as [Progress] events. *)
Definition copy_one (dataset_path : Path) (label_files : list Path)
  (split_name : string) (img_file : Path) : M unit :=
  with_fs (λ fs, copy2 fs img_file
     (child (child (child dataset_path "images") split_name) (name img_file))) ;;
  match _find_label_file img_file label_files with
  | Some label_file =>
      with_fs (λ fs, copy2 fs label_file
         (child (child (child dataset_path "labels") split_name)
                (stem img_file ++ ".txt")%string))
  | None => ret tt
  end.

Fixpoint copy_split (dataset_path : Path) (label_files : list Path)
  (progress_callback : bool) (total_files : Z) (split_name : string)
  (file_list : list Path) (processed : Z) : M Z :=
  match file_list with
  | [] => ret processed
  | img_file :: rest =>
      copy_one dataset_path label_files split_name img_file ;;
      let processed := processed + 1 in
      (if progress_callback
       then q <- lift (int_truediv processed total_files) ;;
            p <- lift (int_of_float (q * 100)%float) ;;
            emit (Progress p)
       else ret tt) ;;
      copy_split dataset_path label_files progress_callback total_files
        split_name rest processed
  end.

Definition prepare_yolo_dataset (self : DatasetPreparer) (config : TrainingConfig)
  (progress_callback : bool) : M Path :=
  let dataset_path := child (output_dir self) (dataset_name config) in
  _create_dataset_structure dataset_path ;;
  found <- read_fs (_collect_files self) ;;
  let label_files := found.2 in
  match found.1 with
  | [] => raise (ValueError NoImagesFound)
  | _ =>
      image_files <- alloc found.1 ;;
      split <- _split_dataset image_files
                 (train_ratio config) (val_ratio config) (test_ratio config) ;;
      train_files <- load split.1.1 ;;
      val_files <- load split.1.2 ;;
      test_files <- load split.2 ;;
      let total_files :=
        Z.of_nat (length train_files) + Z.of_nat (length val_files)
        + Z.of_nat (length test_files) in
      let copy := copy_split dataset_path label_files progress_callback total_files in
      processed <- copy "train"%string train_files 0 ;;
      processed <- copy "val"%string val_files processed ;;
      processed <- copy "test"%string test_files processed ;;
      _create_dataset_yaml self dataset_path config ;;
      _generate_dataset_statistics dataset_path ;;
      ret (child dataset_path "dataset.yaml")
  end.

End Preparation.

(** ** [custom_model_trainer.py]: [ModelTrainer] *)

Module Engine.

(** A value of the engine's metrics mapping. *)
Inductive value :=
  | VInt (z : Z)
  | VFloat (f : float)
  | VOther (str : string)   (* anything else, by its [str()] *).

(** The trainer object the engine hands to [on_train_epoch_end]:
    [metrics] is [None] when the attribute is absent. *)
Record trainer := MkTrainer {
  epoch : Z;
  epochs : Z;
  metrics : option (list (string * value))
}.

End Engine.

(** [metrics.get('loss', 'N/A')] *)
Definition metrics_get_loss (m : list (string * Engine.value)) : Engine.value :=
  match list_find (λ kv, kv.1 = "loss"%string) m with
  | Some (_, (_, v)) => v
  | None => Engine.VOther "N/A"
  end.

(** The callback [_setup_callbacks] registers.  [progress_callback] and
    [log_callback] tell which callbacks the caller passed. *)
Definition loss_suffix (loss_value : Engine.value) : result string :=
  match loss_value with
  | Engine.VInt z =>
      rbind (float_of_int z) (λ f, Ok (" - Loss: " ++ Str.format_fixed 4 f)%string)
  | Engine.VFloat f => Ok (" - Loss: " ++ Str.format_fixed 4 f)%string
  | Engine.VOther s => Ok (" - Loss: " ++ s)%string
  end.

(** [int((trainer.epoch + 1) / trainer.epochs * 100)] *)
Definition progress_percent (epoch epochs : Z) : result Z :=
  rbind (int_truediv (epoch + 1) epochs) (λ q, int_of_float (q * 100)%float).

Definition on_train_epoch_end (progress_callback log_callback : bool)
  (trainer : Engine.trainer) : M unit :=
  (if progress_callback
   then progress <- lift (progress_percent (Engine.epoch trainer) (Engine.epochs trainer)) ;;
        emit (Progress progress)
   else ret tt) ;;
  (if log_callback
   then let metrics := default [] (Engine.metrics trainer) in
        let log_message :=
          ("Epoch " ++ Str.str_of_int (Engine.epoch trainer + 1) ++ "/"
             ++ Str.str_of_int (Engine.epochs trainer))%string in
        suffix <- lift (match metrics with
                        | [] => Ok ""%string
                        | _ => loss_suffix (metrics_get_loss metrics)
                        end) ;;
        emit (Log (log_message ++ suffix)%string)
   else ret tt).

(** A training run as the callback sees it: the engine ends the epochs
    [0 .. epochs - 1] in order and calls the callback at each end. *)
Definition run_epochs (progress_callback log_callback : bool) (epochs : nat)
  (metrics : option (list (string * Engine.value))) : M unit :=
  for_each (seq 0 epochs) (λ i,
    on_train_epoch_end progress_callback log_callback
      (Engine.MkTrainer (Z.of_nat i) (Z.of_nat epochs) metrics)).

(** The progress values a run hands to [progress_callback]. *)
Definition progress_values (es : list event) : list Z :=
  omap (λ e, match e with Progress p => Some p | Log _ => None end) es.

(** [evaluate_model]: the summary metrics taken from [results.box]. *)
Record BoxResults := MkBoxResults { map50 : float; map : float; mp : float; mr : float }.

Record Metrics := MkMetrics {
  mAP50 : float;
  mAP50_95 : float;
  precision : float;
  recall : float;
  f1_score : float
}.

Definition f1_of (mp mr : float) : result float :=
  float_truediv (2 * (mp * mr))%float (mp + mr + 1e-16)%float.

Definition evaluate_metrics (box : BoxResults) : result Metrics :=
  rbind (f1_of (mp box) (mr box)) (λ f1,
    Ok (MkMetrics (map50 box) (map box) (mp box) (mr box) f1)).

(** ** [yolo_exporter.py]: [YoloExporter.export_annotations] *)

Module Exporter.

Record QRect := MkQRect { x : Z; y : Z; width : Z; height : Z }.

Record annotation := MkAnnotation {
  id : Z;
  rect : QRect;
  class_id : Z;
  class_name : string
}.

(** The four relative coordinates of one annotation, in the order the
    source computes them: [x_center], [y_center], [width], [height]. *)
Record yolo_box := MkYoloBox {
  x_center : float;
  y_center : float;
  rel_width : float;
  rel_height : float
}.

Definition yolo_coordinates (img_w img_h : Z) (r : QRect) : result yolo_box :=
  let x1 := x r in
  let y1 := y r in
  let x2 := x1 + width r in
  let y2 := y1 + height r in
  rbind (int_truediv (x1 + x2) 2) (λ cx,
  rbind (float_div_int cx img_w) (λ x_center,
  rbind (int_truediv (y1 + y2) 2) (λ cy,
  rbind (float_div_int cy img_h) (λ y_center,
  rbind (int_truediv (Z.abs (x2 - x1)) img_w) (λ width,
  rbind (int_truediv (Z.abs (y2 - y1)) img_h) (λ height,
  Ok (MkYoloBox x_center y_center width height))))))).

(** [f'{class_id} {x_center:.10f} {y_center:.10f} {width:.10f} {height:.10f}\n'] *)
Definition yolo_line (class_id : Z) (b : yolo_box) : string :=
  (Str.str_of_int class_id ++ " " ++ Str.format_fixed 10 (x_center b)
     ++ " " ++ Str.format_fixed 10 (y_center b)
     ++ " " ++ Str.format_fixed 10 (rel_width b)
     ++ " " ++ Str.format_fixed 10 (rel_height b)
     ++ String Str.LF "")%string.

(** [f.write(line)] on the file opened for writing at [label_path]. *)
Definition write_line (label_path : Path) (line : string) : M unit :=
  with_fs (λ fs, rbind (read_text fs label_path) (λ written,
                   write_text fs label_path (written ++ line)%string)).

(** [export_annotations].  [img_w] and [img_h] are what
    [QPixmap(image_path)] reports: the size of the image, or [0] and [0]
    when the file is not a readable image. *)
Definition export_annotations (img_w img_h : Z) (image_path : Path)
  (annotations : list annotation) (output_dir : Path) : M Path :=
  match annotations with
  | [] => raise (ValueError NoAnnotations)
  | _ =>
      with_fs (λ fs, mkdir_p fs output_dir) ;;
      let base_name := splitext_root (name image_path) in
      let label_path := child output_dir (base_name ++ ".txt")%string in
      with_fs (λ fs, write_text fs label_path "") ;;
      for_each annotations (λ a,
        b <- lift (yolo_coordinates img_w img_h (rect a)) ;;
        write_line label_path (yolo_line (class_id a) b)) ;;
      ret label_path
  end.

End Exporter.

(** The three lists [_split_dataset] returns, read back from the heap. *)
Definition split_lists (files : loc) (train_ratio val_ratio test_ratio : float)
  (w : World) : result (list Path * list Path * list Path) :=
  match _split_dataset files train_ratio val_ratio test_ratio w with
  | (Ok (train_files, val_files, test_files), w') =>
      Ok (default [] (heap w' !! train_files),
          default [] (heap w' !! val_files),
          default [] (heap w' !! test_files))
  | (Raise e, _) => Raise e
  end.

(** ** Sample inputs *)

Module Sample.

Definition img (i : nat) : Path :=
  rel ["images"; ("img" ++ Str.str_of_int (Z.of_nat i) ++ ".jpg")]%string.

Definition imgs (n : nat) : list Path := img <$> seq 0 n.

Definition empty_fs : FileSystem := MkFs ["data"%string] ∅ ∅.

(** A world whose only list object, at reference [0], holds [l]. *)
Definition world_with (l : list Path) : World :=
  MkWorld empty_fs {[ 0%nat := l ]} (MkRng (λ i, (3 * i + 1)%nat) 0) [].

End Sample.

(** A preparer over the working directory, as [training_dialog.py] builds
    it, and collaborators that supply nothing. *)
Module SamplePrep.

Definition preparer : DatasetPreparer :=
  MkDatasetPreparer (rel []) (rel ["datasets"%string]).

Definition no_yaml (root classes : list string) : string := ""%string.
Definition no_json (now : string) (dataset_path : Path)
  (splits : list (string * SplitStats)) : string := ""%string.

Definition prepare (w : World) : result Path * World :=
  prepare_yolo_dataset None no_yaml no_json "" preparer default_config false w.

End SamplePrep.

(** [w1] is [w] with, possibly, more directories. *)
Definition same_but_dirs (w w1 : World) : Prop :=
  cwd (fs w1) = cwd (fs w) ∧ files (fs w1) = files (fs w)
  ∧ heap w1 = heap w ∧ rng w1 = rng w ∧ events w1 = events w
  ∧ dirs (fs w) ⊆ dirs (fs w1).

(** A source tree given by its absolute path, with the working directory
    inside it: two images, one of them labelled. *)
Module SampleTree.

Definition tree : FileSystem :=
  MkFs ["data"%string]
    {[ ["data"%string]; ["data"; "images"]%string ]}
    {[ ["data"; "images"; "a.jpg"]%string := ""%string;
       ["data"; "images"; "a.txt"]%string := "0 0.5 0.5 0.1 0.1"%string;
       ["data"; "images"; "b.jpg"]%string := ""%string ]}.

Definition preparer : DatasetPreparer :=
  MkDatasetPreparer (MkPath true ["data"%string]) (rel ["datasets"%string]).

End SampleTree.

(** The sum of the per-class counts of a distribution. *)
Definition class_total (class_counts : gmap Z Z) : Z :=
  map_fold (λ _ n acc, n + acc) 0 class_counts.

(** The lines of a label text that hold at least one token. *)
Definition token_lines (lines : list (list ascii)) : list (list ascii) :=
  filter (λ line, Str.split (Str.strip line) ≠ []) lines.

(** A prepared dataset whose [train] split has one label file: one
    annotation followed by an empty line. *)
Module SampleLabels.

Definition dataset_path : Path := rel ["ds"%string].

Definition label_text : string :=
  String.append "0 0.5 0.5 0.1 0.1" (String Str.LF (String Str.LF "")).

Definition tree_dirs : gset (list string) :=
  {[ ["ds"%string]; ["ds"; "labels"]%string; ["ds"; "labels"; "train"]%string ]}.

Definition tree_files : gmap (list string) string :=
  {[ ["ds"; "labels"; "train"; "a.txt"]%string := label_text ]}.

Definition tree : FileSystem := MkFs [] tree_dirs tree_files.

End SampleLabels.

(** One image with two boxes, to be exported from the working directory
    [/home] into [labels/]. *)
Module SampleExport.

Import Exporter.

Definition world : World :=
  MkWorld (MkFs ["home"%string] ∅ ∅) ∅ (MkRng (λ i, i) 0) [].

Definition image_path : Path := rel ["images"; "a.jpg"]%string.
Definition output_dir : Path := rel ["labels"%string].

Definition annotations : list annotation :=
  [ MkAnnotation 1 (MkQRect 10 20 30 40) 2 "truck";
    MkAnnotation 2 (MkQRect 0 0 5 7) 0 "motorcycle" ].

Definition export (img_w img_h : Z) : result Path * World :=
  export_annotations img_w img_h image_path annotations output_dir world.

End SampleExport.

(** A working directory in which [datasets] is a regular file. *)
Module SampleBlocked.

Definition tree_files : gmap (list string) string :=
  {[ ["data"; "datasets"]%string := "not a directory"%string ]}.

Definition tree_dirs : gset (list string) := {[ ["data"%string] ]}.

Definition world : World :=
  MkWorld (MkFs ["data"%string] tree_dirs tree_files) ∅ (MkRng (λ i, i) 0) [].

End SampleBlocked.

(** The coordinates [yolo_coordinates] computes when no division raises,
    and the text [export_annotations] then writes. *)
Definition yolo_box_of (img_w img_h : Z) (r : Exporter.QRect) : Exporter.yolo_box :=
  let x1 := Exporter.x r in
  let y1 := Exporter.y r in
  let x2 := x1 + Exporter.width r in
  let y2 := y1 + Exporter.height r in
  Exporter.MkYoloBox
    (float_of_Z (x1 + x2) / float_of_Z 2 / float_of_Z img_w)%float
    (float_of_Z (y1 + y2) / float_of_Z 2 / float_of_Z img_h)%float
    (float_of_Z (Z.abs (x2 - x1)) / float_of_Z img_w)%float
    (float_of_Z (Z.abs (y2 - y1)) / float_of_Z img_h)%float.

Definition label_lines (img_w img_h : Z) (annotations : list Exporter.annotation)
  : list string :=
  (λ a, Exporter.yolo_line (Exporter.class_id a)
          (yolo_box_of img_w img_h (Exporter.rect a))) <$> annotations.

Definition concat_lines (lines : list string) : string :=
  foldr String.append ""%string lines.

(** The real number a finite positive binary64 value [m * 2^e] stands for. *)
Definition FR (m : positive) (e : Z) : R := (IZR (Z.pos m) * powerRZ 2 e)%R.

(** ** [vehicle_class_manager.py]: [VehicleClass] and [VehicleClassManager]

    The registry [DatasetPreparer._load_vehicle_classes] asks for the
    class names.  [self.classes] is a [dict] from class id to
    [VehicleClass]: an association list in insertion order, as a Python
    [dict] iterates.  The manager object and the file system are passed
    explicitly; a failing operation gives the state it leaves behind.
    Whitespace is the ASCII whitespace of [Str]. *)

Module Registry.

Record QColor := MkQColor { red : Z; green : Z; blue : Z; alpha : Z }.

#[global] Instance QColor_eq_dec : EqDecision QColor.
Proof. solve_decision. Defined.

Record VehicleClass := MkVehicleClass {
  class_id : Z;
  name : string;
  color : QColor;
  description : string;
  enabled : bool;
  shortcut_key : string;
  emoji : string
}.

#[global] Instance VehicleClass_eq_dec : EqDecision VehicleClass.
Proof. solve_decision. Defined.

Definition default_colors : list QColor :=
  [ MkQColor 255 75 75 255; MkQColor 75 255 75 255; MkQColor 75 150 255 255;
    MkQColor 255 215 0 255; MkQColor 255 165 0 255; MkQColor 147 112 219 255;
    MkQColor 255 192 203 255; MkQColor 0 255 255 255; MkQColor 255 255 0 255;
    MkQColor 255 20 147 255 ].

(** [VehicleClass._get_default_color] *)
Definition _get_default_color (class_id : Z) : QColor :=
  default (MkQColor 255 75 75 255)
    (default_colors !! Z.to_nat (class_id `mod` Z.of_nat (length default_colors))).

(** [VehicleClass.__init__]: [color or self._get_default_color(class_id)]. *)
Definition new_class (class_id : Z) (name : string) (color : option QColor)
  (description : string) (enabled : bool) (shortcut_key emoji : string)
  : VehicleClass :=
  MkVehicleClass class_id name (default (_get_default_color class_id) color)
    description enabled shortcut_key emoji.

(** The [dict] operations the manager uses. *)
Abbreviation dict := (list (Z * VehicleClass)).

Fixpoint dict_get (k : Z) (d : dict) : option VehicleClass :=
  match d with
  | [] => None
  | (k', v) :: d' => if decide (k' = k) then Some v else dict_get k d'
  end.

(** [d[k] = v]: an existing key keeps its place, a new one goes last. *)
Fixpoint dict_set (k : Z) (v : VehicleClass) (d : dict) : dict :=
  match d with
  | [] => [(k, v)]
  | (k', v') :: d' =>
      if decide (k' = k) then (k, v) :: d' else (k', v') :: dict_set k v d'
  end.

(** [del d[k]] *)
Definition dict_del (k : Z) (d : dict) : dict := filter (λ kv, kv.1 ≠ k) d.

Definition keys (d : dict) : list Z := d.*1.
Definition values (d : dict) : list VehicleClass := d.*2.

Record manager := MkManager {
  config_file : Path;
  classes : dict;
  next_id : Z
}.

(** The [ValueError]s of the manager, by message. *)
Inductive reason :=
  | EmptyName
  | NameExists (name : string)
  | ShortcutUsed (shortcut_key : string)
  | UnknownId (class_id : Z).

(** What an operation raises: a [ValueError] of its own, or what
    [save_classes] re-raises from opening the configuration file. *)
Inductive failure :=
  | Invalid (why : reason)
  | SaveFailed (e : exn).

Inductive outcome (A : Type) :=
  | Done (a : A)
  | Fail (f : failure).
Arguments Done {A} a.
Arguments Fail {A} f.

(** [not name.strip()] *)
Definition blank (s : string) : bool :=
  bool_decide (Str.strip (Str.chars s) = []).

(** [sorted(classes, key=lambda x: x.class_id)]: a stable sort. *)
Fixpoint insert_by_id (c : VehicleClass) (l : list VehicleClass) : list VehicleClass :=
  match l with
  | [] => [c]
  | c' :: l' =>
      if class_id c <=? class_id c' then c :: c' :: l' else c' :: insert_by_id c l'
  end.

Definition sorted_by_id (l : list VehicleClass) : list VehicleClass :=
  foldr insert_by_id [] l.

(** [max(self.classes.keys())] of a non-empty [dict]. *)
Definition max_key (d : dict) : Z :=
  match keys d with
  | [] => 0
  | k :: ks => foldr Z.max k ks
  end.

(** The emoji [import_classes_txt] gives a class by its name. *)
Definition emoji_map : list (string * string) :=
  [ ("機車", "🏍"); ("摩托車", "🏍");
    ("汽車", "🚗"); ("小客車", "🚗"); ("轎車", "🚗");
    ("卡車", "🚛"); ("貨車", "🚛"); ("載貨車", "🚛");
    ("公車", "🚌"); ("巴士", "🚌"); ("客運", "🚌");
    ("計程車", "🚕"); ("的士", "🚕");
    ("警車", "🚓");
    ("救護車", "🚑");
    ("消防車", "🚒");
    ("腳踏車", "🚲"); ("自行車", "🚲");
    ("三輪車", "🛺") ]%string.

Definition emoji_of (name : string) : string :=
  default "🚗"%string
    (snd <$> find (λ kv : string * string, String.eqb kv.1 name) emoji_map).

Section Manager.

(** The serialisers: [json.dump] of the classes in [dict] order with
    [next_id], and [json.load] followed by [from_dict] on each entry,
    which gives the classes and the ['next_id'] entry when there is one,
    or nothing when either raises. *)
Variable json_dump : list VehicleClass → Z → string.
Variable json_load : string → option (list VehicleClass * option Z).

(** [save_classes] *)
Definition save_classes (self : manager) (fs : FileSystem) : result FileSystem :=
  write_text fs (config_file self) (json_dump (values (classes self)) (next_id self)).

Definition saved {A} (a : A) (self : manager) (fs : FileSystem)
  : outcome A * manager * FileSystem :=
  match save_classes self fs with
  | Ok fs' => (Done a, self, fs')
  | Raise e => (Fail (SaveFailed e), self, fs)
  end.

(** [_load_default_classes] *)
Definition default_classes : dict :=
  [ (0, new_class 0 "機車" None "兩輪機車" true "1" "🏍");
    (1, new_class 1 "汽車" None "一般乘用車" true "2" "🚗");
    (2, new_class 2 "卡車" None "貨運卡車" true "3" "🚛");
    (3, new_class 3 "公車" None "公共交通巴士" true "4" "🚌") ]%string.

Definition _load_default_classes (self : manager) (fs : FileSystem)
  : outcome unit * manager * FileSystem :=
  saved tt (MkManager (config_file self) default_classes 4) fs.

(** [load_classes]: the classes of the configuration file, or the four
    default ones when it is missing or unreadable; in the end [next_id]
    is one more than the largest id. *)
Definition fix_next_id (self : manager) : manager :=
  match classes self with
  | [] => self
  | _ => MkManager (config_file self) (classes self) (max_key (classes self) + 1)
  end.

Definition load_classes (self : manager) (fs : FileSystem)
  : outcome unit * manager * FileSystem :=
  let loaded :=
    if path_exists fs (config_file self)
    then match read_text fs (config_file self) with
         | Ok text =>
             match json_load text with
             | Some (entries, next) =>
                 let classes := foldl (λ d c, dict_set (class_id c) c d) [] entries in
                 Some (MkManager (config_file self) classes
                         (default (Z.of_nat (length classes)) next))
             | None => None
             end
         | Raise _ => None
         end
    else None in
  match loaded with
  | Some self' => (Done tt, fix_next_id self', fs)
  | None =>
      match _load_default_classes self fs with
      | (Done _, self', fs') => (Done tt, fix_next_id self', fs')
      | failed => failed
      end
  end.

(** [VehicleClassManager(config_file)] *)
Definition init (config_file : Path) (fs : FileSystem)
  : outcome unit * manager * FileSystem :=
  load_classes (MkManager config_file [] 0) fs.

(** [add_class] *)
Definition add_class (self : manager) (fs : FileSystem) (name : string)
  (color : option QColor) (description shortcut_key emoji : string)
  : outcome Z * manager * FileSystem :=
  if blank name then (Fail (Invalid EmptyName), self, fs)
  else if existsb (λ c, String.eqb (Registry.name c) name) (values (classes self))
  then (Fail (Invalid (NameExists name)), self, fs)
  else if negb (String.eqb shortcut_key "")
          && existsb (λ c, String.eqb (Registry.shortcut_key c) shortcut_key)
               (values (classes self))
  then (Fail (Invalid (ShortcutUsed shortcut_key)), self, fs)
  else
    let class_id := next_id self in
    let vehicle_class :=
      new_class class_id name color description true shortcut_key emoji in
    saved class_id
      (MkManager (config_file self)
         (dict_set class_id vehicle_class (classes self)) (next_id self + 1)) fs.

(** [update_class]: the fields are assigned one after the other on the
    object the [dict] holds, so a check that fails leaves the earlier
    assignments in place. *)
Definition others_have (class_id : Z) (p : VehicleClass → bool) (d : dict) : bool :=
  existsb (λ kv : Z * VehicleClass, bool_decide (kv.1 ≠ class_id) && p kv.2) d.

Definition with_class (self : manager) (class_id : Z) (c : VehicleClass) : manager :=
  MkManager (config_file self) (dict_set class_id c (classes self)) (next_id self).

Definition update_class (self : manager) (fs : FileSystem) (class_id : Z)
  (name : option string) (color : option QColor) (description : option string)
  (enabled : option bool) (shortcut_key emoji : option string)
  : outcome unit * manager * FileSystem :=
  match dict_get class_id (classes self) with
  | None => (Fail (Invalid (UnknownId class_id)), self, fs)
  | Some c =>
      let named :=
        match name with
        | None => inr c
        | Some n =>
            if blank n then inl EmptyName
            else if others_have class_id (λ c', String.eqb (Registry.name c') n)
                      (classes self)
            then inl (NameExists n)
            else inr (MkVehicleClass (Registry.class_id c) n (Registry.color c)
                        (Registry.description c) (Registry.enabled c)
                        (Registry.shortcut_key c) (Registry.emoji c))
        end in
      match named with
      | inl why => (Fail (Invalid why), self, fs)
      | inr c1 =>
          let c2 :=
            MkVehicleClass (Registry.class_id c1) (Registry.name c1)
              (default (Registry.color c1) color)
              (default (Registry.description c1) description)
              (default (Registry.enabled c1) enabled)
              (Registry.shortcut_key c1) (Registry.emoji c1) in
          match shortcut_key with
          | Some k =>
              if negb (String.eqb k "")
                 && others_have class_id
                      (λ c', String.eqb (Registry.shortcut_key c') k) (classes self)
              then (Fail (Invalid (ShortcutUsed k)), with_class self class_id c2, fs)
              else
                saved tt
                  (with_class self class_id
                     (MkVehicleClass (Registry.class_id c2) (Registry.name c2)
                        (Registry.color c2) (Registry.description c2)
                        (Registry.enabled c2) k
                        (default (Registry.emoji c2) emoji))) fs
          | None =>
              saved tt
                (with_class self class_id
                   (MkVehicleClass (Registry.class_id c2) (Registry.name c2)
                      (Registry.color c2) (Registry.description c2)
                      (Registry.enabled c2) (Registry.shortcut_key c2)
                      (default (Registry.emoji c2) emoji))) fs
          end
      end
  end.

(** [delete_class] *)
Definition delete_class (self : manager) (fs : FileSystem) (class_id : Z)
  : outcome unit * manager * FileSystem :=
  match dict_get class_id (classes self) with
  | None => (Fail (Invalid (UnknownId class_id)), self, fs)
  | Some _ =>
      saved tt
        (MkManager (config_file self) (dict_del class_id (classes self))
           (next_id self)) fs
  end.

(** [get_class] *)
Definition get_class (self : manager) (class_id : Z) : option VehicleClass :=
  dict_get class_id (classes self).

(** [get_all_classes] *)
Definition get_all_classes (self : manager) (enabled_only : bool)
  : list VehicleClass :=
  let classes := values (classes self) in
  sorted_by_id (if enabled_only then filter (λ c, enabled c = true) classes
                else classes).

(** [get_class_by_name] *)
Definition get_class_by_name (self : manager) (name : string)
  : option VehicleClass :=
  snd <$> list_find (λ c, Registry.name c = name) (values (classes self)).

(** [get_classes_for_combo] *)
Definition get_classes_for_combo (self : manager) (enabled_only : bool)
  : list (string * Z) :=
  (λ c, (Registry.name c, Registry.class_id c)) <$> get_all_classes self enabled_only.

(** [export_classes_txt]: one enabled class name per line, by id; [False]
    when the file cannot be opened. *)
Definition classes_txt (self : manager) : string :=
  foldr (λ c text, (Registry.name c ++ String Str.LF text)%string) ""%string
    (get_all_classes self true).

Definition export_classes_txt (self : manager) (fs : FileSystem) (filename : Path)
  : bool * FileSystem :=
  match write_text fs filename (classes_txt self) with
  | Ok fs' => (true, fs')
  | Raise _ => (false, fs)
  end.

(** [import_classes_txt]: line [i] of the file, when not blank, becomes
    the class with id [i]; [next_id] becomes the number of classes. *)
Definition imported_class (i : nat) (line : list ascii) : option (Z * VehicleClass) :=
  let name := Str.strip line in
  if decide (name = []) then None
  else
    let i := Z.of_nat i in
    Some (i, new_class i (Str.of_chars name) None "" true
               (if i <? 9 then Str.str_of_int (i + 1) else "")
               (emoji_of (Str.of_chars name))).

Fixpoint imported_from (i : nat) (lines : list (list ascii)) : dict :=
  match lines with
  | [] => []
  | line :: rest =>
      match imported_class i line with
      | Some kv => kv :: imported_from (S i) rest
      | None => imported_from (S i) rest
      end
  end.

Definition import_classes_txt (self : manager) (fs : FileSystem) (filename : Path)
  : bool * manager * FileSystem :=
  if path_exists fs filename
  then match read_text fs filename with
       | Ok text =>
           let classes := imported_from 0 (Str.readlines text) in
           let self' :=
             MkManager (config_file self) classes (Z.of_nat (length classes)) in
           match save_classes self' fs with
           | Ok fs' => (true, self', fs')
           | Raise _ => (false, self', fs)
           end
       | Raise _ => (false, self, fs)
       end
  else (false, self, fs).

End Manager.

End Registry.

(** What the operations of the manager keep: the keys of [classes] are
    distinct, each is the id of its class and below [next_id]; names are
    distinct and not blank; shortcut keys, where set, are distinct. *)
Definition ids_ok (self : Registry.manager) : Prop :=
  NoDup (Registry.keys (Registry.classes self))
  ∧ Forall (λ kv : Z * Registry.VehicleClass,
              Registry.class_id kv.2 = kv.1 ∧ kv.1 < Registry.next_id self)
      (Registry.classes self).

Definition names_ok (self : Registry.manager) : Prop :=
  NoDup (Registry.name <$> Registry.values (Registry.classes self))
  ∧ Forall (λ c, Registry.blank (Registry.name c) = false)
      (Registry.values (Registry.classes self)).

Definition set_shortcuts (d : Registry.dict) : list string :=
  filter (λ k, k ≠ ""%string) (Registry.shortcut_key <$> Registry.values d).

Definition shortcuts_ok (self : Registry.manager) : Prop :=
  NoDup (set_shortcuts (Registry.classes self)).

Definition registry_ok (self : Registry.manager) : Prop :=
  ids_ok self ∧ names_ok self ∧ shortcuts_ok self.

(** A list of classes in the order of their ids. *)
Fixpoint ascending (l : list Registry.VehicleClass) : Prop :=
  match l with
  | [] => True
  | c :: l' =>
      Forall (λ c', Registry.class_id c ≤ Registry.class_id c') l' ∧ ascending l'
  end.

(** A manager holding the four default classes, in a working directory
    without files, and a serialiser that lists the names. *)
Module SampleRegistry.

Definition dump (classes : list Registry.VehicleClass) (next_id : Z) : string :=
  foldr (λ c text, (Registry.name c ++ ";" ++ text)%string)
    (Str.str_of_int next_id) classes.

Definition home_dirs : gset (list string) := {[ ["home"%string] ]}.

Definition home : FileSystem := MkFs ["home"%string] home_dirs ∅.

Definition manager : Registry.manager :=
  Registry.MkManager (rel ["vehicle_classes.json"%string]) Registry.default_classes 4.

End SampleRegistry.

(** A class name that a line of [classes.txt] carries unchanged: not
    empty, no line break inside, no whitespace around. *)
Definition clean_name (s : string) : Prop :=
  s ≠ ""%string
  ∧ Forall (λ ch, ch ≠ Str.LF ∧ ch ≠ Str.CR) (Str.chars s)
  ∧ Str.strip (Str.chars s) = Str.chars s.

#[global] Instance clean_name_dec (s : string) : Decision (clean_name s).
Proof. unfold clean_name. apply _. Defined.

(** ** [custom_model_trainer.py]: [ModelTrainer._save_final_model]

    [current_run_dir] is the attribute [train_model] has set;
    [model_name] holds no path separator.  [shutil.copy2] refuses to copy
    a file onto itself, which the model leaves out: the weights of a run
    are not the file [<model_name>.pt] of the working directory. *)
Definition _save_final_model (current_run_dir : Path) (model_name : string)
  : M Path :=
  let weights_dir := child current_run_dir "weights" in
  let best_weights := child weights_dir "best.pt" in
  let last_weights := child weights_dir "last.pt" in
  now <- read_fs (λ fs, fs) ;;
  source_weights <-
    (if path_exists now best_weights then ret best_weights
     else if path_exists now last_weights then ret last_weights
     else raise FileNotFoundError) ;;
  let final_model_path := rel [(model_name ++ ".pt")%string] in
  with_fs (λ fs, copy2 fs source_weights final_model_path) ;;
  ret final_model_path.

(** ** [training_dialog.py]: [TrainingDialog.update_split_ratios]

    The three ratios come from spin boxes with two decimals and the
    range 0.1 to 0.9, so each is the binary64 value nearest to some
    [k / 100] with [10 <= k <= 90].  The result is what the method
    stores in the configuration. *)
Module Dialog.

Definition spin_value (hundredths : Z) : float :=
  (float_of_Z hundredths / float_of_Z 100)%float.

Definition update_split_ratios (train_ratio val_ratio test_ratio : float)
  : result (float * float * float) :=
  let total := (train_ratio + val_ratio + test_ratio)%float in
  if (0.01 <? abs (total - 1.0))%float
  then
    rbind (float_truediv train_ratio total) (λ train_ratio',
    rbind (float_truediv val_ratio total) (λ val_ratio',
    rbind (float_truediv test_ratio total) (λ test_ratio',
    Ok (train_ratio', val_ratio', test_ratio'))))
  else Ok (train_ratio, val_ratio, test_ratio).

(** Whether the stored ratios are positive and pass the check of
    [_split_dataset]. *)
Definition accepted (train_ratio val_ratio test_ratio : float) : bool :=
  match update_split_ratios train_ratio val_ratio test_ratio with
  | Ok (t, v, te) =>
      (negb (0.01 <? abs (t + v + te - 1.0)) && (0 <? t) && (0 <? v) && (0 <? te))%float
  | Raise _ => false
  end.

Definition spin_values : list float :=
  (λ k, spin_value (Z.of_nat k)) <$> seq 10 81.

End Dialog.

(** A finished run in the working directory: both weight files are
    there. *)
Module SampleRun.

Definition run_dir : Path := rel ["training_runs"; "run1"]%string.

Definition tree_dirs : gset (list string) :=
  {[ ["home"%string]; ["home"; "training_runs"]%string;
     ["home"; "training_runs"; "run1"]%string;
     ["home"; "training_runs"; "run1"; "weights"]%string ]}.

Definition tree_files : gmap (list string) string :=
  {[ ["home"; "training_runs"; "run1"; "weights"; "best.pt"]%string := "best"%string;
     ["home"; "training_runs"; "run1"; "weights"; "last.pt"]%string := "last"%string ]}.

Definition world : World :=
  MkWorld (MkFs ["home"%string] tree_dirs tree_files) ∅
    (MkRng (λ i, i) 0) [].

End SampleRun.

(** ** [ai_prediction_dialog.py]: the decisions of [PredictionResultDialog]

    A prediction is a [dict], compared by value; the dialog keeps the
    list of predictions it was given and two lists of its own, which
    only the three handlers below change.  Which handler calls the radio
    buttons cause is Qt's business: the properties hold for every
    sequence of calls. *)
Module Prediction.

Inductive decision := Accept | Reject.

Inductive event :=
  | Decide (index : nat) (d : decision) (checked : bool)
  | AcceptAll
  | RejectAll.

Section Dialog.
Context {A : Type} `{EqDecision A}.

Record state := MkState {
  accepted_predictions : list A;
  rejected_predictions : list A
}.

(** [l.remove(x)] for an [x] that is in [l]: the first occurrence goes. *)
Fixpoint remove_first (x : A) (l : list A) : list A :=
  match l with
  | [] => []
  | y :: l' => if decide (y = x) then l' else y :: remove_first x l'
  end.

Definition moved (prediction : A) (from to : list A) : list A * list A :=
  ((if decide (prediction ∈ from) then remove_first prediction from else from),
   (if decide (prediction ∈ to) then to else to ++ [prediction])).

(** [on_prediction_decision]; [None] is the [IndexError] of an index
    out of range. *)
Definition on_prediction_decision (predictions : list A) (s : state)
  (index : nat) (d : decision) (checked : bool) : option state :=
  if negb checked then Some s
  else
    match predictions !! index with
    | None => None
    | Some prediction =>
        match d with
        | Accept =>
            let r := moved prediction (rejected_predictions s)
                       (accepted_predictions s) in
            Some (MkState r.2 r.1)
        | Reject =>
            let r := moved prediction (accepted_predictions s)
                       (rejected_predictions s) in
            Some (MkState r.1 r.2)
        end
    end.

(** [accept_all_predictions] and [reject_all_predictions] *)
Definition accept_all_predictions (predictions : list A) (s : state) : state :=
  MkState predictions [].

Definition reject_all_predictions (predictions : list A) (s : state) : state :=
  MkState [] predictions.

(** [update_stats]: the two numbers of the label, accepted then
    rejected; what is undecided counts as accepted. *)
Definition update_stats (predictions : list A) (s : state) : Z * Z :=
  let accepted_count := Z.of_nat (length (accepted_predictions s)) in
  let rejected_count := Z.of_nat (length (rejected_predictions s)) in
  let pending_count := Z.of_nat (length predictions) - accepted_count - rejected_count in
  (accepted_count + pending_count, rejected_count).

(** [apply_selections]: the lists the two signals carry; an empty list
    is not sent. *)
Definition final_lists (predictions : list A) (s : state) : list A * list A :=
  (filter (λ pred, pred ∉ rejected_predictions s) predictions,
   filter (λ pred, pred ∈ rejected_predictions s) predictions).

Definition apply_selections (predictions : list A) (s : state)
  : option (list A) * option (list A) :=
  let sent l := match l with [] => None | _ => Some l end in
  (sent (final_lists predictions s).1, sent (final_lists predictions s).2).

(** The dialog from its construction through a sequence of handler
    calls. *)
Definition handle (predictions : list A) (s : state) (e : event) : option state :=
  match e with
  | Decide index d checked => on_prediction_decision predictions s index d checked
  | AcceptAll => Some (accept_all_predictions predictions s)
  | RejectAll => Some (reject_all_predictions predictions s)
  end.

Fixpoint run (predictions : list A) (s : state) (events : list event) : option state :=
  match events with
  | [] => Some s
  | e :: rest =>
      match handle predictions s e with
      | Some s' => run predictions s' rest
      | None => None
      end
  end.

Definition initial : state := MkState [] [].

(** What every reachable state satisfies. *)
Definition consistent (predictions : list A) (s : state) : Prop :=
  NoDup (accepted_predictions s) ∧ NoDup (rejected_predictions s)
  ∧ (∀ x, x ∈ accepted_predictions s → x ∉ rejected_predictions s)
  ∧ accepted_predictions s ⊆ predictions
  ∧ rejected_predictions s ⊆ predictions.

End Dialog.

Arguments state A : clear implicits.

End Prediction.

(** The progress values of a run of [epochs] epochs, or the first
    exception. *)
Fixpoint progress_from (epochs : Z) (first : nat) (count : nat) : result (list Z) :=
  match count with
  | O => Ok []
  | S count' =>
      rbind (progress_percent (Z.of_nat first) epochs) (λ p,
      rbind (progress_from epochs (S first) count') (λ ps, Ok (p :: ps)))
  end.

(** [int] of each float of a list, or the first exception. *)
Fixpoint ints_of (qs : list float) : result (list Z) :=
  match qs with
  | [] => Ok []
  | q :: qs' =>
      rbind (int_of_float q) (λ p, rbind (ints_of qs') (λ ps, Ok (p :: ps)))
  end.

(** The floats [(epoch + 1) / epochs * 100] of such a run, before [int]
    truncates them; [table] holds [float(1)], [float(2)], ... *)
Definition float_table : list float :=
  (λ k, float_of_Z (Z.of_nat k)) <$> seq 1 1000.

Definition progress_floats (table : list float) (epochs : nat) : list float :=
  let total := float_of_Z (Z.of_nat epochs) in
  (λ f, f / total * 100)%float <$> take epochs table.

(** Whether floats lie between 0 and 100 and never decrease from [low]
    on, and whether integers never decrease from [low] on. *)
Fixpoint floats_ascend (low : float) (qs : list float) : bool :=
  match qs with
  | [] => true
  | q :: qs' =>
      ((0 <=? q) && (q <=? 100) && (low <=? q))%float && floats_ascend q qs'
  end.

Fixpoint nondecreasing_from (low : Z) (ps : list Z) : bool :=
  match ps with
  | [] => true
  | p :: ps' => (low <=? p) && nondecreasing_from p ps'
  end.

Definition progress_floats_check (table : list float) (epochs : nat) : bool :=
  let qs := progress_floats table epochs in
  floats_ascend 0 qs
  && match last qs with
     | Some q => (100 <=? q)%float
     | None => false
     end.

(** [int] of a positive finite float [m * 2^e]. *)
Definition truncated (m : positive) (e : Z) : Z :=
  if 0 <=? e then Z.pos m * 2 ^ e else Z.pos m / 2 ^ (- e).

(** [w'] is [w] as far as the working directory and the files outside
    the directory [root] go. *)
Definition kept_outside (root : list string) (w w' : World) : Prop :=
  cwd (fs w') = cwd (fs w)
  ∧ ∀ a, ¬ root `prefix_of` a → files (fs w') !! a = files (fs w) !! a.

(** A computation that, started in the working directory [D], changes
    no file outside [root], whether it returns or raises. *)
Definition writes_inside {A} (D root : list string) (c : M A) : Prop :=
  ∀ w, cwd (fs w) = D → kept_outside root w (c w).2.

(** * Proofs *)

(** ** Shuffling and slicing *)

Section Lists.
Context {A : Type}.
Implicit Types (l x : list A) (g : Rng).

Lemma swap_perm x i j : swap x i j ≡ₚ x.
Proof.
  unfold swap.
  destruct (x !! i) as [a|] eqn:Hi; [|done].
  destruct (x !! j) as [b|] eqn:Hj; [|done].
  by apply Permutation_insert_swap.
Qed.

Lemma shuffle_down_perm i x g : (shuffle_down i x g).1 ≡ₚ x.
Proof.
  revert x g. induction i as [|i IH]; intros x g; [done|].
  cbn [shuffle_down]. destruct (randbelow (S (S i)) g) as [j g'].
  rewrite IH. apply swap_perm.
Qed.

Lemma shuffle_perm x g : (shuffle x g).1 ≡ₚ x.
Proof. apply shuffle_down_perm. Qed.

Lemma shuffle_length x g : length (shuffle x g).1 = length x.
Proof. by rewrite shuffle_perm. Qed.

(** The three slices [l[:a]], [l[a:a+b]], [l[a+b:]] for counts that are
    not negative. *)
Lemma slices_app l (a b : Z) :
  0 ≤ a → 0 ≤ b →
  slice l None (Some a) ++ slice l (Some a) (Some (a + b))
    ++ slice l (Some (a + b)) None = l.
Proof.
  intros Ha Hb. unfold slice, slice_index. cbn [from_option].
  set (n := Z.of_nat (length l)).
  assert (0 ≤ n) by lia.
  destruct (Z.ltb_spec a 0); [lia|].
  destruct (Z.ltb_spec (a + b) 0); [lia|].
  rewrite Z.sub_0_r. change (Z.to_nat 0) with 0%nat. rewrite drop_0.
  rewrite (take_ge (drop (Z.to_nat (Z.min (a + b) n)) l)).
  2:{ rewrite length_drop. lia. }
  rewrite app_assoc, take_take_drop.
  replace (Z.to_nat (Z.min a n) + Z.to_nat (Z.min (a + b) n - Z.min a n))%nat
    with (Z.to_nat (Z.min (a + b) n)) by lia.
  apply take_drop.
Qed.

Lemma slices_length l (a b : Z) :
  0 ≤ a → 0 ≤ b → a + b ≤ Z.of_nat (length l) →
  Z.of_nat (length (slice l None (Some a))) = a
  ∧ Z.of_nat (length (slice l (Some a) (Some (a + b)))) = b
  ∧ Z.of_nat (length (slice l (Some (a + b)) None)) = Z.of_nat (length l) - a - b.
Proof.
  intros Ha Hb Hab. unfold slice, slice_index. cbn [from_option].
  destruct (Z.ltb_spec a 0); [lia|].
  destruct (Z.ltb_spec (a + b) 0); [lia|].
  rewrite !length_take, !length_drop, !Z.min_l by lia.
  repeat split; lia.
Qed.

End Lists.

(** ** Float comparisons *)

Lemma SFleb_not_SFltb (a b : spec_float) : SFleb a b = true → SFltb b a = false.
Proof.
  unfold SFleb, SFltb.
  destruct a as [sa|sa| |sa ma ea], b as [sb|sb| |sb mb eb]; cbn;
    try destruct sa; try destruct sb; cbn; try done.
  - rewrite (Z.compare_antisym ea eb).
    destruct (ea ?= eb); cbn; try done.
    assert (Pos.compare_cont Eq mb ma = CompOpp (Pos.compare_cont Eq ma mb)) as ->
      by (symmetry; apply (Pos.compare_cont_antisym ma mb Eq)).
    by destruct (Pos.compare_cont Eq ma mb).
  - rewrite (Z.compare_antisym ea eb).
    destruct (ea ?= eb); cbn; try done.
    assert (Pos.compare_cont Eq mb ma = CompOpp (Pos.compare_cont Eq ma mb)) as ->
      by (symmetry; apply (Pos.compare_cont_antisym ma mb Eq)).
    by destruct (Pos.compare_cont Eq ma mb).
Qed.

(** [x <= y] makes the test [y < x] fail. *)
Lemma leb_not_ltb (x y : float) :
  (x <=? y)%float = true → (y <? x)%float = false.
Proof. rewrite leb_spec, ltb_spec. apply SFleb_not_SFltb. Qed.

(** ** Running the monad *)

Lemma bind_ok {A B} (c : M A) (k : A → M B) w a w' :
  c w = (Ok a, w') → bind c k w = k a w'.
Proof. unfold bind. by intros ->. Qed.

Lemma bind_raise {A B} (c : M A) (k : A → M B) w e w' :
  c w = (Raise e, w') → bind c k w = (Raise e, w').
Proof. unfold bind. by intros ->. Qed.

Lemma list_copy_run r w :
  list_copy r w
  = (Ok (fresh (dom (heap w))),
     with_heap w (<[fresh (dom (heap w)) := default [] (heap w !! r)]> (heap w))).
Proof. done. Qed.

Lemma list_slice_run r lo hi w :
  list_slice r lo hi w
  = (Ok (fresh (dom (heap w))),
     with_heap w (<[fresh (dom (heap w)) := slice (default [] (heap w !! r)) lo hi]>
                    (heap w))).
Proof. done. Qed.

Lemma random_shuffle_run r w :
  random_shuffle r w
  = (Ok tt,
     MkWorld (fs w) (<[r := (shuffle (default [] (heap w !! r)) (rng w)).1]> (heap w))
       (shuffle (default [] (heap w !! r)) (rng w)).2 (events w)).
Proof. unfold random_shuffle. by destruct (shuffle _ _). Qed.

(** ** [_split_dataset] *)

Lemma fresh_loc_ne (h : gmap loc (list Path)) (r : loc) :
  is_Some (h !! r) → fresh (dom h) ≠ r.
Proof. intros Hr Heq. apply (is_fresh (dom h)). rewrite Heq. by apply elem_of_dom. Qed.

(** The run of [_split_dataset] once the ratio check has passed and the
    two counts were computed. *)
Lemma split_dataset_run (w : World) (files : loc) (tr vr te : float) (a b : Z) :
  (0.01 <? abs (tr + vr + te - 1.0))%float = false →
  let shuffled := (shuffle (default [] (heap w !! files)) (rng w)).1 in
  ratio_count (Z.of_nat (length shuffled)) tr = Ok a →
  ratio_count (Z.of_nat (length shuffled)) vr = Ok b →
  ∃ r1 r2 r3 w',
    _split_dataset files tr vr te w = (Ok (r1, r2, r3), w')
    ∧ heap w' !! r1 = Some (slice shuffled None (Some a))
    ∧ heap w' !! r2 = Some (slice shuffled (Some a) (Some (a + b)))
    ∧ heap w' !! r3 = Some (slice shuffled (Some (a + b)) None).
Proof.
  intros Hcheck shuffled Ha Hb.
  unfold _split_dataset. rewrite Hcheck.
  set (r0 := fresh (dom (heap w))).
  set (l0 := default [] (heap w !! files)) in *.
  rewrite (bind_ok _ _ _ _ _ (list_copy_run _ _)). fold r0 l0.
  rewrite (bind_ok _ _ _ _ _ (random_shuffle_run _ _)).
  cbn [heap rng fs events with_heap].
  rewrite lookup_insert_eq. cbn [default from_option Datatypes.id]. fold shuffled.
  rewrite insert_insert_eq.
  set (h0 := <[r0 := shuffled]> (heap w)).
  set (w0 := MkWorld _ h0 _ _).
  assert (h0 !! r0 = Some shuffled) as Hr0 by apply lookup_insert_eq.
  unfold load at 1. rewrite (bind_ok _ _ w0 shuffled w0).
  2:{ cbn. by rewrite Hr0. }
  unfold lift. rewrite (bind_ok _ _ w0 a w0) by by rewrite Ha.
  rewrite (bind_ok _ _ w0 b w0) by by rewrite Hb.
  rewrite (bind_ok _ _ _ _ _ (list_slice_run _ _ _ _)).
  cbn [heap rng fs events with_heap w0]. rewrite Hr0. cbn [default from_option Datatypes.id].
  set (r1 := fresh (dom h0)).
  set (h1 := <[r1 := _]> h0).
  assert (r1 ≠ r0) as H10 by (apply fresh_loc_ne; eauto).
  assert (h1 !! r0 = Some shuffled) as Hr0' by by (unfold h1; rewrite lookup_insert_ne).
  rewrite (bind_ok _ _ _ _ _ (list_slice_run _ _ _ _)).
  cbn [heap rng fs events with_heap]. rewrite Hr0'. cbn [default from_option Datatypes.id].
  set (r2 := fresh (dom h1)).
  set (h2 := <[r2 := _]> h1).
  assert (r2 ≠ r0) as H20 by (apply fresh_loc_ne; eauto).
  assert (r2 ≠ r1) as H21.
  { apply fresh_loc_ne. unfold h1. rewrite lookup_insert_eq. eauto. }
  assert (h2 !! r0 = Some shuffled) as Hr0'' by by (unfold h2; rewrite lookup_insert_ne).
  rewrite (bind_ok _ _ _ _ _ (list_slice_run _ _ _ _)).
  cbn [heap rng fs events with_heap]. rewrite Hr0''. cbn [default from_option Datatypes.id].
  set (r3 := fresh (dom h2)).
  assert (r3 ≠ r2) as H32.
  { apply fresh_loc_ne. unfold h2. rewrite lookup_insert_eq. eauto. }
  assert (r3 ≠ r1) as H31.
  { apply fresh_loc_ne. unfold h2, h1.
    rewrite lookup_insert_ne, lookup_insert_eq by done. eauto. }
  eexists r1, r2, r3, _. split; [reflexivity|]. cbn [heap with_heap].
  split_and!.
  - rewrite lookup_insert_ne by done. unfold h2.
    rewrite lookup_insert_ne by done. unfold h1. by rewrite lookup_insert_eq.
  - rewrite lookup_insert_ne by done. unfold h2. by rewrite lookup_insert_eq.
  - by rewrite lookup_insert_eq.
Qed.

(** Whatever [_split_dataset] does, a list that existed before the call
    holds what it held: the shuffle works on a copy and the slices are new
    lists. *)
Lemma split_dataset_frame (w : World) (files : loc) (tr vr te : float) (r : loc) :
  is_Some (heap w !! r) →
  heap (_split_dataset files tr vr te w).2 !! r = heap w !! r.
Proof.
  intros Hr. unfold _split_dataset.
  destruct (0.01 <? abs (tr + vr + te - 1.0))%float; [done|].
  set (r0 := fresh (dom (heap w))).
  set (l0 := default [] (heap w !! files)) in *.
  rewrite (bind_ok _ _ _ _ _ (list_copy_run _ _)). fold r0 l0.
  rewrite (bind_ok _ _ _ _ _ (random_shuffle_run _ _)).
  cbn [heap rng fs events with_heap].
  rewrite lookup_insert_eq. cbn [default from_option Datatypes.id].
  rewrite insert_insert_eq.
  set (shuffled := (shuffle l0 (rng w)).1).
  set (h0 := <[r0 := shuffled]> (heap w)).
  set (w0 := MkWorld _ h0 _ _).
  assert (r0 ≠ r) as Hr0 by by apply fresh_loc_ne.
  assert (h0 !! r = heap w !! r) as Hh0 by by (unfold h0; rewrite lookup_insert_ne).
  assert (h0 !! r0 = Some shuffled) as Hl0 by apply lookup_insert_eq.
  unfold load at 1. rewrite (bind_ok _ _ w0 shuffled w0).
  2:{ cbn. by rewrite Hl0. }
  unfold lift.
  destruct (ratio_count (Z.of_nat (length shuffled)) tr) as [a|e] eqn:Ha.
  2:{ by rewrite (bind_raise _ _ w0 e w0). }
  rewrite (bind_ok _ _ w0 a w0) by done.
  destruct (ratio_count (Z.of_nat (length shuffled)) vr) as [b|e] eqn:Hb.
  2:{ by rewrite (bind_raise _ _ w0 e w0). }
  rewrite (bind_ok _ _ w0 b w0) by done.
  rewrite !(bind_ok _ _ _ _ _ (list_slice_run _ _ _ _)).
  cbn [ret snd heap with_heap w0].
  rewrite !lookup_insert_ne; [done| | |].
  all: apply fresh_loc_ne; rewrite ?lookup_insert_ne; rewrite ?Hh0; try done.
  all: apply fresh_loc_ne; rewrite ?lookup_insert_ne; rewrite ?Hh0; try done.
  all: apply fresh_loc_ne; rewrite ?lookup_insert_ne; rewrite ?Hh0; try done.
Qed.

(** C1 (amended).  When the ratio check passes and the two counts
    [int(n * train_ratio)] and [int(n * val_ratio)] are computed and are
    not negative, [_split_dataset] returns three lists whose
    concatenation is a permutation of the input, so that their lengths
    sum to [n] and, for an input without repetition, they are pairwise
    disjoint; when moreover the two counts sum to at most [n], the lists
    have the sizes [train_count], [val_count] and the remainder. *)
Theorem split_dataset_partition (w : World) (files : loc) (l : list Path)
    (tr vr te : float) (a b : Z) :
  heap w !! files = Some l →
  (abs (tr + vr + te - 1.0) <=? 0.01)%float = true →
  ratio_count (Z.of_nat (length l)) tr = Ok a →
  ratio_count (Z.of_nat (length l)) vr = Ok b →
  0 ≤ a → 0 ≤ b →
  ∃ train val test,
    split_lists files tr vr te w = Ok (train, val, test)
    ∧ train ++ val ++ test ≡ₚ l
    ∧ (length train + length val + length test = length l)%nat
    ∧ (NoDup l →
       (∀ p, p ∈ train → p ∉ val) ∧ (∀ p, p ∈ train → p ∉ test)
       ∧ (∀ p, p ∈ val → p ∉ test))
    ∧ (a + b ≤ Z.of_nat (length l) →
       Z.of_nat (length train) = a ∧ Z.of_nat (length val) = b
       ∧ Z.of_nat (length test) = Z.of_nat (length l) - a - b).
Proof.
  intros Hl Htol Ha Hb Ha0 Hb0.
  apply leb_not_ltb in Htol.
  pose proof (split_dataset_run w files tr vr te a b Htol) as Hrun.
  cbn zeta in Hrun. rewrite Hl in Hrun. cbn [default from_option Datatypes.id] in Hrun.
  set (shuffled := (shuffle l (rng w)).1) in *.
  assert (length shuffled = length l) as Hlen by apply shuffle_length.
  rewrite Hlen in Hrun.
  destruct (Hrun Ha Hb) as (r1 & r2 & r3 & w' & Heq & H1 & H2 & H3).
  exists (slice shuffled None (Some a)), (slice shuffled (Some a) (Some (a + b))),
    (slice shuffled (Some (a + b)) None).
  split.
  { unfold split_lists. by rewrite Heq, H1, H2, H3. }
  pose proof (slices_app shuffled a b Ha0 Hb0) as Happ.
  assert (slice shuffled None (Some a) ++ slice shuffled (Some a) (Some (a + b))
            ++ slice shuffled (Some (a + b)) None ≡ₚ l) as Hperm.
  { rewrite Happ. apply shuffle_perm. }
  split_and!.
  - done.
  - apply Permutation_length in Hperm. rewrite !length_app in Hperm. lia.
  - intros Hnd. rewrite <- Hperm in Hnd.
    apply NoDup_app in Hnd as (_ & Htv & Hnd).
    apply NoDup_app in Hnd as (_ & Hvt & _).
    split_and!; [| |done].
    + intros p Hp Hv. apply (Htv p Hp). apply elem_of_app. by left.
    + intros p Hp Ht. apply (Htv p Hp). apply elem_of_app. by right.
  - intros Hab. rewrite <- Hlen in Hab |- *. by apply slices_length.
Qed.

Lemma split_dataset_partition_witness :
  ∃ train val test,
    split_lists 0%nat 0.7 0.2 0.1 (Sample.world_with (Sample.imgs 10))
      = Ok (train, val, test)
    ∧ train ++ val ++ test ≡ₚ Sample.imgs 10
    ∧ (length train + length val + length test = length (Sample.imgs 10))%nat
    ∧ (NoDup (Sample.imgs 10) →
       (∀ p, p ∈ train → p ∉ val) ∧ (∀ p, p ∈ train → p ∉ test)
       ∧ (∀ p, p ∈ val → p ∉ test))
    ∧ (7 + 2 ≤ Z.of_nat (length (Sample.imgs 10)) →
       Z.of_nat (length train) = 7 ∧ Z.of_nat (length val) = 2
       ∧ Z.of_nat (length test) = Z.of_nat (length (Sample.imgs 10)) - 7 - 2).
Proof.
  apply (split_dataset_partition (Sample.world_with (Sample.imgs 10)) 0%nat
           (Sample.imgs 10) 0.7 0.2 0.1 7 2);
    [reflexivity | reflexivity | reflexivity | reflexivity | lia | lia].
Defined.

(** C1 as stated fails twice.  A negative ratio inside a sum of 1.0 makes
    the slices overlap: four files come back as 3 + 0 + 3.  Ratios summing
    to just above one within the tolerance make the two counts exceed the
    input: of 128 files, [val] gets 64 and not [int(128 * 0.5078125) = 65]. *)
Lemma split_dataset_counterexample :
  ((abs (0.75 + -0.5 + 0.75 - 1.0) <=? 0.01)%float = true
   ∧ ∃ train val test,
       split_lists 0%nat 0.75 (-0.5) 0.75 (Sample.world_with (Sample.imgs 4))
         = Ok (train, val, test)
       ∧ (length train + length val + length test)%nat = 6%nat
       ∧ length (Sample.imgs 4) = 4%nat
       ∧ ∃ p, p ∈ train ∧ p ∈ test)
  ∧ ((abs (0.5 + 0.5078125 + 0 - 1.0) <=? 0.01)%float = true
     ∧ ratio_count 128 0.5078125 = Ok 65
     ∧ ∃ train val test,
         split_lists 0%nat 0.5 0.5078125 0 (Sample.world_with (Sample.imgs 128))
           = Ok (train, val, test)
         ∧ length val = 64%nat).
Proof.
  split.
  - split; [reflexivity|].
    eexists _, _, _. split; [vm_compute; reflexivity|].
    split_and!; [reflexivity..|].
    exists (Sample.img 2). split; vm_compute; set_solver.
  - split_and!; [reflexivity..|].
    eexists _, _, _. split; [vm_compute; reflexivity|]. reflexivity.
Qed.

(** C4.  A ratio triple that fails the tolerance check makes
    [_split_dataset] raise a [ValueError] carrying the sum, in the world
    it was called in: no list is copied or shuffled, no partition is
    made, no draw is consumed and the file system is as it was. *)
Theorem split_dataset_rejects (w : World) (files : loc) (tr vr te : float) :
  (0.01 <? abs (tr + vr + te - 1.0))%float = true →
  _split_dataset files tr vr te w
  = (Raise (ValueError (RatioSumNotOne (tr + vr + te)%float)), w).
Proof. intros Hbad. unfold _split_dataset. by rewrite Hbad. Qed.

Lemma split_dataset_rejects_witness :
  _split_dataset 0%nat 0.5 0.5 0.5 (Sample.world_with (Sample.imgs 3))
  = (Raise (ValueError (RatioSumNotOne (0.5 + 0.5 + 0.5)%float)),
     Sample.world_with (Sample.imgs 3)).
Proof.
  apply (split_dataset_rejects (Sample.world_with (Sample.imgs 3)) 0%nat 0.5 0.5 0.5).
  reflexivity.
Defined.

(** C10.  [_split_dataset] leaves the caller's list as it was: after the
    call, raised or returned, the list object passed in holds the same
    elements in the same order. *)
Theorem split_dataset_keeps_input (w : World) (files : loc) (l : list Path)
    (tr vr te : float) :
  heap w !! files = Some l →
  (abs (tr + vr + te - 1.0) <=? 0.01)%float = true →
  heap (_split_dataset files tr vr te w).2 !! files = Some l.
Proof.
  intros Hl _. rewrite split_dataset_frame; [done|]. rewrite Hl. eauto.
Qed.

Lemma split_dataset_keeps_input_witness :
  heap (_split_dataset 0%nat 0.7 0.2 0.1 (Sample.world_with (Sample.imgs 10))).2
    !! 0%nat = Some (Sample.imgs 10).
Proof.
  apply (split_dataset_keeps_input (Sample.world_with (Sample.imgs 10)) 0%nat
           (Sample.imgs 10) 0.7 0.2 0.1); reflexivity.
Defined.

(** ** [on_train_epoch_end] *)

Lemma progress_values_app (es es' : list event) :
  progress_values (es ++ es') = progress_values es ++ progress_values es'.
Proof. unfold progress_values. apply omap_app. Qed.

Lemma emit_run (e : event) (w : World) :
  emit e w = (Ok tt, MkWorld (fs w) (heap w) (rng w) (events w ++ [e])).
Proof. done. Qed.

(** What the progress branch of the callback does, for any trainer. *)
Lemma on_train_epoch_end_progress (t : Engine.trainer) (w : World) :
  on_train_epoch_end true false t w
  = match progress_percent (Engine.epoch t) (Engine.epochs t) with
    | Ok p => (Ok tt, MkWorld (fs w) (heap w) (rng w) (events w ++ [Progress p]))
    | Raise e => (Raise e, w)
    end.
Proof.
  unfold on_train_epoch_end, bind, lift, ret.
  by destruct (progress_percent _ _).
Qed.

Lemma progress_percent_of_three :
  progress_percent 0 3 = Ok 33 ∧ progress_percent 1 3 = Ok 66
  ∧ progress_percent 2 3 = Ok 100.
Proof. vm_compute. split_and!; reflexivity. Qed.

(** C2 (amended).  The value handed to [progress_callback] at the end of
    epoch [i] of [n] is [int((i + 1) / n * 100)] as binary64 arithmetic
    computes it, truncated toward zero; a run of three epochs hands out
    33, 66 and 100, in this order, each larger than the one before. *)
Theorem progress_three_epochs (w : World) (i n p : Z) :
  progress_percent i n = Ok p →
  (on_train_epoch_end true false (Engine.MkTrainer i n None) w).1 = Ok tt
  ∧ progress_values (events (on_train_epoch_end true false (Engine.MkTrainer i n None) w).2)
    = progress_values (events w) ++ [p]
  ∧ progress_values (events (run_epochs true false 3 None w).2)
    = progress_values (events w) ++ [33; 66; 100]
  ∧ 33 < 66 < 100.
Proof.
  intros Hp. rewrite on_train_epoch_end_progress. cbn [Engine.epoch Engine.epochs].
  rewrite Hp. cbn [fst snd events]. rewrite progress_values_app.
  split_and!; [done | done | | lia | lia].
  destruct progress_percent_of_three as (H0 & H1 & H2).
  unfold run_epochs. cbn [seq for_each].
  change (Z.of_nat 0) with 0. change (Z.of_nat 1) with 1.
  change (Z.of_nat 2) with 2. change (Z.of_nat 3) with 3.
  unfold bind.
  rewrite on_train_epoch_end_progress; cbn [Engine.epoch Engine.epochs].
  rewrite H0; cbv beta iota.
  rewrite on_train_epoch_end_progress; cbn [Engine.epoch Engine.epochs].
  rewrite H1; cbv beta iota.
  rewrite on_train_epoch_end_progress; cbn [Engine.epoch Engine.epochs].
  rewrite H2; cbv beta iota.
  cbn [ret snd events]. rewrite !progress_values_app.
  by rewrite <- !app_assoc.
Qed.

Lemma progress_three_epochs_witness :
  (on_train_epoch_end true false (Engine.MkTrainer 1 3 None) (Sample.world_with [])).1
    = Ok tt
  ∧ progress_values
      (events (on_train_epoch_end true false (Engine.MkTrainer 1 3 None)
                 (Sample.world_with [])).2)
    = progress_values (events (Sample.world_with [])) ++ [66]
  ∧ progress_values (events (run_epochs true false 3 None (Sample.world_with [])).2)
    = progress_values (events (Sample.world_with [])) ++ [33; 66; 100]
  ∧ 33 < 66 < 100.
Proof.
  apply (progress_three_epochs (Sample.world_with []) 1 3 66). reflexivity.
Defined.

(** C2 as stated fails: the second value of a three-epoch run is 66, the
    truncation of 66.66..., and not 67. *)
Lemma progress_three_epochs_counterexample :
  progress_values (events (run_epochs true false 3 None (Sample.world_with [])).2)
    = [33; 66; 100]
  ∧ progress_percent 1 3 = Ok 66
  ∧ progress_percent 1 3 ≠ Ok 67.
Proof. split_and!; [reflexivity | reflexivity | discriminate]. Qed.

(** ** [evaluate_model] *)


(** ** [prepare_yolo_dataset] *)

Lemma bind_ok_inv {A B} (c : M A) (k : A → M B) w b w2 :
  bind c k w = (Ok b, w2) → ∃ a w1, c w = (Ok a, w1) ∧ k a w1 = (Ok b, w2).
Proof.
  unfold bind. destruct (c w) as [[a|e] w1]; [eauto|discriminate].
Qed.

(** One [mkdir(parents=True, exist_ok=True)] that succeeds adds the
    directory and its ancestors and changes nothing else. *)
Lemma mkdir_step (p : Path) (w w1 : World) :
  with_fs (λ fs, mkdir_p fs p) w = (Ok tt, w1) →
  w1 = MkWorld (MkFs (cwd (fs w))
                  (list_to_set (ancestors (resolve (fs w) p)) ∪ dirs (fs w))
                  (files (fs w)))
         (heap w) (rng w) (events w).
Proof.
  unfold with_fs, mkdir_p.
  destruct (existsb _ _); [discriminate|]. by intros [= <-].
Qed.

Lemma ancestors_self (a : list string) : a ≠ [] → a ∈ ancestors a.
Proof.
  intros Ha. unfold ancestors. apply list_elem_of_fmap.
  exists (length a). split; [by rewrite firstn_all|].
  apply elem_of_seq. destruct a; [done|]. cbn. lia.
Qed.

Lemma resolve_child_ne (fs : FileSystem) (p : Path) (n : string) :
  resolve fs (child p n) ≠ [].
Proof.
  unfold resolve, child, joinpath. cbn.
  destruct (anchored p); intros H; apply (f_equal length) in H;
    rewrite ?length_app in H; cbn in H; lia.
Qed.

Lemma mkdir_step_frame (p : Path) (w w1 : World) :
  with_fs (λ fs, mkdir_p fs p) w = (Ok tt, w1) →
  same_but_dirs w w1 ∧ (∀ n q, p = child q n → resolve (fs w) p ∈ dirs (fs w1)).
Proof.
  intros ->%mkdir_step. unfold same_but_dirs. cbn. split_and!; try done.
  - set_solver.
  - intros n q ->. apply elem_of_union_l, elem_of_list_to_set, ancestors_self.
    apply resolve_child_ne.
Qed.

Lemma same_but_dirs_trans (w w1 w2 : World) :
  same_but_dirs w w1 → same_but_dirs w1 w2 → same_but_dirs w w2.
Proof. unfold same_but_dirs. intros (?&?&?&?&?&?) (?&?&?&?&?&?). split_and!; try congruence. set_solver. Qed.

Lemma resolve_same_cwd (fs1 fs2 : FileSystem) (p : Path) :
  cwd fs1 = cwd fs2 → resolve fs1 p = resolve fs2 p.
Proof. unfold resolve. by intros ->. Qed.

Lemma same_but_dirs_refl (w : World) : same_but_dirs w w.
Proof. unfold same_but_dirs. split_and!; done. Qed.

(** [_create_dataset_structure], when it returns, has created the six
    split directories and left the rest of the world alone. *)
Lemma create_split_dirs_run (dataset_path : Path) (splits : list string) (w w1 : World) :
  for_each splits (λ split,
      with_fs (λ fs, mkdir_p fs (child (child dataset_path "images") split)) ;;
      with_fs (λ fs, mkdir_p fs (child (child dataset_path "labels") split))) w
    = (Ok tt, w1) →
  same_but_dirs w w1
  ∧ ∀ split, split ∈ splits →
      resolve (fs w) (child (child dataset_path "images") split) ∈ dirs (fs w1)
      ∧ resolve (fs w) (child (child dataset_path "labels") split) ∈ dirs (fs w1).
Proof.
  revert w. induction splits as [|s splits IH]; intros w.
  { intros [= <-]. split; [apply same_but_dirs_refl|]. intros ? ?%elem_of_nil. done. }
  cbn [for_each]. intros H.
  apply bind_ok_inv in H as ([] & wb & Hbody & Hrest).
  apply bind_ok_inv in Hbody as ([] & wa & Hi & Hl).
  apply mkdir_step_frame in Hi as [Fa Hi], Hl as [Fb Hl].
  apply IH in Hrest as [Fr Hrest].
  pose proof (same_but_dirs_trans _ _ _ Fa Fb) as Fab.
  split; [by eapply same_but_dirs_trans|].
  assert (cwd (fs wa) = cwd (fs w)) as Ca by apply Fa.
  assert (cwd (fs wb) = cwd (fs w)) as Cb by apply Fab.
  intros split [->|Hin]%elem_of_cons.
  - split.
    + apply Fr, Fb. eapply Hi; reflexivity.
    + apply Fr. rewrite <- (resolve_same_cwd (fs wa)) by done. eapply Hl; reflexivity.
  - rewrite <- !(resolve_same_cwd (fs wb) (fs w)) by done. by apply Hrest.
Qed.

Lemma create_dataset_structure_run (dataset_path : Path) (w w1 : World) :
  _create_dataset_structure dataset_path w = (Ok tt, w1) →
  same_but_dirs w w1
  ∧ ∀ split, split ∈ split_names →
      resolve (fs w) (child (child dataset_path "images") split) ∈ dirs (fs w1)
      ∧ resolve (fs w) (child (child dataset_path "labels") split) ∈ dirs (fs w1).
Proof. apply create_split_dirs_run. Qed.

(** C3 (amended).  When no image file is discovered,
    [prepare_yolo_dataset] raises [ValueError] after
    [_create_dataset_structure] has made the [images/] and [labels/]
    directories of the three splits, and before anything else: no file
    is created, copied or written, no list is made and no callback runs. *)
Theorem prepare_rejects_empty_after_mkdir
    (registry_classes : option (list string))
    (yaml_dump : list string → list string → string)
    (json_dump : string → Path → list (string * SplitStats) → string)
    (now_isoformat : string)
    (self : DatasetPreparer) (config : TrainingConfig) (progress_callback : bool)
    (w : World) :
  let dataset_path := child (output_dir self) (dataset_name config) in
  let w1 := (_create_dataset_structure dataset_path w).2 in
  (_create_dataset_structure dataset_path w).1 = Ok tt →
  (_collect_files self (fs w1)).1 = [] →
  prepare_yolo_dataset registry_classes yaml_dump json_dump now_isoformat
      self config progress_callback w
    = (Raise (ValueError NoImagesFound), w1)
  ∧ files (fs w1) = files (fs w)
  ∧ heap w1 = heap w
  ∧ events w1 = events w
  ∧ ∀ split, split ∈ split_names →
      resolve (fs w) (child (child dataset_path "images") split) ∈ dirs (fs w1)
      ∧ resolve (fs w) (child (child dataset_path "labels") split) ∈ dirs (fs w1).
Proof.
  intros dataset_path w1 Hok Hnone.
  assert (_create_dataset_structure dataset_path w = (Ok tt, w1)) as Hmk.
  { subst w1. destruct (_create_dataset_structure dataset_path w). cbn in Hok. by subst. }
  destruct (create_dataset_structure_run _ _ _ Hmk) as [(_ & Hf & Hh & _ & He & _) Hdirs].
  split_and!; try done.
  unfold prepare_yolo_dataset. fold dataset_path.
  rewrite (bind_ok _ _ _ _ _ Hmk).
  unfold read_fs at 1. unfold bind at 1. by rewrite Hnone.
Qed.

Lemma prepare_rejects_empty_after_mkdir_witness :
  let w := Sample.world_with [] in
  let dataset_path := child (output_dir SamplePrep.preparer) (dataset_name default_config) in
  let w1 := (_create_dataset_structure dataset_path w).2 in
  SamplePrep.prepare w = (Raise (ValueError NoImagesFound), w1)
  ∧ files (fs w1) = files (fs w)
  ∧ heap w1 = heap w
  ∧ events w1 = events w
  ∧ ∀ split, split ∈ split_names →
      resolve (fs w) (child (child dataset_path "images") split) ∈ dirs (fs w1)
      ∧ resolve (fs w) (child (child dataset_path "labels") split) ∈ dirs (fs w1).
Proof.
  apply (prepare_rejects_empty_after_mkdir None SamplePrep.no_yaml SamplePrep.no_json ""
           SamplePrep.preparer default_config false (Sample.world_with []));
    vm_compute; reflexivity.
Defined.

(** C3 as stated fails: on a file system with no image (and no directory
    at all), the call raises, and the dataset directories exist
    afterwards. *)
Lemma prepare_empty_counterexample :
  (SamplePrep.prepare (Sample.world_with [])).1 = Raise (ValueError NoImagesFound)
  ∧ dirs (fs (Sample.world_with [])) = ∅
  ∧ is_dir (fs (SamplePrep.prepare (Sample.world_with [])).2)
      ["data"; "datasets"; "vehicle_dataset"; "images"; "train"]%string = true.
Proof. split_and!; vm_compute; reflexivity. Qed.

(** ** [_collect_files] and [_find_label_file] *)

Lemma find_label_file_none (image_file : Path) (label_files : list Path) :
  Forall (λ label_file, stem label_file ≠ stem image_file) label_files →
  _find_label_file image_file label_files = None.
Proof.
  induction 1 as [|l ls Hl _ IH]; [done|].
  cbn [_find_label_file]. by destruct (decide (stem l = stem image_file)).
Qed.

(** C6 (amended).  The image list that [_collect_files] returns holds
    each path at most once, where paths are compared as they are spelled;
    and an image whose stem is the stem of no collected label file gets
    [None] from [_find_label_file]. *)
Theorem collect_files_distinct_paths (self : DatasetPreparer) (fs : FileSystem)
    (image_file : Path) :
  Forall (λ label_file, stem label_file ≠ stem image_file) (_collect_files self fs).2 →
  NoDup (_collect_files self fs).1
  ∧ NoDup (_collect_files self fs).2
  ∧ _find_label_file image_file (_collect_files self fs).2 = None.
Proof.
  intros Hne. split_and!.
  - apply NoDup_elements.
  - apply NoDup_elements.
  - by apply find_label_file_none.
Qed.

Lemma collect_files_distinct_paths_witness :
  NoDup (_collect_files SampleTree.preparer SampleTree.tree).1
  ∧ NoDup (_collect_files SampleTree.preparer SampleTree.tree).2
  ∧ _find_label_file (rel ["images"; "b.jpg"]%string)
      (_collect_files SampleTree.preparer SampleTree.tree).2 = None.
Proof.
  apply (collect_files_distinct_paths SampleTree.preparer SampleTree.tree
           (rel ["images"; "b.jpg"]%string)).
  apply (bool_decide_unpack _). vm_compute. exact I.
Defined.

(** C6 as stated fails: with the source directory given by its absolute
    path, the images of [images/] are found once under that spelling and
    once under the relative one, so the same physical file is listed
    twice. *)
Lemma collect_files_counterexample :
  (_collect_files SampleTree.preparer SampleTree.tree).1
    = [MkPath true ["data"; "images"; "b.jpg"]%string;
       MkPath true ["data"; "images"; "a.jpg"]%string;
       rel ["images"; "b.jpg"]%string;
       rel ["images"; "a.jpg"]%string]
  ∧ resolve SampleTree.tree (MkPath true ["data"; "images"; "a.jpg"]%string)
    = resolve SampleTree.tree (rel ["images"; "a.jpg"]%string)
  ∧ ¬ NoDup (resolve SampleTree.tree <$> (_collect_files SampleTree.preparer SampleTree.tree).1).
Proof.
  split_and!; [vm_compute; reflexivity | vm_compute; reflexivity |].
  intros Hnd. apply (bool_decide_pack _) in Hnd. vm_compute in Hnd. exact Hnd.
Qed.

(** ** [_generate_dataset_statistics] *)

Lemma class_total_insert (c : gmap Z Z) (k n : Z) :
  c !! k = None → class_total (<[k := n]> c) = n + class_total c.
Proof.
  intros Hk. unfold class_total.
  apply (map_fold_insert_L (λ _ n acc, n + acc)); [|done].
  intros j1 j2 z1 z2 y _ _ _. clear. lia.
Qed.

(** Counting one more annotation of class [k] adds one to the sum. *)
Lemma class_total_bump (c : gmap Z Z) (k : Z) :
  class_total (<[k := default 0 (c !! k) + 1]> c) = class_total c + 1.
Proof.
  destruct (c !! k) as [n|] eqn:Hk; cbn [default from_option Datatypes.id].
  - rewrite <- (insert_delete_eq c k (n + 1)).
    rewrite <- (insert_delete_id c k n) at 2 by done.
    rewrite !class_total_insert by apply lookup_delete_eq. clear. lia.
  - rewrite class_total_insert by done. clear. lia.
Qed.

Lemma count_line_total (c c' : gmap Z Z) (line : list ascii) :
  count_line c line = Ok c' →
  class_total c' = class_total c + Z.of_nat (length (token_lines [line])).
Proof.
  unfold count_line, token_lines. rewrite filter_cons, filter_nil.
  destruct (Str.split (Str.strip line)) as [|first rest] eqn:Hs.
  - intros [= <-]. rewrite decide_False by (intros H; by apply H). cbn. lia.
  - rewrite decide_True by done.
    destruct (Str.int_of_str first) as [class_id|e]; [|discriminate].
    cbn. intros [= <-]. rewrite class_total_bump. lia.
Qed.

Lemma token_lines_cons (line : list ascii) (lines : list (list ascii)) :
  length (token_lines (line :: lines))
  = (length (token_lines [line]) + length (token_lines lines))%nat.
Proof.
  unfold token_lines. rewrite !filter_cons, filter_nil.
  destruct (decide _); cbn [length]; lia.
Qed.

(** The per-class counts grow by the number of lines that hold a token. *)
Lemma count_lines_total (lines : list (list ascii)) (c c' : gmap Z Z) :
  count_lines c lines = Ok c' →
  class_total c' = class_total c + Z.of_nat (length (token_lines lines)).
Proof.
  revert c. induction lines as [|line lines IH]; intros c.
  { intros [= <-]. cbn. lia. }
  cbn [count_lines].
  destruct (count_line c line) as [c1|e] eqn:Hline; [|discriminate].
  cbn [rbind]. intros Hrest.
  apply count_line_total in Hline. apply IH in Hrest.
  rewrite token_lines_cons. lia.
Qed.

(** What one label file adds: every line to [total_annotations], the
    lines with a token to the per-class counts. *)
Lemma count_label_text_totals (total total' : Z) (c c' : gmap Z Z) (content : string) :
  count_label_text (total, c) content = Ok (total', c') →
  total' = total + Z.of_nat (length (Str.readlines content))
  ∧ class_total c' = class_total c
                     + Z.of_nat (length (token_lines (Str.readlines content))).
Proof.
  unfold count_label_text. cbn [fst snd].
  destruct (count_lines c (Str.readlines content)) as [c1|e] eqn:Hc; [|discriminate].
  cbn [rbind]. intros [= <- <-]. split; [done|]. by apply count_lines_total.
Qed.

(** C7, at the failing input.  A label file with one annotation line and
    one empty line makes the [train] split report two annotations, while
    its per-class counts sum to one: the empty line is skipped by the
    per-class count and counted by [total_annotations]. *)
Theorem statistics_count_blank_lines :
  ∃ s, split_statistics SampleLabels.tree SampleLabels.dataset_path "train" = Ok s
       ∧ annotations s = 2
       ∧ class_distribution s = {[ 0 := 1 ]}
       ∧ class_total (class_distribution s) = 1
       ∧ Z.of_nat (length (token_lines (Str.readlines SampleLabels.label_text))) = 1.
Proof.
  eexists. split; [vm_compute; reflexivity|].
  split_and!; vm_compute; reflexivity.
Qed.

(** ** Binary64: the bits of a mantissa *)

Lemma digits2_pos_bounds (p : positive) :
  2 ^ (Z.pos (digits2_pos p) - 1) ≤ Z.pos p < 2 ^ Z.pos (digits2_pos p).
Proof.
  induction p as [p IH|p IH|]; cbn [digits2_pos].
  - rewrite Pos2Z.inj_succ, Z.pow_succ_r by lia.
    replace (Z.succ (Z.pos (digits2_pos p)) - 1) with (Z.succ (Z.pos (digits2_pos p) - 1)) by lia.
    rewrite Z.pow_succ_r by lia. lia.
  - rewrite Pos2Z.inj_succ, Z.pow_succ_r by lia.
    replace (Z.succ (Z.pos (digits2_pos p)) - 1) with (Z.succ (Z.pos (digits2_pos p) - 1)) by lia.
    rewrite Z.pow_succ_r by lia. lia.
  - cbn. lia.
Qed.

Lemma digits2_pos_unique (p : positive) (d : Z) :
  2 ^ (d - 1) ≤ Z.pos p < 2 ^ d → Z.pos (digits2_pos p) = d.
Proof.
  intros [Hlo Hhi]. pose proof (digits2_pos_bounds p) as [Hlo' Hhi'].
  destruct (Z.lt_trichotomy (Z.pos (digits2_pos p)) d) as [Hlt|[Heq|Hgt]]; [|done|].
  - assert (2 ^ Z.pos (digits2_pos p) ≤ 2 ^ (d - 1)) by (apply Z.pow_le_mono_r; lia). lia.
  - assert (0 ≤ d).
    { destruct (Z.le_gt_cases 0 d); [done|]. rewrite Z.pow_neg_r in Hhi by done. lia. }
    assert (2 ^ d ≤ 2 ^ (Z.pos (digits2_pos p) - 1)) by (apply Z.pow_le_mono_r; lia). lia.
Qed.

Lemma iter_xO_value (p k : positive) : Z.pos (Pos.iter xO p k) = Z.pos p * 2 ^ Z.pos k.
Proof.
  induction k as [|k IH] using Pos.peano_ind.
  - cbn. lia.
  - rewrite Pos.iter_succ, Pos2Z.inj_succ, Z.pow_succ_r by lia.
    rewrite Pos2Z.inj_xO, IH. lia.
Qed.

(** A mantissa of 53 bits at an exponent in range is the canonical one. *)
Lemma canonical_53 (m : positive) (e : Z) :
  2 ^ 52 ≤ Z.pos m < 2 ^ 53 → -1074 ≤ e →
  canonical_mantissa prec emax m e = true.
Proof.
  intros Hm He. unfold canonical_mantissa, fexp, SpecFloat.emin, prec, emax.
  rewrite (digits2_pos_unique m 53) by done.
  apply Z.eqb_eq. lia.
Qed.

Lemma valid_53 (s : bool) (m : positive) (e : Z) :
  2 ^ 52 ≤ Z.pos m < 2 ^ 53 → -1074 ≤ e ≤ 971 →
  valid_binary (S754_finite s m e) = true.
Proof.
  intros Hm He. unfold valid_binary, SpecFloat.bounded.
  rewrite canonical_53 by (done || lia). apply Z.leb_le. unfold emax, prec. lia.
Qed.

Lemma binary_round_aux_exact (s : bool) (m : positive) (e : Z) :
  canonical_mantissa prec emax m e = true → e ≤ 971 →
  binary_round_aux prec emax s (Z.pos m) e loc_Exact = S754_finite s m e.
Proof.
  intros Hc He. unfold canonical_mantissa in Hc. apply Z.eqb_eq in Hc.
  unfold binary_round_aux, shr_fexp. cbn [Zdigits2].
  rewrite Hc, Z.sub_diag. cbn [shr shr_record_of_loc loc_of_shr_record shr_m
    round_nearest_even Zdigits2].
  rewrite Hc, Z.sub_diag. cbn [shr shr_record_of_loc shr_m].
  unfold emax, prec. destruct (Z.leb_spec e (1024 - 53)); [done|lia].
Qed.

(** [float(z)] for a positive int below [2^53]: exact, with a mantissa of
    53 bits. *)
Lemma float_of_Z_pos (z : Z) :
  0 < z < 2 ^ 53 →
  ∃ m e, Prim2SF (float_of_Z z) = S754_finite false m e
         ∧ 2 ^ 52 ≤ Z.pos m < 2 ^ 53 ∧ -52 ≤ e ≤ 0
         ∧ Z.pos m = z * 2 ^ (- e).
Proof.
  intros [Hz0 Hz]. destruct z as [|p|p]; [lia| |lia].
  unfold float_of_Z. cbn [binary_normalize]. unfold binary_round.
  pose proof (digits2_pos_bounds p) as [Hlo Hhi].
  set (d := Z.pos (digits2_pos p)) in *.
  assert (1 ≤ d ≤ 53) as Hd.
  { split; [unfold d; lia|].
    destruct (Z.le_gt_cases d 53); [done|].
    assert (2 ^ 53 ≤ 2 ^ (d - 1)) by (apply Z.pow_le_mono_r; lia). lia. }
  assert (fexp prec emax (d + 0) = d - 53) as Hfexp.
  { unfold fexp, SpecFloat.emin, prec, emax. lia. }
  rewrite Hfexp. unfold shl_align.
  destruct (d - 53 - 0) as [|k|k] eqn:Hk; [|lia|].
  - (* d = 53 *)
    assert (d = 53) as Hd53 by lia. rewrite Hd53 in *.
    assert (canonical_mantissa prec emax p 0 = true) as Hc by (apply canonical_53; lia).
    rewrite binary_round_aux_exact by (done || lia).
    rewrite Prim2SF_SF2Prim by (apply valid_53; lia).
    exists p, 0. split_and!; try done; try lia.
  - assert (Z.pos k = 53 - d) as Hkd by lia.
    assert (Z.pos (Pos.iter xO p k) = Z.pos p * 2 ^ (53 - d)) as Hval
      by (rewrite iter_xO_value; by rewrite Hkd).
    assert (2 ^ 52 ≤ Z.pos (Pos.iter xO p k) < 2 ^ 53) as Hm.
    { rewrite Hval.
      assert (0 < 2 ^ (53 - d)) as Hpos by (apply Z.pow_pos_nonneg; lia).
      assert (2 ^ 52 = 2 ^ (d - 1) * 2 ^ (53 - d)) as ->
        by (rewrite <- Z.pow_add_r by lia; f_equal; lia).
      assert (2 ^ 53 = 2 ^ d * 2 ^ (53 - d)) as ->
        by (rewrite <- Z.pow_add_r by lia; f_equal; lia).
      split; [by apply Z.mul_le_mono_nonneg_r; [lia|]
             |by apply Z.mul_lt_mono_pos_r]. }
    assert (canonical_mantissa prec emax (Pos.iter xO p k) (d - 53) = true) as Hc
      by (apply canonical_53; [done|lia]).
    rewrite binary_round_aux_exact by (done || lia).
    rewrite Prim2SF_SF2Prim by (apply valid_53; [done|lia]).
    exists (Pos.iter xO p k), (d - 53). split_and!; try done; try lia.
    rewrite Hval. f_equal. f_equal. lia.
Qed.

(** ** Binary64: rounding a quotient *)

Lemma round_nearest_even_cases (m : Z) (l : location) :
  round_nearest_even m l = m ∨ round_nearest_even m l = m + 1.
Proof. destruct l as [|[]]; cbn; try destruct (Z.even m); auto. Qed.

Lemma loc_of_shr_record_of_loc (m : Z) (l : location) :
  loc_of_shr_record (shr_record_of_loc m l) = l.
Proof. by destruct l as [|[]]. Qed.

Lemma shr_m_of_loc (m : Z) (l : location) : shr_m (shr_record_of_loc m l) = m.
Proof. by destruct l as [|[]]. Qed.

Lemma shr_1_m (p : positive) (l : location) :
  shr_m (shr_1 (shr_record_of_loc (Z.pos p) l)) = Z.pos p / 2.
Proof.
  destruct l as [|[]]; destruct p as [p|p|]; cbn [shr_record_of_loc shr_1 shr_m];
    first [ rewrite Pos2Z.inj_xI; apply (Z.div_unique _ 2 _ 1); lia
          | rewrite Pos2Z.inj_xO; apply (Z.div_unique _ 2 _ 0); lia
          | reflexivity ].
Qed.

Lemma fexp_normal (e : Z) : -1021 ≤ e → fexp prec emax e = e - 53.
Proof. unfold fexp, SpecFloat.emin, prec, emax. lia. Qed.

(** The last step of [binary_round_aux]: a mantissa that the rounding
    left at [2^53] is renormalised, any smaller one is kept. *)
Lemma shr_fexp_after_round (p : positive) (e : Z) :
  2 ^ 52 ≤ Z.pos p ≤ 2 ^ 53 → -1074 ≤ e →
  ∃ m k, shr_fexp prec emax (Z.pos p) e loc_Exact
           = (Build_shr_record (Z.pos m) false false, e + k)
         ∧ 2 ^ 52 ≤ Z.pos m < 2 ^ 53 ∧ 0 ≤ k ≤ 1 ∧ Z.pos m * 2 ^ k = Z.pos p.
Proof.
  intros [Hlo Hhi] He. unfold shr_fexp. cbn [Zdigits2 shr_record_of_loc].
  destruct (Z.eq_dec (Z.pos p) (2 ^ 53)) as [Heq|Hne].
  - rewrite (digits2_pos_unique p 54) by lia.
    rewrite fexp_normal by lia.
    replace (54 + e - 53 - e) with 1 by lia.
    injection Heq as ->. cbn [shr iter_pos shr_1 orb].
    eexists _, 1. split; [reflexivity|]. cbn. lia.
  - rewrite (digits2_pos_unique p 53) by lia.
    rewrite fexp_normal by lia.
    replace (53 + e - 53 - e) with 0 by lia. cbn [shr].
    exists p, 0. split; [by rewrite Z.add_0_r|]. lia.
Qed.

(** [binary_round_aux] on a quotient of 53 or 54 bits. *)
Lemma binary_round_aux_quotient (s : bool) (q e : Z) (l : location) :
  2 ^ 52 ≤ q < 2 ^ 54 → -1074 ≤ e ≤ 900 →
  ∃ m k, binary_round_aux prec emax s q e l = S754_finite s m (e + k)
         ∧ 2 ^ 52 ≤ Z.pos m < 2 ^ 53 ∧ 0 ≤ k ≤ 2
         ∧ q - 2 ^ k + 1 ≤ Z.pos m * 2 ^ k ≤ q + 2 ^ k.
Proof.
  intros [Hlo Hhi] He. destruct q as [|p|p]; [lia| |lia].
  unfold binary_round_aux.
  destruct (Z.lt_ge_cases (Z.pos p) (2 ^ 53)) as [H53|H54].
  - (* 53 bits: no shift before the rounding *)
    unfold shr_fexp at 1. cbn [Zdigits2].
    rewrite (digits2_pos_unique p 53) by lia.
    rewrite fexp_normal by lia.
    replace (53 + e - 53 - e) with 0 by lia. cbn [shr].
    rewrite loc_of_shr_record_of_loc, shr_m_of_loc.
    destruct (round_nearest_even_cases (Z.pos p) l) as [-> | ->].
    + destruct (shr_fexp_after_round p e) as (m & k & -> & Hm & Hk & Hv); [lia..|].
      cbn [shr_m]. unfold emax, prec.
      destruct (Z.leb_spec (e + k) (1024 - 53)); [|lia].
      exists m, k. split_and!; try done; try lia.
      all: destruct (Z.eq_dec k 0) as [->|]; [|replace k with 1 in * by lia]; lia.
    + replace (Z.pos p + 1) with (Z.pos (p + 1)) by lia.
      destruct (shr_fexp_after_round (p + 1) e) as (m & k & -> & Hm & Hk & Hv); [lia..|].
      cbn [shr_m]. unfold emax, prec.
      destruct (Z.leb_spec (e + k) (1024 - 53)); [|lia].
      exists m, k. split_and!; try done; try lia.
      all: destruct (Z.eq_dec k 0) as [->|]; [|replace k with 1 in * by lia]; lia.
  - (* 54 bits: one shift before the rounding *)
    unfold shr_fexp at 1. cbn [Zdigits2].
    rewrite (digits2_pos_unique p 54) by lia.
    rewrite fexp_normal by lia.
    replace (54 + e - 53 - e) with 1 by lia. cbn [shr iter_pos].
    rewrite shr_1_m.
    assert (2 ^ 52 ≤ Z.pos p / 2 < 2 ^ 53) as Hhalf.
    { split; [apply Z.div_le_lower_bound; lia | apply Z.div_lt_upper_bound; lia]. }
    pose proof (Z.div_mod (Z.pos p) 2 ltac:(lia)) as Hdm.
    pose proof (Z.mod_pos_bound (Z.pos p) 2 ltac:(lia)) as Hmod.
    destruct (Z.pos p / 2) as [|h|h] eqn:Hh; [lia| |lia].
    match goal with
    | |- context [round_nearest_even ?a ?b] =>
        destruct (round_nearest_even_cases a b) as [-> | ->]
    end.
    + destruct (shr_fexp_after_round h (e + 1)) as (m & k & -> & Hm & Hk & Hv); [lia..|].
      cbn [shr_m]. unfold emax, prec.
      destruct (Z.leb_spec (e + 1 + k) (1024 - 53)); [|lia].
      exists m, (1 + k). rewrite Z.add_assoc. split_and!; try done; try lia.
      all: destruct (Z.eq_dec k 0) as [->|]; [|replace k with 1 in * by lia];
        cbn in *; lia.
    + replace (Z.pos h + 1) with (Z.pos (h + 1)) by lia.
      destruct (shr_fexp_after_round (h + 1) (e + 1)) as (m & k & -> & Hm & Hk & Hv); [lia..|].
      cbn [shr_m]. unfold emax, prec.
      destruct (Z.leb_spec (e + 1 + k) (1024 - 53)); [|lia].
      exists m, (1 + k). rewrite Z.add_assoc. split_and!; try done; try lia.
      all: destruct (Z.eq_dec k 0) as [->|]; [|replace k with 1 in * by lia];
        cbn in *; lia.
Qed.

(** The quotient of two positive numbers with mantissas of 53 bits: the
    result has a mantissa [m] of 53 bits at the exponent [ex - ey - 53 + k],
    and [m * 2^k] is within [2^k] of the exact quotient of the mantissas
    scaled by [2^53]. *)
Lemma SFdiv_normal (mx my : positive) (ex ey : Z) :
  2 ^ 52 ≤ Z.pos mx < 2 ^ 53 → 2 ^ 52 ≤ Z.pos my < 2 ^ 53 →
  -400 ≤ ex ≤ 400 → -400 ≤ ey ≤ 400 →
  ∃ m k, SFdiv prec emax (S754_finite false mx ex) (S754_finite false my ey)
           = S754_finite false m (ex - ey - 53 + k)
         ∧ 2 ^ 52 ≤ Z.pos m < 2 ^ 53 ∧ 0 ≤ k ≤ 2
         ∧ Z.pos mx * 2 ^ 53 - 2 ^ k * Z.pos my < Z.pos m * 2 ^ k * Z.pos my
         ∧ Z.pos m * 2 ^ k * Z.pos my ≤ Z.pos mx * 2 ^ 53 + 2 ^ k * Z.pos my.
Proof.
  intros Hmx Hmy Hex Hey. unfold SFdiv, SFdiv_core_binary. cbn [xorb Zdigits2].
  rewrite (digits2_pos_unique mx 53), (digits2_pos_unique my 53) by lia.
  rewrite fexp_normal by lia.
  replace (Z.min (53 + ex - (53 + ey) - 53) (ex - ey)) with (ex - ey - 53) by lia.
  replace (ex - ey - (ex - ey - 53)) with 53 by lia.
  rewrite Z.shiftl_mul_pow2 by lia.
  pose proof (Z_div_mod (Z.pos mx * 2 ^ 53) (Z.pos my) ltac:(lia)) as Hdiv.
  destruct (Z.div_eucl (Z.pos mx * 2 ^ 53) (Z.pos my)) as [q r].
  destruct Hdiv as [Hqr Hr].
  assert (2 ^ 52 ≤ q < 2 ^ 54) as Hq.
  { split.
    - assert (2 ^ 52 * Z.pos my < (q + 1) * Z.pos my) as H; [|nia].
      assert (2 ^ 52 * Z.pos my ≤ Z.pos mx * Z.pos my) by nia.
      assert (Z.pos mx * Z.pos my < Z.pos mx * 2 ^ 53) by nia. lia.
    - assert (q * Z.pos my < 2 ^ 54 * Z.pos my) as H; [|nia].
      assert (Z.pos mx * 2 ^ 53 < 2 ^ 53 * 2 ^ 53) by nia.
      assert (2 ^ 53 * 2 ^ 53 ≤ 2 ^ 54 * Z.pos my) by nia. lia. }
  destruct (binary_round_aux_quotient false q (ex - ey - 53)
              (new_location (Z.pos my) r)) as (m & k & -> & Hm & Hk & Hlo & Hhi);
    [done | lia |].
  exists m, k. split_and!; try done; try lia.
  - assert ((q - 2 ^ k + 1) * Z.pos my ≤ Z.pos m * 2 ^ k * Z.pos my)
      by (apply Z.mul_le_mono_nonneg_r; lia). lia.
  - assert (Z.pos m * 2 ^ k * Z.pos my ≤ (q + 2 ^ k) * Z.pos my)
      by (apply Z.mul_le_mono_nonneg_r; lia). lia.
Qed.

(** ** [export_annotations] *)

Lemma Prim2SF_zero : Prim2SF PrimFloat.zero = S754_zero false.
Proof. reflexivity. Qed.

Lemma Prim2SF_infinity : Prim2SF PrimFloat.infinity = S754_infinity false.
Proof. reflexivity. Qed.

(** A float with a finite nonzero value is neither zero nor infinite. *)
Lemma finite_not_zero (f : float) (s : bool) (m : positive) (e : Z) :
  Prim2SF f = S754_finite s m e → is_zero f = false ∧ is_infinity f = false.
Proof.
  intros Hf. unfold is_zero, is_infinity.
  rewrite !FloatAxioms.eqb_spec, abs_spec, Hf, Prim2SF_zero, Prim2SF_infinity.
  by destruct s.
Qed.

Lemma float_of_int_pos (z : Z) :
  0 < z < 2 ^ 53 →
  float_of_int z = Ok (float_of_Z z) ∧ is_zero (float_of_Z z) = false.
Proof.
  intros Hz. destruct (float_of_Z_pos z Hz) as (m & e & Hf & _).
  destruct (finite_not_zero _ _ _ _ Hf) as [Hzero Hinf].
  unfold float_of_int. by rewrite Hinf.
Qed.

Lemma float_div_int_zero (f : float) : float_div_int f 0 = Raise ZeroDivisionError.
Proof. reflexivity. Qed.

Lemma int_truediv_two (a : Z) : int_truediv a 2 = Ok (float_of_Z a / float_of_Z 2)%float.
Proof. reflexivity. Qed.

(** With a zero width, or a zero height next to a positive width, the
    coordinates of any rectangle raise [ZeroDivisionError]. *)
Lemma yolo_coordinates_zero_size (img_w img_h : Z) (r : Exporter.QRect) :
  img_w = 0 ∨ (img_h = 0 ∧ 0 < img_w < 2 ^ 53) →
  Exporter.yolo_coordinates img_w img_h r = Raise ZeroDivisionError.
Proof.
  unfold Exporter.yolo_coordinates. rewrite !int_truediv_two. cbn [rbind].
  intros [-> | [-> Hw]].
  - by rewrite float_div_int_zero.
  - destruct (float_of_int_pos img_w Hw) as [Hconv Hnz].
    unfold float_div_int at 1. rewrite Hconv. cbn [rbind].
    unfold float_truediv at 1. rewrite Hnz. cbn [rbind].
    by rewrite float_div_int_zero.
Qed.

Lemma read_after_write (fs fs' : FileSystem) (p : Path) (content : string) :
  write_text fs p content = Ok fs' → read_text fs' p = Ok content.
Proof.
  unfold write_text, read_text.
  destruct (is_dir fs (resolve fs p)); [discriminate|].
  destruct (is_dir fs (removelast (resolve fs p))); [|discriminate].
  intros [= <-]. unfold resolve. cbn [files cwd]. by rewrite lookup_insert_eq.
Qed.

(** X1.  For a non-empty annotation list and an image whose width is
    zero, or whose height is zero next to a positive width,
    [export_annotations] raises [ZeroDivisionError] at the first
    annotation, once the output directory is made and the label file
    opened: that file is left empty, so no [inf] or [nan] is written. *)
Theorem export_zero_size_raises (w : World) (img_w img_h : Z) (image_path : Path)
    (annotations : list Exporter.annotation) (output_dir : Path)
    (fs1 fs2 : FileSystem) :
  annotations ≠ [] →
  img_w = 0 ∨ (img_h = 0 ∧ 0 < img_w < 2 ^ 53) →
  mkdir_p (fs w) output_dir = Ok fs1 →
  write_text fs1
    (child output_dir (splitext_root (name image_path) ++ ".txt")%string) "" = Ok fs2 →
  Exporter.export_annotations img_w img_h image_path annotations output_dir w
    = (Raise ZeroDivisionError, MkWorld fs2 (heap w) (rng w) (events w))
  ∧ read_text fs2
      (child output_dir (splitext_root (name image_path) ++ ".txt")%string) = Ok ""%string.
Proof.
  intros Hne Hsize Hmk Hopen. split; [|by eapply read_after_write].
  unfold Exporter.export_annotations.
  destruct annotations as [|a rest]; [done|].
  rewrite (bind_ok _ _ w tt (MkWorld fs1 (heap w) (rng w) (events w)))
    by (unfold with_fs; by rewrite Hmk).
  rewrite (bind_ok _ _ _ tt (MkWorld fs2 (heap w) (rng w) (events w)))
    by (unfold with_fs; cbn [fs]; by rewrite Hopen).
  cbn [for_each]. unfold bind, lift.
  by rewrite (yolo_coordinates_zero_size _ _ _ Hsize).
Qed.

Lemma export_zero_size_raises_witness :
  SampleExport.export 0 0
    = (Raise ZeroDivisionError,
       MkWorld (MkFs ["home"%string]
                  (list_to_set (ancestors ["home"; "labels"]%string) ∪ ∅)
                  (<[ ["home"; "labels"; "a.txt"]%string := ""%string ]> ∅))
         ∅ (rng SampleExport.world) [])
  ∧ read_text (MkFs ["home"%string]
                 (list_to_set (ancestors ["home"; "labels"]%string) ∪ ∅)
                 (<[ ["home"; "labels"; "a.txt"]%string := ""%string ]> ∅))
      (child SampleExport.output_dir
         (splitext_root (name SampleExport.image_path) ++ ".txt")%string) = Ok ""%string.
Proof.
  apply (export_zero_size_raises SampleExport.world 0 0 SampleExport.image_path
           SampleExport.annotations SampleExport.output_dir
           (MkFs ["home"%string] (list_to_set (ancestors ["home"; "labels"]%string) ∪ ∅) ∅)).
  - discriminate.
  - left. reflexivity.
  - reflexivity.
  - reflexivity.
Defined.

(** With a negative width nothing is raised: the label file receives
    negative coordinates. *)
Lemma export_negative_width_example :
  (SampleExport.export (-640) 480).1 = Ok (rel ["labels"; "a.txt"]%string)
  ∧ Str.readlines
      (default ""%string
         (files (fs (SampleExport.export (-640) 480).2)
            !! ["home"; "labels"; "a.txt"]%string))
    = Str.chars <$> [ String.append "2 -0.0390625000 0.0833333333 -0.0468750000 0.0833333333"
                        (String Str.LF "");
                      String.append "0 -0.0039062500 0.0072916667 -0.0078125000 0.0145833333"
                        (String Str.LF "") ].
Proof. split; vm_compute; reflexivity. Qed.

(** ** More of [DatasetPreparer] *)

(** X2.  A label that [_find_label_file] returns is the first one of the
    list with the stem of the image: it is in the list, has that stem,
    and no label before it has. *)
Theorem find_label_file_first_match (image_file label_file : Path)
    (label_files : list Path) :
  _find_label_file image_file label_files = Some label_file →
  stem label_file = stem image_file
  ∧ ∃ before after,
      label_files = before ++ label_file :: after
      ∧ Forall (λ l, stem l ≠ stem image_file) before.
Proof.
  induction label_files as [|l ls IH]; [done|].
  cbn [_find_label_file].
  destruct (decide (stem l = stem image_file)) as [Heq|Hne].
  - intros [= <-]. split; [done|]. by exists [], ls.
  - intros (Hs & before & after & -> & Hb)%IH. split; [done|].
    exists (l :: before), after. split; [done|]. by constructor.
Qed.

Lemma find_label_file_first_match_witness :
  stem (MkPath true ["data"; "images"; "a.txt"]%string)
    = stem (rel ["images"; "a.jpg"]%string)
  ∧ ∃ before after,
      (_collect_files SampleTree.preparer SampleTree.tree).2
        = before ++ MkPath true ["data"; "images"; "a.txt"]%string :: after
      ∧ Forall (λ l, stem l ≠ stem (rel ["images"; "a.jpg"]%string)) before.
Proof.
  apply (find_label_file_first_match (rel ["images"; "a.jpg"]%string)).
  vm_compute. reflexivity.
Defined.

Lemma existsb_ext_in {A} (f g : A → bool) (l : list A) :
  (∀ a, f a = g a) → existsb f l = existsb g l.
Proof. intros H. induction l as [|a l IH]; cbn; by rewrite ?H, ?IH. Qed.

(** A [mkdir(parents=True, exist_ok=True)] that succeeded once does
    nothing in any later world that kept the directories. *)
Lemma mkdir_step_again (p : Path) (w wa w2 : World) :
  with_fs (λ fs, mkdir_p fs p) w = (Ok tt, wa) →
  same_but_dirs w wa → same_but_dirs wa w2 →
  with_fs (λ fs, mkdir_p fs p) w2 = (Ok tt, w2).
Proof.
  intros Hstep _ (Hc2 & Hf2 & _ & _ & _ & Hd2).
  pose proof (mkdir_step _ _ _ Hstep) as ->. cbn in Hc2, Hf2, Hd2.
  unfold with_fs, mkdir_p in *.
  assert (resolve (fs w2) p = resolve (fs w) p) as Hres.
  { unfold resolve. by rewrite Hc2. }
  assert (∀ a, is_file (fs w2) a = is_file (fs w) a) as Hfile.
  { intros a. unfold is_file. by rewrite Hf2. }
  rewrite Hres.
  destruct (existsb (is_file (fs w)) (ancestors (resolve (fs w) p))) eqn:Hex;
    [discriminate|].
  rewrite (existsb_ext_in _ _ _ Hfile), Hex.
  destruct w2 as [[c d f] h g ev]. cbn in *.
  assert (list_to_set (ancestors (resolve (fs w) p)) ∪ d = d) as ->; [|done].
  apply leibniz_equiv. set_solver.
Qed.

Lemma create_split_dirs_again (dataset_path : Path) (splits : list string)
    (w w1 w2 : World) :
  for_each splits (λ split,
      with_fs (λ fs, mkdir_p fs (child (child dataset_path "images") split)) ;;
      with_fs (λ fs, mkdir_p fs (child (child dataset_path "labels") split))) w
    = (Ok tt, w1) →
  same_but_dirs w1 w2 →
  for_each splits (λ split,
      with_fs (λ fs, mkdir_p fs (child (child dataset_path "images") split)) ;;
      with_fs (λ fs, mkdir_p fs (child (child dataset_path "labels") split))) w2
    = (Ok tt, w2).
Proof.
  revert w. induction splits as [|s splits IH]; intros w; [done|].
  cbn [for_each]. intros H H12.
  apply bind_ok_inv in H as ([] & wb & Hbody & Hrest).
  apply bind_ok_inv in Hbody as ([] & wa & Hi & Hl).
  pose proof (proj1 (mkdir_step_frame _ _ _ Hi)) as Fa.
  pose proof (proj1 (mkdir_step_frame _ _ _ Hl)) as Fb.
  pose proof (proj1 (create_split_dirs_run _ _ _ _ Hrest)) as Fr.
  assert (same_but_dirs wa w2) as Fa2.
  { eapply same_but_dirs_trans; [exact Fb|]. by eapply same_but_dirs_trans. }
  assert (same_but_dirs wb w2) as Fb2 by by eapply same_but_dirs_trans.
  rewrite (bind_ok _ _ w2 tt w2).
  - by eapply IH.
  - rewrite (bind_ok _ _ w2 tt w2) by by eapply mkdir_step_again.
    by eapply mkdir_step_again.
Qed.

Lemma run_ok_pair {A} (c : M A) (w : World) (a : A) :
  (c w).1 = Ok a → c w = (Ok a, (c w).2).
Proof. destruct (c w) as [r w1]. cbn. by intros ->. Qed.

(** X3.  [_create_dataset_structure] is idempotent: once it has returned,
    calling it again in the world it left returns and changes nothing. *)
Theorem create_dataset_structure_idempotent (dataset_path : Path) (w : World) :
  (_create_dataset_structure dataset_path w).1 = Ok tt →
  _create_dataset_structure dataset_path (_create_dataset_structure dataset_path w).2
  = (Ok tt, (_create_dataset_structure dataset_path w).2).
Proof.
  intros H%run_ok_pair. eapply create_split_dirs_again; [exact H|].
  apply same_but_dirs_refl.
Qed.

Lemma create_dataset_structure_idempotent_witness :
  _create_dataset_structure (rel ["datasets"; "vehicle_dataset"]%string)
    (_create_dataset_structure (rel ["datasets"; "vehicle_dataset"]%string)
       (Sample.world_with [])).2
  = (Ok tt,
     (_create_dataset_structure (rel ["datasets"; "vehicle_dataset"]%string)
        (Sample.world_with [])).2).
Proof.
  apply (create_dataset_structure_idempotent
           (rel ["datasets"; "vehicle_dataset"]%string) (Sample.world_with [])).
  vm_compute. reflexivity.
Defined.

Lemma ancestors_prefix (a b : list string) : a ≠ [] → a ∈ ancestors (a ++ b).
Proof.
  intros Ha. unfold ancestors. apply list_elem_of_fmap.
  exists (length a). split; [by rewrite take_app_length|].
  apply elem_of_seq. rewrite length_app. destruct a; [done|]. cbn. lia.
Qed.

Lemma existsb_elem {A} (f : A → bool) (l : list A) (a : A) :
  a ∈ l → f a = true → existsb f l = true.
Proof.
  intros Hin Hf. apply existsb_exists. exists a. split; [|done].
  by apply list_elem_of_In.
Qed.



(** What [glob] gives are children of the directory searched, named by
    entries that end with the suffix. *)
Lemma elem_of_glob_suffix (fs : FileSystem) (p q : Path) (suffix : string) :
  q ∈ glob_suffix fs p suffix →
  ∃ n, q = child p n ∧ Str.chars suffix `suffix_of` Str.chars n
       ∧ n ∈ listdir fs (resolve fs p).
Proof.
  unfold glob_suffix. intros (n & -> & Hn)%list_elem_of_fmap.
  apply list_elem_of_filter in Hn as [Hs Hn]. eauto.
Qed.

Lemma name_child (p : Path) (n : string) : name (child p n) = n.
Proof.
  unfold name, child, joinpath. cbn. by rewrite last_snoc.
Qed.


(** ** More of [_generate_dataset_statistics] *)

Lemma count_label_files_totals (fs : FileSystem) (label_files : list Path)
    (total total' : Z) (c c' : gmap Z Z) :
  count_label_files fs (total, c) label_files = Ok (total', c') →
  ∃ texts,
    Forall2 (λ p t, read_text fs p = Ok t) label_files texts
    ∧ total' = total + Z.of_nat (sum_list_with (λ t, length (Str.readlines t)) texts)
    ∧ class_total c'
      = class_total c
        + Z.of_nat (sum_list_with (λ t, length (token_lines (Str.readlines t))) texts).
Proof.
  revert total c. induction label_files as [|p ps IH]; intros total c.
  { intros [= <- <-]. exists []. split_and!; [constructor|cbn; lia..]. }
  cbn [count_label_files].
  destruct (read_text fs p) as [t|e] eqn:Hread; [|discriminate]. cbn [rbind].
  destruct (count_label_text (total, c) t) as [[total1 c1]|e] eqn:Hone; [|discriminate].
  cbn [rbind]. intros (texts & Hall & Ht & Hc)%IH.
  apply count_label_text_totals in Hone as [Ht1 Hc1].
  exists (t :: texts). split_and!; [by constructor|cbn [sum_list_with]; lia..].
Qed.

(** X6.  When the statistics of a split are computed, [annotations] is
    the number of lines of its label files and the per-class counts sum
    to the number of those lines that hold a token: the two differ by the
    number of token-less lines. *)
Theorem split_statistics_accounting (fs : FileSystem) (dataset_path : Path)
    (split : string) (s : SplitStats) :
  split_statistics fs dataset_path split = Ok s →
  ∃ texts,
    Forall2 (λ p t, read_text fs p = Ok t)
      (glob_suffix fs (child (child dataset_path "labels") split) ".txt") texts
    ∧ labels s = Z.of_nat (length texts)
    ∧ annotations s
      = Z.of_nat (sum_list_with (λ t, length (Str.readlines t)) texts)
    ∧ class_total (class_distribution s)
      = Z.of_nat (sum_list_with (λ t, length (token_lines (Str.readlines t))) texts).
Proof.
  unfold split_statistics.
  destruct (count_label_files fs (0, ∅) _) as [[total c]|e] eqn:Hcount; [|discriminate].
  cbn [rbind fst snd]. intros [= <-]. cbn [labels annotations class_distribution].
  apply count_label_files_totals in Hcount as (texts & Hall & Ht & Hc).
  exists texts. split_and!; [done| |lia|].
  - by rewrite (Forall2_length _ _ _ Hall).
  - rewrite Hc. unfold class_total at 1. rewrite map_fold_empty. lia.
Qed.

Lemma split_statistics_accounting_witness :
  ∃ texts,
    Forall2 (λ p t, read_text SampleLabels.tree p = Ok t)
      (glob_suffix SampleLabels.tree
         (child (child SampleLabels.dataset_path "labels") "train") ".txt") texts
    ∧ labels (MkSplitStats 0 1 2 {[ 0 := 1 ]}) = Z.of_nat (length texts)
    ∧ annotations (MkSplitStats 0 1 2 {[ 0 := 1 ]})
      = Z.of_nat (sum_list_with (λ t, length (Str.readlines t)) texts)
    ∧ class_total (class_distribution (MkSplitStats 0 1 2 {[ 0 := 1 ]}))
      = Z.of_nat (sum_list_with (λ t, length (token_lines (Str.readlines t))) texts).
Proof.
  apply (split_statistics_accounting SampleLabels.tree SampleLabels.dataset_path "train").
  vm_compute. reflexivity.
Defined.

Lemma count_lines_app (c : gmap Z Z) (l1 l2 : list (list ascii)) :
  count_lines c (l1 ++ l2) = rbind (count_lines c l1) (λ c1, count_lines c1 l2).
Proof.
  revert c. induction l1 as [|l l1 IH]; intros c; [done|].
  cbn [app count_lines]. destruct (count_line c l); [apply IH|done].
Qed.

(** X7.  A label line whose first token is not an integer literal is not
    skipped: reading the file stops there with the [ValueError] of
    [int()], whatever follows. *)
Theorem count_label_text_rejects_token (acc : Z * gmap Z Z) (content : string)
    (before after : list (list ascii)) (bad first : list ascii)
    (rest : list (list ascii)) (c1 : gmap Z Z) (e : exn) :
  Str.readlines content = before ++ bad :: after →
  count_lines acc.2 before = Ok c1 →
  Str.split (Str.strip bad) = first :: rest →
  Str.int_of_str first = Raise e →
  count_label_text acc content = Raise e.
Proof.
  intros Hlines Hbefore Hsplit Hint. unfold count_label_text.
  rewrite Hlines, count_lines_app, Hbefore. cbn [rbind count_lines].
  unfold count_line. by rewrite Hsplit, Hint.
Qed.

Lemma count_label_text_rejects_token_witness :
  count_label_text (0, ∅) "0 0.5 0.5 0.1 0.1
0.0 0.5 0.5 0.2 0.2
1 0.5 0.5 0.3 0.3"
  = Raise (ValueError (InvalidIntLiteral "0.0")).
Proof.
  apply (count_label_text_rejects_token (0, ∅) _
           [Str.chars (String.append "0 0.5 0.5 0.1 0.1" (String Str.LF ""))]
           [Str.chars "1 0.5 0.5 0.3 0.3"]
           (Str.chars (String.append "0.0 0.5 0.5 0.2 0.2" (String Str.LF "")))
           (Str.chars "0.0")
           (Str.chars <$> ["0.5"; "0.5"; "0.2"; "0.2"]%string)
           {[ 0 := 1 ]});
    vm_compute; reflexivity.
Defined.

(** ** More of [export_annotations] *)

Lemma yolo_coordinates_positive_size (img_w img_h : Z) (r : Exporter.QRect) :
  0 < img_w < 2 ^ 53 → 0 < img_h < 2 ^ 53 →
  Exporter.yolo_coordinates img_w img_h r = Ok (yolo_box_of img_w img_h r).
Proof.
  intros Hw Hh.
  destruct (float_of_int_pos img_w Hw) as [Hcw Hnw].
  destruct (float_of_int_pos img_h Hh) as [Hch Hnh].
  unfold Exporter.yolo_coordinates, yolo_box_of.
  rewrite !int_truediv_two. cbn [rbind].
  unfold float_div_int, float_truediv, int_truediv.
  rewrite Hcw, Hch. cbn [rbind]. rewrite Hnw, Hnh. cbn [rbind].
  destruct (Z.eqb_spec img_w 0); [lia|]. destruct (Z.eqb_spec img_h 0); [lia|].
  reflexivity.
Qed.

(** Writing to a file that was opened for writing succeeds and replaces
    its content. *)
Lemma write_text_again (fs fs1 : FileSystem) (p : Path) (c c' : string) :
  write_text fs p c = Ok fs1 →
  write_text fs1 p c' = Ok (MkFs (cwd fs) (dirs fs) (<[resolve fs p := c']> (files fs))).
Proof.
  unfold write_text.
  destruct (is_dir fs (resolve fs p)) eqn:Hd; [discriminate|].
  destruct (is_dir fs (removelast (resolve fs p))) eqn:Hp; [|discriminate].
  intros [= <-]. unfold resolve, is_dir in *. cbn [cwd dirs files].
  rewrite Hd, Hp. by rewrite insert_insert_eq.
Qed.

Lemma write_text_any (fs fs1 : FileSystem) (p : Path) (c c' : string) :
  write_text fs p c = Ok fs1 →
  write_text fs p c' = Ok (MkFs (cwd fs) (dirs fs) (<[resolve fs p := c']> (files fs))).
Proof.
  unfold write_text.
  destruct (is_dir fs (resolve fs p)); [discriminate|].
  by destruct (is_dir fs (removelast (resolve fs p))).
Qed.

Lemma append_cons (ch : ascii) (a b : string) :
  String.append (String ch a) b = String ch (String.append a b).
Proof. reflexivity. Qed.

Lemma append_assoc (a b c : string) :
  String.append (String.append a b) c = String.append a (String.append b c).
Proof.
  induction a as [|ch a IH]; [reflexivity|]. by rewrite !append_cons, IH.
Qed.

Lemma append_empty_r (a : string) : String.append a "" = a.
Proof.
  induction a as [|ch a IH]; [reflexivity|]. by rewrite append_cons, IH.
Qed.

Lemma write_lines_run (img_w img_h : Z) (label_path : Path)
    (annotations : list Exporter.annotation) (fs0 : FileSystem) (written : string)
    (w : World) :
  0 < img_w < 2 ^ 53 → 0 < img_h < 2 ^ 53 →
  write_text fs0 label_path written = Ok (fs w) →
  for_each annotations (λ a,
      b <- lift (Exporter.yolo_coordinates img_w img_h (Exporter.rect a)) ;;
      Exporter.write_line label_path (Exporter.yolo_line (Exporter.class_id a) b)) w
  = (Ok tt,
     MkWorld (MkFs (cwd fs0) (dirs fs0)
                (<[resolve fs0 label_path
                   := String.append written
                        (concat_lines (label_lines img_w img_h annotations))]>
                   (files fs0)))
       (heap w) (rng w) (events w)).
Proof.
  intros Hw Hh. revert written w.
  induction annotations as [|a rest IH]; intros written w Hopen.
  { cbn. rewrite append_empty_r.
    pose proof Hopen as Hfs. unfold write_text in Hfs.
    destruct (is_dir fs0 _); [discriminate|]. destruct (is_dir fs0 _); [|discriminate].
    injection Hfs as Hfs. rewrite Hfs. by destruct w. }
  cbn [for_each label_lines fmap list_fmap concat_lines foldr].
  set (line := Exporter.yolo_line (Exporter.class_id a)
                 (yolo_box_of img_w img_h (Exporter.rect a))).
  pose proof (write_text_again _ _ _ _ (String.append written line) Hopen) as Hnext.
  erewrite bind_ok.
  2:{ unfold bind, lift. rewrite yolo_coordinates_positive_size by done.
      unfold Exporter.write_line, with_fs.
      rewrite (read_after_write _ _ _ _ Hopen). cbn [rbind]. fold line.
      rewrite Hnext. reflexivity. }
  rewrite (IH (String.append written line)).
  - cbn [fs heap rng events]. by rewrite append_assoc.
  - cbn [fs]. apply (write_text_any _ _ _ _ _ Hopen).
Qed.

(** X9.  With a positive image width and height (below [2^53]) and a
    non-empty annotation list, [export_annotations] returns the label
    path once the output directory is made and the file opened; the file
    then holds one line per annotation, in the order of the list, in
    place of anything it held before, and no other file is touched. *)
Theorem export_writes_lines (w : World) (img_w img_h : Z) (image_path : Path)
    (annotations : list Exporter.annotation) (output_dir : Path)
    (fs1 fs2 : FileSystem) :
  annotations ≠ [] →
  0 < img_w < 2 ^ 53 → 0 < img_h < 2 ^ 53 →
  mkdir_p (fs w) output_dir = Ok fs1 →
  write_text fs1
    (child output_dir (splitext_root (name image_path) ++ ".txt")%string) "" = Ok fs2 →
  Exporter.export_annotations img_w img_h image_path annotations output_dir w
  = (Ok (child output_dir (splitext_root (name image_path) ++ ".txt")%string),
     MkWorld
       (MkFs (cwd fs1) (dirs fs1)
          (<[resolve fs1
               (child output_dir (splitext_root (name image_path) ++ ".txt")%string)
             := concat_lines (label_lines img_w img_h annotations)]> (files fs1)))
       (heap w) (rng w) (events w)).
Proof.
  intros Hne Hw Hh Hmk Hopen.
  unfold Exporter.export_annotations.
  destruct annotations as [|a rest]; [done|].
  rewrite (bind_ok _ _ w tt (MkWorld fs1 (heap w) (rng w) (events w)))
    by (unfold with_fs; by rewrite Hmk).
  rewrite (bind_ok _ _ _ tt (MkWorld fs2 (heap w) (rng w) (events w)))
    by (unfold with_fs; cbn [fs]; by rewrite Hopen).
  erewrite bind_ok; [reflexivity|].
  by rewrite (write_lines_run img_w img_h _ _ fs1 ""%string).
Qed.

Lemma export_writes_lines_witness :
  let fs1 := MkFs ["home"%string]
               (list_to_set (ancestors ["home"; "labels"]%string) ∪ ∅) ∅ in
  let label_path :=
    child SampleExport.output_dir
      (splitext_root (name SampleExport.image_path) ++ ".txt")%string in
  Exporter.export_annotations 640 480 SampleExport.image_path
    SampleExport.annotations SampleExport.output_dir SampleExport.world
  = (Ok label_path,
     MkWorld
       (MkFs (cwd fs1) (dirs fs1)
          (<[resolve fs1 label_path
             := concat_lines (label_lines 640 480 SampleExport.annotations)]>
             (files fs1)))
       (heap SampleExport.world) (rng SampleExport.world) (events SampleExport.world)).
Proof.
  apply (export_writes_lines SampleExport.world 640 480 SampleExport.image_path
           SampleExport.annotations SampleExport.output_dir
           (MkFs ["home"%string] (list_to_set (ancestors ["home"; "labels"]%string) ∪ ∅) ∅)
           (MkFs ["home"%string] (list_to_set (ancestors ["home"; "labels"]%string) ∪ ∅)
              (<[ ["home"; "labels"; "a.txt"]%string := ""%string ]> ∅))).
  - discriminate.
  - lia.
  - lia.
  - reflexivity.
  - reflexivity.
Defined.
(** ** Binary64: values as real numbers *)

Lemma powerRZ_2_pos (e : Z) : (0 < powerRZ 2 e)%R.
Proof. apply powerRZ_lt. lra. Qed.

Lemma powerRZ_2_nonneg_IZR (k : Z) : 0 ≤ k → powerRZ 2 k = IZR (2 ^ k).
Proof.
  intros Hk. rewrite <- (Z2Nat.id k) at 1 2 by done.
  rewrite <- pow_powerRZ. by rewrite pow_IZR.
Qed.

Lemma FR_pos (m : positive) (e : Z) : (0 < FR m e)%R.
Proof.
  unfold FR. apply Rmult_lt_0_compat; [|apply powerRZ_2_pos].
  apply IZR_lt. lia.
Qed.

(** A normal mantissa makes the unit in the last place at most
    [2^-52] of the value. *)
Lemma FR_ulp (m : positive) (e : Z) :
  2 ^ 52 ≤ Z.pos m → (IZR (2 ^ 52) * powerRZ 2 e <= FR m e)%R.
Proof.
  intros Hm. unfold FR. apply Rmult_le_compat_r.
  - left. apply powerRZ_2_pos.
  - by apply IZR_le.
Qed.

(** [float(z)] is exact below [2^53]. *)
Lemma float_of_Z_exact (z : Z) :
  0 < z < 2 ^ 53 →
  ∃ m e, Prim2SF (float_of_Z z) = S754_finite false m e
         ∧ 2 ^ 52 ≤ Z.pos m < 2 ^ 53 ∧ -52 ≤ e ≤ 0 ∧ FR m e = IZR z.
Proof.
  intros Hz. destruct (float_of_Z_pos z Hz) as (m & e & Hf & Hm & He & Hval).
  exists m, e. repeat split; try done; try lia.
  unfold FR. rewrite Hval, mult_IZR, <- powerRZ_2_nonneg_IZR by lia.
  rewrite Rmult_assoc, <- powerRZ_add by lra.
  replace (- e + e) with 0 by lia. cbn. lra.
Qed.

(** The quotient of two normal values is within one unit in the last
    place of the exact quotient. *)
Lemma div_normal_R (x y : float) (mx my : positive) (ex ey : Z) :
  Prim2SF x = S754_finite false mx ex → Prim2SF y = S754_finite false my ey →
  2 ^ 52 ≤ Z.pos mx < 2 ^ 53 → 2 ^ 52 ≤ Z.pos my < 2 ^ 53 →
  -400 ≤ ex ≤ 400 → -400 ≤ ey ≤ 400 →
  ∃ m e, Prim2SF (x / y) = S754_finite false m e
         ∧ 2 ^ 52 ≤ Z.pos m < 2 ^ 53 ∧ ex - ey - 53 ≤ e ≤ ex - ey - 51
         ∧ (Rabs (FR m e - FR mx ex / FR my ey) <= powerRZ 2 e)%R.
Proof.
  intros Hx Hy Hmx Hmy Hex Hey.
  destruct (SFdiv_normal mx my ex ey Hmx Hmy Hex Hey) as (m & k & Hd & Hm & Hk & Hlo & Hhi).
  exists m, (ex - ey - 53 + k). split; [|split; [done|split; [lia|]]].
  { by rewrite div_spec, Hx, Hy. }
  unfold FR.
  assert (powerRZ 2 (ex - ey - 53 + k)
          = (powerRZ 2 ex * / powerRZ 2 ey * / IZR (2 ^ 53) * IZR (2 ^ k))%R) as ->.
  { replace (ex - ey - 53 + k) with (ex + - ey + Z.opp 53 + k) by lia.
    rewrite !powerRZ_add by lra. rewrite !powerRZ_neg'.
    rewrite (powerRZ_2_nonneg_IZR 53), (powerRZ_2_nonneg_IZR k) by lia. done. }
  pose proof (powerRZ_2_pos ex) as HA. pose proof (powerRZ_2_pos ey) as HB.
  set (A := powerRZ 2 ex) in *. set (B := powerRZ 2 ey) in *.
  assert (0 < IZR (Z.pos my))%R as Hmy0 by (apply IZR_lt; lia).
  assert (0 < IZR (2 ^ 53))%R as H53 by (apply IZR_lt; lia).
  set (c := (A * / B * / IZR (2 ^ 53) * / IZR (Z.pos my))%R).
  assert (0 < c)%R as Hc.
  { unfold c. repeat apply Rmult_lt_0_compat; try done; by apply Rinv_0_lt_compat. }
  replace (IZR (Z.pos m) * (A * / B * / IZR (2 ^ 53) * IZR (2 ^ k))
           - IZR (Z.pos mx) * A / (IZR (Z.pos my) * B))%R
    with (c * IZR (Z.pos m * 2 ^ k * Z.pos my - Z.pos mx * 2 ^ 53))%R.
  2:{ unfold c. rewrite minus_IZR, !mult_IZR. field. repeat split; lra. }
  replace (A * / B * / IZR (2 ^ 53) * IZR (2 ^ k))%R
    with (c * IZR (2 ^ k * Z.pos my))%R.
  2:{ unfold c. rewrite !mult_IZR. field. repeat split; lra. }
  rewrite Rabs_mult, (Rabs_pos_eq c) by lra.
  apply Rmult_le_compat_l; [lra|].
  rewrite <- abs_IZR. apply IZR_le. lia.
Qed.

Lemma Rabs_le_bounds (a b : R) : (Rabs a <= b)%R → (- b <= a <= b)%R.
Proof. unfold Rabs. destruct (Rcase_abs a); lra. Qed.

Lemma round_half_even_close (num den : Z) :
  0 < den → 2 * Z.abs (Str.round_half_even num den * den - num) ≤ den.
Proof.
  intros Hden. unfold Str.round_half_even.
  pose proof (Z.div_mod num den ltac:(lia)) as Hdm.
  pose proof (Z.mod_pos_bound num den Hden) as Hr.
  set (q := num / den) in *. set (r := num mod den) in *.
  destruct (Z.ltb_spec den (2 * r)); cbn [orb].
  - nia.
  - destruct (Z.eqb_spec den (2 * r)); cbn [andb orb]; [destruct (Z.odd q)|]; nia.
Qed.

(** [format(f, ".10f")] prints a positive finite value to within half a
    unit of the tenth decimal. *)
Lemma fixed_of_float_close (f : float) (m : positive) (e : Z) :
  Prim2SF f = S754_finite false m e →
  ∃ N, Str.fixed_of_float 10 f = Str.FixedDec false N
       ∧ (Rabs (IZR N - 10000000000 * FR m e) <= 1 / 2)%R.
Proof.
  intros Hf. unfold Str.fixed_of_float. rewrite Hf.
  eexists. split; [done|]. unfold Str.scaled_magnitude, FR.
  change (10 ^ Z.of_nat 10) with 10000000000.
  destruct (Z.leb_spec 0 e) as [He|He].
  - rewrite !mult_IZR, <- powerRZ_2_nonneg_IZR by done.
    match goal with |- (Rabs ?x <= _)%R => replace x with 0%R by ring end.
    rewrite Rabs_R0. lra.
  - pose proof (round_half_even_close (Z.pos m * 10000000000) (2 ^ (- e))
                  ltac:(apply Z.pow_pos_nonneg; lia)) as Hclose.
    set (N := Str.round_half_even _ _) in *.
    assert (powerRZ 2 e = / IZR (2 ^ (- e)))%R as ->.
    { rewrite <- powerRZ_2_nonneg_IZR by lia. rewrite powerRZ_neg'.
      rewrite Rinv_inv. done. }
    assert (0 < IZR (2 ^ (- e)))%R as Hden by (apply IZR_lt, Z.pow_pos_nonneg; lia).
    set (den := 2 ^ (- e)) in *.
    replace (IZR N - 10000000000 * (IZR (Z.pos m) * / IZR den))%R
      with (IZR (N * den - Z.pos m * 10000000000) * / IZR den)%R.
    2:{ rewrite minus_IZR, !mult_IZR. field. lra. }
    rewrite Rabs_mult, (Rabs_pos_eq (/ IZR den)).
    2:{ left. by apply Rinv_0_lt_compat. }
    rewrite <- abs_IZR.
    apply (Rmult_le_reg_r (IZR den)); [done|].
    rewrite Rmult_assoc, Rinv_l, Rmult_1_r by lra.
    assert (IZR (2 * Z.abs (N * den - Z.pos m * 10000000000)) <= IZR den)%R as H
      by (by apply IZR_le).
    rewrite mult_IZR in H. lra.
Qed.

(** Dividing a value [x], known to within [δ] of [v], by an image size
    and printing the quotient with ten decimals. *)
Lemma print_quotient_close (x : float) (mx : positive) (ex W : Z) (v δ : R) :
  Prim2SF x = S754_finite false mx ex →
  2 ^ 52 ≤ Z.pos mx < 2 ^ 53 → -340 ≤ ex ≤ 340 →
  0 < W < 2 ^ 53 →
  (Rabs (FR mx ex - v) <= δ)%R → (0 <= v <= IZR W)%R → (δ <= 1 / 125000000000)%R →
  ∃ N, Str.fixed_of_float 10 (x / float_of_Z W) = Str.FixedDec false N
       ∧ (Rabs (IZR N - 10000000000 * (v / IZR W)) <= 3 / 5)%R.
Proof.
  intros Hx Hmx Hex HW Hv Hvr Hδ.
  destruct (float_of_Z_exact W HW) as (mW & eW & HfW & HmW & HeW & HvalW).
  destruct (div_normal_R x (float_of_Z W) mx mW ex eW Hx HfW Hmx HmW
              ltac:(lia) ltac:(lia)) as (m & e & Hq & Hm & He & Hclose).
  destruct (fixed_of_float_close _ m e Hq) as (N & HN & HNclose).
  exists N. split; [done|].
  rewrite HvalW in Hclose.
  assert (1 <= IZR W)%R as HW1 by (apply IZR_le; lia).
  assert (0 < / IZR W <= 1)%R as HinvW.
  { split; [apply Rinv_0_lt_compat; lra|].
    rewrite <- Rinv_1. apply Rinv_le_contravar; lra. }
  pose proof (FR_ulp m e ltac:(lia)) as Hulp.
  pose proof (powerRZ_2_pos e) as HE.
  change (2 ^ 52) with 4503599627370496 in Hulp.
  set (E := powerRZ 2 e) in *. set (Q := FR m e) in *. set (X := FR mx ex) in *.
  assert (Rabs (X / IZR W - v / IZR W) <= δ)%R as Hu.
  { replace (X / IZR W - v / IZR W)%R with ((X - v) * / IZR W)%R by (field; lra).
    rewrite Rabs_mult, (Rabs_pos_eq (/ IZR W)) by lra.
    pose proof (Rabs_pos (X - v)).
    apply Rle_trans with (Rabs (X - v) * 1)%R; [|lra].
    apply Rmult_le_compat_l; lra. }
  assert (0 <= v / IZR W <= 1)%R as Ht.
  { split.
    - apply Rmult_le_pos; lra.
    - apply (Rmult_le_reg_r (IZR W)); [lra|].
      unfold Rdiv. rewrite Rmult_assoc, Rinv_l by lra. lra. }
  set (u := (X / IZR W)%R) in *. set (t := (v / IZR W)%R) in *.
  apply Rabs_le_bounds in Hclose, HNclose, Hu.
  apply Rabs_le. split; lra.
Qed.

Lemma half_close (a : Z) :
  0 < a ≤ 65536 →
  ∃ m e, Prim2SF (float_of_Z a / float_of_Z 2) = S754_finite false m e
         ∧ 2 ^ 52 ≤ Z.pos m < 2 ^ 53 ∧ -340 ≤ e ≤ 340
         ∧ (Rabs (FR m e - IZR a / 2) <= 1 / 125000000000)%R.
Proof.
  intros Ha.
  destruct (float_of_Z_exact a ltac:(lia)) as (ma & ea & Hfa & Hma & Hea & Hvala).
  destruct (float_of_Z_exact 2 ltac:(lia)) as (m2 & e2 & Hf2 & Hm2 & He2 & Hval2).
  destruct (div_normal_R _ _ ma m2 ea e2 Hfa Hf2 Hma Hm2 ltac:(lia) ltac:(lia))
    as (m & e & Hq & Hm & He & Hclose).
  exists m, e. repeat split; try done; try lia.
  rewrite Hvala, Hval2 in Hclose.
  pose proof (FR_ulp m e ltac:(lia)) as Hulp.
  change (2 ^ 52) with 4503599627370496 in Hulp.
  assert (0 < IZR a <= 65536)%R as HaR.
  { split; [apply IZR_lt; lia|apply IZR_le; lia]. }
  apply Rabs_le_bounds in Hclose. apply Rabs_le. split; lra.
Qed.

Lemma div_zero_normal (y : float) (my : positive) (ey : Z) :
  Prim2SF y = S754_finite false my ey →
  Prim2SF (0 / y) = S754_zero false.
Proof. intros Hy. by rewrite div_spec, Hy. Qed.

Lemma printed_center (a W : Z) :
  0 ≤ a → 1 ≤ W ≤ 32768 → a ≤ 2 * W →
  ∃ N, Str.fixed_of_float 10 (float_of_Z a / float_of_Z 2 / float_of_Z W)
         = Str.FixedDec false N
       ∧ Z.abs (N * (2 * W) - 10 ^ 10 * a) < 2 * W.
Proof.
  intros Ha HW HaW.
  destruct (Z.eq_dec a 0) as [->|Hne].
  - destruct (float_of_Z_exact W ltac:(lia)) as (mW & eW & HfW & _).
    exists 0. split; [|lia].
    change (float_of_Z 0 / float_of_Z 2)%float with 0%float.
    unfold Str.fixed_of_float. by rewrite (div_zero_normal _ _ _ HfW).
  - destruct (half_close a ltac:(lia)) as (m & e & Hc & Hm & He & Hclose).
    assert (0 <= IZR a)%R as HaR by (apply IZR_le; lia).
    assert (IZR a <= 2 * IZR W)%R as HaWR.
    { rewrite <- mult_IZR. by apply IZR_le. }
    destruct (print_quotient_close _ m e W (IZR a / 2) (1 / 125000000000)
                Hc Hm He ltac:(lia) Hclose ltac:(lra) ltac:(lra)) as (N & HN & HNclose).
    exists N. split; [done|].
    assert (1 <= IZR W)%R as HW1 by (apply IZR_le; lia).
    apply lt_IZR. rewrite abs_IZR, minus_IZR, !mult_IZR.
    change (IZR (10 ^ 10)) with 10000000000%R.
    replace (IZR N * (2 * IZR W) - 10000000000 * IZR a)%R
      with (2 * IZR W * (IZR N - 10000000000 * (IZR a / 2 / IZR W)))%R
      by (field; lra).
    rewrite Rabs_mult, (Rabs_pos_eq (2 * IZR W)) by lra.
    apply Rle_lt_trans with (2 * IZR W * (3 / 5))%R; [|lra].
    apply Rmult_le_compat_l; lra.
Qed.

Lemma printed_size (s W : Z) :
  0 ≤ s ≤ W → 1 ≤ W ≤ 32768 →
  ∃ N, Str.fixed_of_float 10 (float_of_Z s / float_of_Z W) = Str.FixedDec false N
       ∧ Z.abs (N * W - 10 ^ 10 * s) < W.
Proof.
  intros Hs HW.
  destruct (Z.eq_dec s 0) as [->|Hne].
  - destruct (float_of_Z_exact W ltac:(lia)) as (mW & eW & HfW & _).
    exists 0. split; [|lia].
    change (float_of_Z 0) with 0%float.
    unfold Str.fixed_of_float. by rewrite (div_zero_normal _ _ _ HfW).
  - destruct (float_of_Z_exact s ltac:(lia)) as (m & e & Hf & Hm & He & Hval).
    assert (0 <= IZR s <= IZR W)%R as HsR by (split; apply IZR_le; lia).
    destruct (print_quotient_close _ m e W (IZR s) 0 Hf Hm ltac:(lia) ltac:(lia))
      as (N & HN & HNclose); [rewrite Hval, Rminus_diag, Rabs_R0; lra|done|lra|].
    exists N. split; [done|].
    assert (1 <= IZR W)%R as HW1 by (apply IZR_le; lia).
    apply lt_IZR. rewrite abs_IZR, minus_IZR, !mult_IZR.
    change (IZR (10 ^ 10)) with 10000000000%R.
    replace (IZR N * IZR W - 10000000000 * IZR s)%R
      with (IZR W * (IZR N - 10000000000 * (IZR s / IZR W)))%R
      by (field; lra).
    rewrite Rabs_mult, (Rabs_pos_eq (IZR W)) by lra.
    apply Rle_lt_trans with (IZR W * (3 / 5))%R; [|lra].
    apply Rmult_le_compat_l; lra.
Qed.

(** X10. For a rectangle inside an image no larger than 32768 by 32768
    pixels, [export_annotations] computes coordinates that print as four
    non-negative decimals, each less than [1e-10] away from the exact
    rational coordinate: the centre [(2x + w) / (2 W)], [(2y + h) / (2 H)]
    and the size [w / W], [h / H]. *)
Theorem yolo_coordinates_precision (img_w img_h : Z) (r : Exporter.QRect) :
  1 ≤ img_w ≤ 32768 → 1 ≤ img_h ≤ 32768 →
  0 ≤ Exporter.x r → 0 ≤ Exporter.y r →
  0 ≤ Exporter.width r → 0 ≤ Exporter.height r →
  Exporter.x r + Exporter.width r ≤ img_w →
  Exporter.y r + Exporter.height r ≤ img_h →
  ∃ b nx ny nw nh,
    Exporter.yolo_coordinates img_w img_h r = Ok b
    ∧ Str.fixed_of_float 10 (Exporter.x_center b) = Str.FixedDec false nx
    ∧ Str.fixed_of_float 10 (Exporter.y_center b) = Str.FixedDec false ny
    ∧ Str.fixed_of_float 10 (Exporter.rel_width b) = Str.FixedDec false nw
    ∧ Str.fixed_of_float 10 (Exporter.rel_height b) = Str.FixedDec false nh
    ∧ Z.abs (nx * (2 * img_w) - 10 ^ 10 * (2 * Exporter.x r + Exporter.width r))
        < 2 * img_w
    ∧ Z.abs (ny * (2 * img_h) - 10 ^ 10 * (2 * Exporter.y r + Exporter.height r))
        < 2 * img_h
    ∧ Z.abs (nw * img_w - 10 ^ 10 * Exporter.width r) < img_w
    ∧ Z.abs (nh * img_h - 10 ^ 10 * Exporter.height r) < img_h.
Proof.
  intros Hw Hh Hx Hy Hrw Hrh Hxw Hyh.
  destruct (printed_center (2 * Exporter.x r + Exporter.width r) img_w)
    as (nx & Hnx & Hcx); [lia..|].
  destruct (printed_center (2 * Exporter.y r + Exporter.height r) img_h)
    as (ny & Hny & Hcy); [lia..|].
  destruct (printed_size (Exporter.width r) img_w) as (nw & Hnw & Hcw); [lia..|].
  destruct (printed_size (Exporter.height r) img_h) as (nh & Hnh & Hch); [lia..|].
  exists (yolo_box_of img_w img_h r), nx, ny, nw, nh.
  split; [apply yolo_coordinates_positive_size; lia|].
  unfold yolo_box_of. cbn [Exporter.x_center Exporter.y_center
                             Exporter.rel_width Exporter.rel_height].
  replace (Exporter.x r + (Exporter.x r + Exporter.width r))
    with (2 * Exporter.x r + Exporter.width r) by lia.
  replace (Exporter.y r + (Exporter.y r + Exporter.height r))
    with (2 * Exporter.y r + Exporter.height r) by lia.
  replace (Z.abs (Exporter.x r + Exporter.width r - Exporter.x r))
    with (Exporter.width r) by lia.
  replace (Z.abs (Exporter.y r + Exporter.height r - Exporter.y r))
    with (Exporter.height r) by lia.
  done.
Qed.

Lemma yolo_coordinates_precision_witness :
  ∃ b nx ny nw nh,
    Exporter.yolo_coordinates 640 480 (Exporter.MkQRect 100 50 200 120) = Ok b
    ∧ Str.fixed_of_float 10 (Exporter.x_center b) = Str.FixedDec false nx
    ∧ Str.fixed_of_float 10 (Exporter.y_center b) = Str.FixedDec false ny
    ∧ Str.fixed_of_float 10 (Exporter.rel_width b) = Str.FixedDec false nw
    ∧ Str.fixed_of_float 10 (Exporter.rel_height b) = Str.FixedDec false nh
    ∧ Z.abs (nx * (2 * 640) - 10 ^ 10 * (2 * 100 + 200)) < 2 * 640
    ∧ Z.abs (ny * (2 * 480) - 10 ^ 10 * (2 * 50 + 120)) < 2 * 480
    ∧ Z.abs (nw * 640 - 10 ^ 10 * 200) < 640
    ∧ Z.abs (nh * 480 - 10 ^ 10 * 120) < 480.
Proof.
  apply (yolo_coordinates_precision 640 480 (Exporter.MkQRect 100 50 200 120));
    cbn; lia.
Defined.

(** ** [VehicleClassManager]: the [dict] of classes *)

Section Dict.
Import Registry.
Implicit Types (d : dict) (k : Z) (v c : VehicleClass).

Lemma dict_get_None k d : dict_get k d = None ↔ k ∉ keys d.
Proof.
  unfold keys. induction d as [|[k' v'] d IH]; cbn.
  - split; [set_solver|done].
  - destruct (decide (k' = k)) as [->|Hne]; [split; [done|set_solver]|].
    rewrite IH. set_solver.
Qed.

Lemma dict_get_Some k c d : dict_get k d = Some c → (k, c) ∈ d.
Proof.
  induction d as [|[k' v'] d IH]; cbn; [done|].
  destruct (decide (k' = k)) as [->|Hne]; [intros [= ->]; set_solver|].
  intros H. apply IH in H. set_solver.
Qed.

Lemma dict_get_elem k c d : NoDup (keys d) → (k, c) ∈ d → dict_get k d = Some c.
Proof.
  unfold keys. induction d as [|[k' v'] d IH]; cbn; [set_solver|].
  rewrite NoDup_cons. intros [Hk Hnd] Hin.
  apply elem_of_cons in Hin as [[= -> ->]|Hin].
  - by rewrite decide_True.
  - rewrite decide_False; [by apply IH|].
    intros ->. apply Hk. apply list_elem_of_fmap. by exists (k, c).
Qed.

Lemma dict_set_fresh k v d : k ∉ keys d → dict_set k v d = d ++ [(k, v)].
Proof.
  unfold keys. induction d as [|[k' v'] d IH]; cbn; [done|].
  intros Hk. rewrite decide_False by set_solver. rewrite IH; [done|set_solver].
Qed.

Lemma dict_split k c d :
  dict_get k d = Some c →
  ∃ d1 d2, d = d1 ++ ((k, c) :: d2) ∧ (k ∉ keys d1)
           ∧ (∀ v, dict_set k v d = d1 ++ ((k, v) :: d2)).
Proof.
  unfold keys. induction d as [|[k' v'] d IH]; cbn; [done|].
  destruct (decide (k' = k)) as [->|Hne].
  - intros [= ->]. exists [], d. split; [done|split; [set_solver|done]].
  - intros H. destruct (IH H) as (d1 & d2 & -> & Hk & Hset).
    exists ((k', v') :: d1), d2. split; [done|split; [set_solver|]].
    intros v. cbn. by rewrite Hset.
Qed.

Lemma dict_get_set_eq k v d : dict_get k (dict_set k v d) = Some v.
Proof.
  induction d as [|[k' v'] d IH]; cbn; [by rewrite decide_True|].
  destruct (decide (k' = k)) as [->|Hne]; cbn; [by rewrite decide_True|].
  by rewrite decide_False.
Qed.

Lemma dict_get_set_ne k k' v d : k ≠ k' → dict_get k' (dict_set k v d) = dict_get k' d.
Proof.
  intros Hne. induction d as [|[k0 v0] d IH]; cbn; [by rewrite decide_False|].
  destruct (decide (k0 = k)) as [->|Hne0]; cbn.
  - by rewrite !decide_False.
  - destruct (decide (k0 = k')); [done|apply IH].
Qed.

Lemma keys_dict_set k v d :
  keys (dict_set k v d) = if decide (k ∈ keys d) then keys d else keys d ++ [k].
Proof.
  unfold keys. induction d as [|[k' v'] d IH]; cbn.
  - rewrite decide_False; [done|set_solver].
  - destruct (decide (k' = k)) as [->|Hne]; cbn.
    + rewrite decide_True; [done|set_solver].
    + rewrite IH. destruct (decide (k ∈ d.*1)).
      * rewrite decide_True; [done|set_solver].
      * rewrite decide_False; [done|set_solver].
Qed.

Lemma dict_set_NoDup k v d : NoDup (keys d) → NoDup (keys (dict_set k v d)).
Proof.
  intros Hnd. rewrite keys_dict_set. destruct (decide _); [done|].
  apply NoDup_app. repeat split; [done|set_solver|apply NoDup_singleton].
Qed.

Lemma dict_get_del_eq k d : dict_get k (dict_del k d) = None.
Proof.
  apply dict_get_None. unfold keys, dict_del.
  intros (kv & -> & Hin)%list_elem_of_fmap.
  apply list_elem_of_filter in Hin as [Hne _]. done.
Qed.

Lemma dict_get_del_ne k k' d : k ≠ k' → dict_get k' (dict_del k d) = dict_get k' d.
Proof.
  intros Hne. unfold dict_del. induction d as [|[k0 v0] d IH]; [done|].
  rewrite filter_cons. cbn [fst]. destruct (decide (k0 ≠ k)) as [H0|H0]; cbn.
  - destruct (decide (k0 = k')); [done|apply IH].
  - assert (k0 = k) as -> by (destruct (decide (k0 = k)); [done|by destruct H0]).
    by rewrite decide_False.
Qed.

End Dict.

(** ** [VehicleClassManager]: adding, updating and deleting classes *)

Lemma saved_inv {A} (json_dump : list Registry.VehicleClass → Z → string) (a : A)
    (self : Registry.manager) (fs : FileSystem) :
  (Registry.saved json_dump a self fs).1.2 = self
  ∧ (((Registry.saved json_dump a self fs).1.1 = Registry.Done a
      ∧ Registry.save_classes json_dump self fs
        = Ok (Registry.saved json_dump a self fs).2)
     ∨ (∃ e, (Registry.saved json_dump a self fs).1.1
               = Registry.Fail (Registry.SaveFailed e)
             ∧ (Registry.saved json_dump a self fs).2 = fs)).
Proof.
  unfold Registry.saved. destruct (Registry.save_classes json_dump self fs) as [fs'|e].
  - split; [done|by left].
  - split; [done|right; by exists e].
Qed.

Lemma ids_ok_fresh (self : Registry.manager) :
  ids_ok self → Registry.next_id self ∉ Registry.keys (Registry.classes self).
Proof.
  intros [_ Hall] (kv & Hk & Hin)%list_elem_of_fmap.
  rewrite Forall_forall in Hall. destruct (Hall kv Hin) as [_ Hlt]. lia.
Qed.

(** X11.  On a registry whose ids are in order, a successful [add_class]
    returns the old [next_id], which no class had; the new class is then
    found under that id with the given fields, enabled; every other id
    gives what it gave before; [next_id] has grown by one; and the
    configuration file holds the new state. *)
Theorem add_class_assigns_next_id
    (json_dump : list Registry.VehicleClass → Z → string)
    (self : Registry.manager) (fs : FileSystem) (name : string)
    (color : option Registry.QColor) (description shortcut_key emoji : string)
    (id : Z) :
  let r := Registry.add_class json_dump self fs name color description
             shortcut_key emoji in
  ids_ok self →
  r.1.1 = Registry.Done id →
  id = Registry.next_id self
  ∧ Registry.get_class self id = None
  ∧ Registry.get_class r.1.2 id
    = Some (Registry.new_class id name color description true shortcut_key emoji)
  ∧ (∀ k, k ≠ id → Registry.get_class r.1.2 k = Registry.get_class self k)
  ∧ Registry.next_id r.1.2 = id + 1
  ∧ read_text r.2 (Registry.config_file self)
    = Ok (json_dump (Registry.values (Registry.classes r.1.2))
            (Registry.next_id r.1.2)).
Proof.
  intros r Hok. subst r. unfold Registry.add_class.
  destruct (Registry.blank name); [discriminate|].
  destruct (existsb _ _); [discriminate|].
  destruct (negb _ && existsb _ _); [discriminate|].
  match goal with |- context [Registry.saved _ _ ?m _] => set (self' := m) end.
  destruct (saved_inv json_dump (Registry.next_id self) self' fs)
    as [-> [[-> Hsave]|(e & -> & _)]]; [|discriminate].
  intros [= <-].
  pose proof (ids_ok_fresh self Hok) as Hfresh.
  split; [done|]. split; [by apply dict_get_None|].
  unfold Registry.get_class, self'. cbn [Registry.classes Registry.next_id].
  split; [apply dict_get_set_eq|].
  split; [intros k Hk; by apply dict_get_set_ne|].
  split; [done|]. by apply (read_after_write fs).
Qed.

Lemma add_class_assigns_next_id_witness :
  let r := Registry.add_class SampleRegistry.dump SampleRegistry.manager
             SampleRegistry.home "van" None "" "5" "v" in
  4 = Registry.next_id SampleRegistry.manager
  ∧ Registry.get_class SampleRegistry.manager 4 = None
  ∧ Registry.get_class r.1.2 4
    = Some (Registry.new_class 4 "van" None "" true "5" "v")
  ∧ (∀ k, k ≠ 4 → Registry.get_class r.1.2 k
                   = Registry.get_class SampleRegistry.manager k)
  ∧ Registry.next_id r.1.2 = 4 + 1
  ∧ read_text r.2 (Registry.config_file SampleRegistry.manager)
    = Ok (SampleRegistry.dump (Registry.values (Registry.classes r.1.2))
            (Registry.next_id r.1.2)).
Proof.
  apply (add_class_assigns_next_id SampleRegistry.dump SampleRegistry.manager
           SampleRegistry.home "van" None "" "5" "v" 4).
  - split; apply (bool_decide_unpack _); vm_compute; exact I.
  - vm_compute; reflexivity.
Defined.

Lemma existsb_false {A} (p : A → bool) (l : list A) :
  existsb p l = false ↔ ∀ x, x ∈ l → p x = false.
Proof.
  induction l as [|a l IH]; cbn; [set_solver|].
  rewrite orb_false_iff, IH. set_solver.
Qed.

Lemma string_eqb_false (a b : string) : String.eqb a b = false ↔ a ≠ b.
Proof. destruct (String.eqb_spec a b); split; congruence. Qed.

Lemma set_shortcuts_app (d1 d2 : Registry.dict) :
  set_shortcuts (d1 ++ d2) = set_shortcuts d1 ++ set_shortcuts d2.
Proof. unfold set_shortcuts, Registry.values. by rewrite !fmap_app, filter_app. Qed.

Lemma set_shortcuts_one (k : Z) (c : Registry.VehicleClass) :
  set_shortcuts [(k, c)]
  = if decide (Registry.shortcut_key c = ""%string) then []
    else [Registry.shortcut_key c].
Proof.
  unfold set_shortcuts, Registry.values. cbn [fmap list_fmap snd].
  rewrite filter_cons, filter_nil.
  destruct (decide (Registry.shortcut_key c = ""%string)) as [->|Hne].
  - by rewrite decide_False by (intros H; by apply H).
  - by rewrite decide_True.
Qed.

Lemma elem_of_set_shortcuts (s : string) (d : Registry.dict) :
  s ∈ set_shortcuts d
  ↔ s ≠ ""%string ∧ ∃ kv, kv ∈ d ∧ Registry.shortcut_key kv.2 = s.
Proof.
  unfold set_shortcuts, Registry.values.
  rewrite list_elem_of_filter, list_elem_of_fmap. split.
  - intros [Hne (c & -> & (kv & -> & Hin)%list_elem_of_fmap)]. split; [done|by exists kv].
  - intros [Hne (kv & Hin & <-)]. split; [done|].
    exists kv.2. split; [done|]. apply list_elem_of_fmap. by exists kv.
Qed.

(** Appending a class under a fresh id. *)
Lemma registry_ok_append (self : Registry.manager) (c : Registry.VehicleClass) :
  registry_ok self →
  Registry.class_id c = Registry.next_id self →
  Registry.blank (Registry.name c) = false →
  (∀ c', c' ∈ Registry.values (Registry.classes self) →
         Registry.name c' ≠ Registry.name c) →
  (Registry.shortcut_key c = ""%string
   ∨ ∀ c', c' ∈ Registry.values (Registry.classes self) →
           Registry.shortcut_key c' ≠ Registry.shortcut_key c) →
  registry_ok
    (Registry.MkManager (Registry.config_file self)
       (Registry.dict_set (Registry.next_id self) c (Registry.classes self))
       (Registry.next_id self + 1)).
Proof.
  intros (Hids & [Hnames Hblank] & Hkeys) Hid Hb Hname Hkey.
  pose proof (ids_ok_fresh self Hids) as Hfresh.
  rewrite dict_set_fresh by done. destruct Hids as [Hnd Hall].
  unfold registry_ok, ids_ok, names_ok, shortcuts_ok, Registry.keys, Registry.values.
  cbn [Registry.classes Registry.next_id]. rewrite !fmap_app. cbn [fmap list_fmap fst snd].
  repeat split.
  - apply NoDup_app. repeat split; [done|set_solver|apply NoDup_singleton].
  - apply Forall_app. split.
    + eapply Forall_impl; [exact Hall|]. intros kv [? ?]. split; [done|lia].
    + apply Forall_singleton. cbn. split; [done|lia].
  - apply NoDup_app. repeat split; [done| |apply NoDup_singleton].
    intros n (c' & -> & Hin)%list_elem_of_fmap Hn.
    apply list_elem_of_singleton in Hn. by apply (Hname c').
  - apply Forall_app. split; [done|by apply Forall_singleton].
  - rewrite set_shortcuts_app, set_shortcuts_one.
    destruct (decide _) as [He|Hne]; [by rewrite app_nil_r|].
    apply NoDup_app. repeat split; [done| |apply NoDup_singleton].
    intros s (Hs & kv & Hin & Hkv)%elem_of_set_shortcuts Hin'.
    apply list_elem_of_singleton in Hin'. subst s.
    destruct Hkey as [?|Hkey]; [done|].
    apply (Hkey kv.2); [|done]. apply list_elem_of_fmap. by exists kv.
Qed.

Lemma add_class_keeps_ok (json_dump : list Registry.VehicleClass → Z → string)
    (self : Registry.manager) (fs : FileSystem) (name : string)
    (color : option Registry.QColor) (description shortcut_key emoji : string) :
  registry_ok self →
  registry_ok (Registry.add_class json_dump self fs name color description
                 shortcut_key emoji).1.2.
Proof.
  intros Hok. unfold Registry.add_class.
  destruct (Registry.blank name) eqn:Hb; [done|].
  destruct (existsb _ _) eqn:Hname; [done|].
  destruct (negb _ && existsb _ _) eqn:Hkey; [done|].
  match goal with |- context [Registry.saved _ _ ?m _] => set (self' := m) end.
  destruct (saved_inv json_dump (Registry.next_id self) self' fs) as [-> _].
  apply registry_ok_append; try done.
  - intros c' Hin. rewrite existsb_false in Hname.
    apply string_eqb_false. by apply Hname.
  - apply andb_false_iff in Hkey as [Hkey|Hkey].
    + left. apply negb_false_iff in Hkey. by apply String.eqb_eq in Hkey.
    + right. intros c' Hin. rewrite existsb_false in Hkey.
      apply string_eqb_false. by apply Hkey.
Qed.

(** Replacing the class held under an id by one with the same id. *)
Lemma registry_ok_replace (self : Registry.manager) (k : Z)
    (c c' : Registry.VehicleClass) :
  registry_ok self →
  Registry.dict_get k (Registry.classes self) = Some c →
  Registry.class_id c' = Registry.class_id c →
  Registry.blank (Registry.name c') = false →
  (Registry.name c' = Registry.name c
   ∨ Registry.others_have k (λ o, String.eqb (Registry.name o) (Registry.name c'))
       (Registry.classes self) = false) →
  (Registry.shortcut_key c' = Registry.shortcut_key c
   ∨ Registry.shortcut_key c' = ""%string
   ∨ Registry.others_have k
       (λ o, String.eqb (Registry.shortcut_key o) (Registry.shortcut_key c'))
       (Registry.classes self) = false) →
  registry_ok (Registry.with_class self k c').
Proof.
  intros ([Hnd Hall] & [Hnames Hblank] & Hkeys) Hget Hid Hb Hname Hkey.
  destruct (dict_split k c _ Hget) as (d1 & d2 & Hd & Hk1 & Hset).
  unfold registry_ok, ids_ok, names_ok, shortcuts_ok, Registry.with_class in *.
  cbn [Registry.classes Registry.next_id]. rewrite Hset. rewrite Hd in *.
  clear Hd Hset Hget.
  unfold Registry.keys, Registry.values in *.
  rewrite !fmap_app, !fmap_cons in *. cbn [fst snd] in *.
  assert (∀ p, Registry.others_have k p (d1 ++ (k, c) :: d2) = false →
               ∀ kv, kv ∈ d1 ++ d2 → p kv.2 = false) as Hothers.
  { intros p Hp kv Hin. unfold Registry.others_have in Hp.
    rewrite existsb_false in Hp.
    assert (kv.1 ≠ k) as Hne.
    { intros <-. apply NoDup_app in Hnd as (_ & Hdisj & Hnd2).
      apply NoDup_cons in Hnd2 as [Hk2 _].
      apply elem_of_app in Hin as [Hin|Hin].
      - apply Hk1. apply list_elem_of_fmap. by exists kv.
      - apply Hk2. apply list_elem_of_fmap. by exists kv. }
    specialize (Hp kv ltac:(set_solver)).
    apply andb_false_iff in Hp as [Hp|Hp]; [|done].
    by rewrite bool_decide_eq_false in Hp. }
  repeat split.
  - done.
  - apply Forall_app in Hall as [H1 H2]. apply Forall_cons in H2 as [[Hc Hlt] H2].
    apply Forall_app. split; [done|]. apply Forall_cons. split; [|done].
    cbn [fst snd] in *. split; [congruence|done].
  - apply NoDup_app in Hnames as (Hn1 & Hdisj & Hn2).
    apply NoDup_cons in Hn2 as [Hc2 Hn2].
    destruct Hname as [->|Hname].
    { apply NoDup_app. repeat split; [done..|]. by apply NoDup_cons. }
    specialize (Hothers _ Hname).
    assert (∀ o, o ∈ d1.*2 ++ d2.*2 → Registry.name o ≠ Registry.name c') as Hfree.
    { intros o Hin. rewrite <- fmap_app in Hin.
      apply list_elem_of_fmap in Hin as (kv & -> & Hin).
      apply string_eqb_false. by apply Hothers. }
    apply NoDup_app. repeat split; [done| |].
    + intros n Hin1 Hin. apply elem_of_cons in Hin as [->|Hin]; [|set_solver].
      apply list_elem_of_fmap in Hin1 as (o & Ho & Hin1).
      apply (Hfree o); [set_solver|done].
    + apply NoDup_cons. split; [|done].
      intros (o & Ho & Hin)%list_elem_of_fmap. apply (Hfree o); [set_solver|done].
  - apply Forall_app in Hblank as [H1 H2]. apply Forall_cons in H2 as [_ H2].
    apply Forall_app. split; [done|]. by apply Forall_cons.
  - change ((k, c') :: d2) with ([(k, c')] ++ d2).
    change ((k, c) :: d2) with ([(k, c)] ++ d2) in Hkeys.
    rewrite !set_shortcuts_app, !set_shortcuts_one in *.
    assert (NoDup (set_shortcuts d1 ++ set_shortcuts d2)) as Hrest.
    { apply NoDup_app in Hkeys as (Hs1 & Hdisj & Hs2).
      apply NoDup_app in Hs2 as (_ & _ & Hs2).
      apply NoDup_app. repeat split; [done| |done].
      intros s Hin1 Hin2. apply (Hdisj s Hin1). set_solver. }
    destruct (decide (Registry.shortcut_key c' = ""%string)) as [He|Hne]; [done|].
    destruct Hkey as [Hsame|[?|Hkey]]; [|done|].
    { rewrite Hsame in *. by rewrite decide_False in Hkeys by done. }
    specialize (Hothers _ Hkey).
    assert (∀ d, d ⊆ d1 ++ d2 → Registry.shortcut_key c' ∉ set_shortcuts d) as Hfree.
    { intros d Hsub (_ & kv & Hin & Hkv)%elem_of_set_shortcuts.
      specialize (Hothers kv (Hsub _ Hin)). cbn beta in Hothers.
      apply string_eqb_false in Hothers. done. }
    apply NoDup_app in Hrest as (Hs1 & Hdisj & Hs2).
    apply NoDup_app. repeat split; [done| |].
    + intros s Hin1 Hin. apply elem_of_cons in Hin as [->|Hin].
      * by apply (Hfree d1); [set_solver|].
      * by apply (Hdisj s).
    + apply NoDup_cons. split; [|done]. apply Hfree. set_solver.
Qed.

Lemma registry_ok_blank (self : Registry.manager) (k : Z) (c : Registry.VehicleClass) :
  registry_ok self → Registry.dict_get k (Registry.classes self) = Some c →
  Registry.blank (Registry.name c) = false.
Proof.
  intros (_ & [_ Hblank] & _) Hget%dict_get_Some.
  rewrite Forall_forall in Hblank. apply Hblank.
  apply list_elem_of_fmap. by exists (k, c).
Qed.

Lemma update_class_keeps_ok (json_dump : list Registry.VehicleClass → Z → string)
    (self : Registry.manager) (fs : FileSystem) (class_id : Z)
    (name : option string) (color : option Registry.QColor)
    (description : option string) (enabled : option bool)
    (shortcut_key emoji : option string) :
  registry_ok self →
  registry_ok (Registry.update_class json_dump self fs class_id name color
                 description enabled shortcut_key emoji).1.2.
Proof.
  intros Hok. unfold Registry.update_class.
  destruct (Registry.dict_get class_id (Registry.classes self)) as [c|] eqn:Hget;
    [|done].
  pose proof (registry_ok_blank self class_id c Hok Hget) as Hb.
  destruct name as [n|].
  - destruct (Registry.blank n) eqn:Hbn; [done|].
    destruct (Registry.others_have class_id _ _) eqn:Hname; [done|].
    destruct shortcut_key as [k|].
    + destruct (negb _ && Registry.others_have _ _ _) eqn:Hkey.
      * cbn [fst snd]. eapply registry_ok_replace; eauto.
      * match goal with |- context [Registry.saved _ _ ?m _] =>
          destruct (saved_inv json_dump tt m fs) as [-> _] end.
        eapply registry_ok_replace; eauto. cbn [Registry.shortcut_key].
        apply andb_false_iff in Hkey as [Hkey|Hkey]; [|by right; right].
        right; left. apply negb_false_iff in Hkey. by apply String.eqb_eq in Hkey.
    + match goal with |- context [Registry.saved _ _ ?m _] =>
        destruct (saved_inv json_dump tt m fs) as [-> _] end.
      eapply registry_ok_replace; eauto.
  - destruct shortcut_key as [k|].
    + destruct (negb _ && Registry.others_have _ _ _) eqn:Hkey.
      * cbn [fst snd]. eapply registry_ok_replace; eauto.
      * match goal with |- context [Registry.saved _ _ ?m _] =>
          destruct (saved_inv json_dump tt m fs) as [-> _] end.
        eapply registry_ok_replace; eauto. cbn [Registry.shortcut_key].
        apply andb_false_iff in Hkey as [Hkey|Hkey]; [|by right; right].
        right; left. apply negb_false_iff in Hkey. by apply String.eqb_eq in Hkey.
    + match goal with |- context [Registry.saved _ _ ?m _] =>
        destruct (saved_inv json_dump tt m fs) as [-> _] end.
      eapply registry_ok_replace; eauto.
Qed.

Lemma filter_sublist_mono {A} (P : A → Prop) `{!∀ x, Decision (P x)} (l1 l2 : list A) :
  l1 `sublist_of` l2 → filter P l1 `sublist_of` filter P l2.
Proof.
  induction 1 as [|x l1 l2 _ IH|x l1 l2 _ IH]; [done| |].
  - rewrite !filter_cons. destruct (decide (P x)); [by constructor|done].
  - rewrite filter_cons. destruct (decide (P x)); [by constructor|done].
Qed.

Lemma delete_class_keeps_ok (json_dump : list Registry.VehicleClass → Z → string)
    (self : Registry.manager) (fs : FileSystem) (class_id : Z) :
  registry_ok self →
  registry_ok (Registry.delete_class json_dump self fs class_id).1.2.
Proof.
  intros Hok. unfold Registry.delete_class.
  destruct (Registry.dict_get class_id (Registry.classes self)) as [c|]; [|done].
  match goal with |- context [Registry.saved _ _ ?m _] =>
    destruct (saved_inv json_dump tt m fs) as [-> _] end.
  destruct Hok as ([Hnd Hall] & [Hnames Hblank] & Hkeys).
  assert (Registry.dict_del class_id (Registry.classes self)
            `sublist_of` Registry.classes self) as Hsub by apply sublist_filter.
  unfold registry_ok, ids_ok, names_ok, shortcuts_ok, set_shortcuts,
    Registry.keys, Registry.values in *.
  cbn [Registry.classes Registry.next_id].
  repeat split.
  - eapply sublist_NoDup; [exact Hnd|]. by apply fmap_sublist.
  - rewrite Forall_forall in *. intros kv Hin. apply Hall.
    by eapply elem_of_sublist.
  - eapply sublist_NoDup; [exact Hnames|]. by do 2 apply fmap_sublist.
  - rewrite Forall_forall in *. intros o Hin. apply Hblank.
    eapply elem_of_sublist; [exact Hin|]. by apply fmap_sublist.
  - eapply sublist_NoDup; [exact Hkeys|].
    apply filter_sublist_mono. by do 2 apply fmap_sublist.
Qed.

(** X12.  [add_class], [update_class] and [delete_class] keep the
    registry in order whether they return or raise: class ids stay
    distinct, equal to their keys and below [next_id]; names stay
    distinct and not blank; shortcut keys, where set, stay distinct. *)
Theorem manager_keeps_registry_ok
    (json_dump : list Registry.VehicleClass → Z → string)
    (self : Registry.manager) (fs : FileSystem) :
  registry_ok self →
  (∀ name color description shortcut_key emoji,
     registry_ok (Registry.add_class json_dump self fs name color description
                    shortcut_key emoji).1.2)
  ∧ (∀ class_id name color description enabled shortcut_key emoji,
       registry_ok (Registry.update_class json_dump self fs class_id name color
                      description enabled shortcut_key emoji).1.2)
  ∧ (∀ class_id,
       registry_ok (Registry.delete_class json_dump self fs class_id).1.2).
Proof.
  intros Hok. repeat split.
  all: intros; first [by apply add_class_keeps_ok | by apply update_class_keeps_ok
                     | by apply delete_class_keeps_ok].
Qed.

Lemma manager_keeps_registry_ok_witness :
  (∀ name color description shortcut_key emoji,
     registry_ok (Registry.add_class SampleRegistry.dump SampleRegistry.manager
                    SampleRegistry.home name color description
                    shortcut_key emoji).1.2)
  ∧ (∀ class_id name color description enabled shortcut_key emoji,
       registry_ok (Registry.update_class SampleRegistry.dump SampleRegistry.manager
                      SampleRegistry.home class_id name color
                      description enabled shortcut_key emoji).1.2)
  ∧ (∀ class_id,
       registry_ok (Registry.delete_class SampleRegistry.dump SampleRegistry.manager
                      SampleRegistry.home class_id).1.2).
Proof.
  apply (manager_keeps_registry_ok SampleRegistry.dump SampleRegistry.manager
           SampleRegistry.home).
  repeat split; apply (bool_decide_unpack _); vm_compute; exact I.
Defined.

Lemma others_have_false (k : Z) (p : Registry.VehicleClass → bool) (d : Registry.dict) :
  Registry.others_have k p d = false ↔ ∀ kv, kv ∈ d → kv.1 ≠ k → p kv.2 = false.
Proof.
  unfold Registry.others_have. rewrite existsb_false. split.
  - intros H kv Hin Hne. specialize (H kv Hin).
    apply andb_false_iff in H as [H|H]; [|done].
    by rewrite bool_decide_eq_false in H.
  - intros H kv Hin. destruct (decide (kv.1 = k)) as [He|Hne].
    + by rewrite (bool_decide_eq_false_2 _ (λ H', H' He)).
    + rewrite (H kv Hin Hne). apply andb_false_r.
Qed.

Lemma others_have_true (k : Z) (p : Registry.VehicleClass → bool) (d : Registry.dict)
    (kv : Z * Registry.VehicleClass) :
  kv ∈ d → kv.1 ≠ k → p kv.2 = true → Registry.others_have k p d = true.
Proof.
  intros Hin Hne Hp. destruct (Registry.others_have k p d) eqn:H; [done|].
  rewrite others_have_false in H. rewrite (H kv Hin Hne) in Hp. done.
Qed.

(** X13.  [update_class] is not atomic.  When the new name is acceptable
    but the new shortcut key belongs to another class, it raises the
    [ValueError] of the shortcut and saves nothing, yet the class in
    memory already carries the new name, colour, description and enabled
    flag (with its old shortcut key and emoji). *)
Theorem update_class_partial
    (json_dump : list Registry.VehicleClass → Z → string)
    (self : Registry.manager) (fs : FileSystem) (id : Z) (c : Registry.VehicleClass)
    (name : string) (color : option Registry.QColor) (description : option string)
    (enabled : option bool) (key : string) (emoji : option string)
    (other : Z * Registry.VehicleClass) :
  let r := Registry.update_class json_dump self fs id (Some name) color description
             enabled (Some key) emoji in
  Registry.get_class self id = Some c →
  Registry.blank name = false →
  (∀ kv, kv ∈ Registry.classes self → kv.1 ≠ id → Registry.name kv.2 ≠ name) →
  key ≠ ""%string →
  other ∈ Registry.classes self → other.1 ≠ id → Registry.shortcut_key other.2 = key →
  r.1.1 = Registry.Fail (Registry.Invalid (Registry.ShortcutUsed key))
  ∧ r.2 = fs
  ∧ Registry.get_class r.1.2 id
    = Some (Registry.MkVehicleClass (Registry.class_id c) name
              (default (Registry.color c) color)
              (default (Registry.description c) description)
              (default (Registry.enabled c) enabled)
              (Registry.shortcut_key c) (Registry.emoji c)).
Proof.
  intros r Hget Hb Hname Hkey Hin Hne Hother. subst r.
  unfold Registry.update_class, Registry.get_class in *. rewrite Hget, Hb.
  rewrite (proj2 (others_have_false id _ _)).
  2:{ intros kv Hkv Hk. apply string_eqb_false. by apply Hname. }
  rewrite (others_have_true id _ _ other Hin Hne) by (by apply String.eqb_eq).
  rewrite (proj2 (string_eqb_false key "") Hkey). cbn [negb andb fst snd].
  repeat split. unfold Registry.with_class. cbn [Registry.classes].
  apply dict_get_set_eq.
Qed.

Lemma update_class_partial_witness :
  let r := Registry.update_class SampleRegistry.dump SampleRegistry.manager
             SampleRegistry.home 0 (Some "scooter"%string) None None (Some false)
             (Some "2"%string) None in
  r.1.1 = Registry.Fail (Registry.Invalid (Registry.ShortcutUsed "2"))
  ∧ r.2 = SampleRegistry.home
  ∧ Registry.get_class r.1.2 0
    = Some (Registry.MkVehicleClass
              (Registry.class_id (Registry.new_class 0 "機車" None "兩輪機車" true "1" "🏍"))
              "scooter"
              (default (Registry.color (Registry.new_class 0 "機車" None "兩輪機車" true "1" "🏍")) None)
              (default (Registry.description (Registry.new_class 0 "機車" None "兩輪機車" true "1" "🏍")) None)
              (default (Registry.enabled (Registry.new_class 0 "機車" None "兩輪機車" true "1" "🏍")) (Some false))
              (Registry.shortcut_key (Registry.new_class 0 "機車" None "兩輪機車" true "1" "🏍"))
              (Registry.emoji (Registry.new_class 0 "機車" None "兩輪機車" true "1" "🏍"))).
Proof.
  apply (update_class_partial SampleRegistry.dump SampleRegistry.manager
           SampleRegistry.home 0
           (Registry.new_class 0 "機車" None "兩輪機車" true "1" "🏍")
           "scooter" None None (Some false) "2" None
           (1, Registry.new_class 1 "汽車" None "一般乘用車" true "2" "🚗")).
  - vm_compute; reflexivity.
  - vm_compute; reflexivity.
  - apply (proj1 (Forall_forall
             (λ kv : Z * Registry.VehicleClass,
                kv.1 ≠ 0 → Registry.name kv.2 ≠ "scooter"%string)
             (Registry.classes SampleRegistry.manager))).
    apply (bool_decide_unpack _). vm_compute. exact I.
  - discriminate.
  - apply (bool_decide_unpack _). vm_compute. exact I.
  - discriminate.
  - reflexivity.
Defined.

(** ** [classes.txt]: lines and names *)

Lemma lstrip_app_nonspace (l t : list ascii) :
  Str.lstrip l ≠ [] → Str.lstrip (l ++ t) = Str.lstrip l ++ t.
Proof.
  induction l as [|c l IH]; cbn [Str.lstrip app]; [done|].
  destruct (Str.is_space c); [apply IH|done].
Qed.

Lemma lstrip_all_space (l : list ascii) (c : ascii) :
  Str.lstrip l = [] → Str.is_space c = true → Str.lstrip (l ++ [c]) = [].
Proof.
  intros Hl Hc. induction l as [|c' l IH]; cbn [Str.lstrip app] in *.
  - by rewrite Hc.
  - destruct (Str.is_space c'); [by apply IH|done].
Qed.

(** Stripping ignores a final whitespace character, so the terminator
    of a line. *)
Lemma strip_snoc_space (l : list ascii) (c : ascii) :
  Str.is_space c = true → Str.strip (l ++ [c]) = Str.strip l.
Proof.
  intros Hc. unfold Str.strip.
  destruct (Str.lstrip l) as [|c0 l0] eqn:Hl.
  - by rewrite lstrip_all_space.
  - rewrite lstrip_app_nonspace by (by rewrite Hl). rewrite Hl.
    rewrite reverse_app. cbn [reverse rev_append app Str.lstrip].
    change (reverse [c]) with [c]. cbn [app Str.lstrip]. by rewrite Hc.
Qed.

Lemma universal_newlines_no_cr (l t : list ascii) :
  Forall (λ ch, ch ≠ Str.CR) l →
  Str.universal_newlines (l ++ t) = l ++ Str.universal_newlines t.
Proof.
  induction 1 as [|c l Hc _ IH]; [done|].
  cbn [app Str.universal_newlines].
  destruct (Ascii.eqb_spec c Str.CR); [done|]. by rewrite IH.
Qed.

Lemma lines_from_no_lf (cur l t : list ascii) :
  Forall (λ ch, ch ≠ Str.LF) l →
  Str.lines_from cur (l ++ Str.LF :: t)
  = (reverse cur ++ l ++ [Str.LF]) :: Str.lines_from [] t.
Proof.
  intros Hl. revert cur. induction Hl as [|c l Hc _ IH]; intros cur.
  - cbn [app Str.lines_from]. rewrite Ascii.eqb_refl. by rewrite reverse_cons.
  - cbn [app Str.lines_from]. destruct (Ascii.eqb_spec c Str.LF); [done|].
    rewrite IH, reverse_cons, <- app_assoc. done.
Qed.

Lemma chars_append (a b : string) :
  Str.chars (String.append a b) = Str.chars a ++ Str.chars b.
Proof.
  induction a as [|c a IH]; [reflexivity|].
  rewrite append_cons. unfold Str.chars in *. cbn [list_ascii_of_string app].
  by rewrite IH.
Qed.

(** A line break-free name followed by a newline is read back as one
    line. *)
Lemma readlines_name_line (s rest : string) :
  Forall (λ ch, ch ≠ Str.LF ∧ ch ≠ Str.CR) (Str.chars s) →
  Str.readlines (s ++ String Str.LF rest)
  = (Str.chars s ++ [Str.LF]) :: Str.readlines rest.
Proof.
  intros Hs. unfold Str.readlines. rewrite chars_append.
  rewrite universal_newlines_no_cr.
  2:{ eapply Forall_impl; [exact Hs|]. by intros ch [_ ?]. }
  change (Str.chars (String Str.LF rest)) with (Str.LF :: Str.chars rest).
  cbn [Str.universal_newlines].
  change (Ascii.eqb Str.LF Str.CR) with false. cbn match.
  rewrite lines_from_no_lf.
  2:{ eapply Forall_impl; [exact Hs|]. by intros ch [? _]. }
  done.
Qed.

Lemma of_chars_chars (s : string) : Str.of_chars (Str.chars s) = s.
Proof. apply string_of_list_ascii_of_string. Qed.

Lemma nonblank_stripped_names (names : list string) :
  Forall clean_name names →
  nonblank_stripped
    (foldr (λ n text, (n ++ String Str.LF text)%string) ""%string names) = names.
Proof.
  unfold nonblank_stripped. induction 1 as [|n names (Hne & Hbr & Hstrip) _ IH]; [done|].
  cbn [foldr]. rewrite readlines_name_line by done.
  rewrite fmap_cons, strip_snoc_space by done. rewrite Hstrip.
  rewrite filter_cons, decide_True.
  2:{ intros He. apply Hne. rewrite <- (of_chars_chars n). by rewrite He. }
  rewrite fmap_cons, of_chars_chars. by rewrite IH.
Qed.

(** ** [VehicleClassManager]: [classes.txt] out and in *)

Lemma read_text_exists (fs : FileSystem) (p : Path) (text : string) :
  read_text fs p = Ok text → path_exists fs p = true.
Proof.
  unfold read_text, path_exists, is_file.
  destruct (files fs !! resolve fs p) as [c|] eqn:Hf.
  - intros _. rewrite bool_decide_eq_true_2; [done|by eexists].
  - by destruct (is_dir fs (resolve fs p)).
Qed.



Lemma imported_from_names (i : nat) (lines : list (list ascii)) :
  Registry.name <$> Registry.values (Registry.imported_from i lines)
  = Str.of_chars <$> filter (λ l, l ≠ []) (Str.strip <$> lines).
Proof.
  revert i. induction lines as [|line lines IH]; intros i; [done|].
  cbn [Registry.imported_from]. unfold Registry.imported_class.
  rewrite fmap_cons, filter_cons.
  destruct (decide (Str.strip line = [])) as [He|Hne].
  - rewrite decide_False by (intros H; by apply H). apply IH.
  - rewrite decide_True by done. unfold Registry.values in *.
    rewrite !fmap_cons. cbn [snd Registry.name Registry.new_class]. by rewrite IH.
Qed.

Lemma imported_from_elem (i : nat) (lines : list (list ascii)) (k : Z)
    (c : Registry.VehicleClass) :
  (k, c) ∈ Registry.imported_from i lines
  ↔ ∃ j line, lines !! j = Some line ∧ k = Z.of_nat (i + j)
              ∧ Registry.imported_class (i + j) line = Some (k, c).
Proof.
  revert i. induction lines as [|line lines IH]; intros i.
  { cbn. split; [set_solver|]. by intros (j & l & ? & _). }
  assert ((k, c) ∈ Registry.imported_from (S i) lines
          ↔ ∃ j line', (line :: lines) !! S j = Some line' ∧ k = Z.of_nat (i + S j)
                       ∧ Registry.imported_class (i + S j) line' = Some (k, c)) as Hrest.
  { rewrite IH. split; intros (j & l & Hl & Hk & Hc); exists j, l.
    - replace (i + S j)%nat with (S i + j)%nat by lia. done.
    - replace (S i + j)%nat with (i + S j)%nat by lia. done. }
  assert (∀ kv, Registry.imported_class i line = Some kv → kv.1 = Z.of_nat i) as Hkey.
  { intros kv. unfold Registry.imported_class. destruct (decide _); [done|].
    by intros [= <-]. }
  cbn [Registry.imported_from].
  destruct (Registry.imported_class i line) as [kv|] eqn:Hline.
  - rewrite elem_of_cons, Hrest. split.
    + intros [Heq|(j & l & ?)]; [|by exists (S j), l]. subst kv.
      exists 0%nat, line. rewrite Nat.add_0_r. split; [done|]. split; [|done].
      exact (Hkey (k, c) eq_refl).
    + intros ([|j] & l & Hl & Hk & Hc).
      * left. rewrite Nat.add_0_r in Hc. cbn in Hl. congruence.
      * right. by exists j, l.
  - rewrite Hrest. split.
    + intros (j & l & ?). by exists (S j), l.
    + intros ([|j] & l & Hl & Hk & Hc); [|by exists j, l].
      rewrite Nat.add_0_r in Hc. cbn in Hl. congruence.
Qed.

Lemma imported_from_keys (i : nat) (lines : list (list ascii)) :
  NoDup (Registry.keys (Registry.imported_from i lines))
  ∧ Forall (λ k, Z.of_nat i ≤ k) (Registry.keys (Registry.imported_from i lines)).
Proof.
  revert i. induction lines as [|line lines IH]; intros i.
  { split; constructor. }
  destruct (IH (S i)) as [Hnd Hall].
  assert (Forall (λ k, Z.of_nat i ≤ k)
            (Registry.keys (Registry.imported_from (S i) lines))) as Hall'.
  { eapply Forall_impl; [exact Hall|]. intros k. cbn beta. lia. }
  cbn [Registry.imported_from]. unfold Registry.imported_class.
  destruct (decide _); [done|].
  unfold Registry.keys in *. rewrite fmap_cons. cbn [fst]. split.
  - apply NoDup_cons. split; [|done]. intros Hin.
    rewrite Forall_forall in Hall. specialize (Hall _ Hin). lia.
  - apply Forall_cons. split; [lia|done].
Qed.

(** X15.  [import_classes_txt] reads the same names, in the same order,
    as [DatasetPreparer] reads from that file, but numbers them
    differently: a class gets the 0-based position of its line among all
    lines, blank ones included, while [next_id] becomes the number of
    classes. *)
Theorem import_classes_txt_numbering
    (json_dump : list Registry.VehicleClass → Z → string)
    (self : Registry.manager) (fs : FileSystem) (filename : Path) (text : string) :
  let r := Registry.import_classes_txt json_dump self fs filename in
  read_text fs filename = Ok text →
  r.1.1 = true →
  Registry.name <$> Registry.values (Registry.classes r.1.2) = nonblank_stripped text
  ∧ Registry.next_id r.1.2 = Z.of_nat (length (nonblank_stripped text))
  ∧ ∀ k c, Registry.get_class r.1.2 k = Some c
           ↔ 0 ≤ k
             ∧ ∃ line, Str.readlines text !! Z.to_nat k = Some line
                       ∧ Str.strip line ≠ []
                       ∧ c = Registry.new_class k (Str.of_chars (Str.strip line)) None
                               "" true
                               (if k <? 9 then Str.str_of_int (k + 1) else ""%string)
                               (Registry.emoji_of (Str.of_chars (Str.strip line))).
Proof.
  intros r Hread. subst r. unfold Registry.import_classes_txt.
  rewrite (read_text_exists _ _ _ Hread), Hread.
  destruct (Registry.save_classes _ _ _) as [fs'|e]; [|discriminate].
  intros _. cbn [fst snd Registry.classes Registry.next_id].
  pose proof (imported_from_names 0 (Str.readlines text)) as Hnames.
  split; [exact Hnames|]. split.
  { unfold nonblank_stripped. rewrite <- Hnames.
    unfold Registry.values. by rewrite !length_fmap. }
  intros k c. unfold Registry.get_class. cbn [Registry.classes]. split.
  - intros Hget%dict_get_Some. apply imported_from_elem in Hget as (j & line & Hl & -> & Hc).
    cbn [Nat.add] in *. split; [lia|]. exists line. rewrite Nat2Z.id.
    split; [done|]. unfold Registry.imported_class in Hc.
    destruct (decide (Str.strip line = [])); [done|]. split; [done|]. congruence.
  - intros (Hk & line & Hl & Hne & ->).
    apply dict_get_elem; [apply imported_from_keys|].
    apply imported_from_elem. exists (Z.to_nat k), line. cbn [Nat.add].
    split; [done|]. split; [lia|]. unfold Registry.imported_class.
    rewrite decide_False by done. rewrite Z2Nat.id by done. done.
Qed.

Lemma import_classes_txt_numbering_witness :
  let text := String.append "car" (String Str.LF (String Str.LF
                (String.append "bus" (String Str.LF "")))) in
  let r := Registry.import_classes_txt SampleRegistry.dump SampleRegistry.manager
             (MkFs ["home"%string] SampleRegistry.home_dirs
                (<[ ["home"; "classes.txt"]%string := text ]> ∅))
             (rel ["classes.txt"%string]) in
  Registry.name <$> Registry.values (Registry.classes r.1.2) = nonblank_stripped text
  ∧ Registry.next_id r.1.2 = Z.of_nat (length (nonblank_stripped text))
  ∧ ∀ k c, Registry.get_class r.1.2 k = Some c
           ↔ 0 ≤ k
             ∧ ∃ line, Str.readlines text !! Z.to_nat k = Some line
                       ∧ Str.strip line ≠ []
                       ∧ c = Registry.new_class k (Str.of_chars (Str.strip line)) None
                               "" true
                               (if k <? 9 then Str.str_of_int (k + 1) else ""%string)
                               (Registry.emoji_of (Str.of_chars (Str.strip line))).
Proof.
  intros text.
  apply (import_classes_txt_numbering SampleRegistry.dump SampleRegistry.manager
           (MkFs ["home"%string] SampleRegistry.home_dirs
              (<[ ["home"; "classes.txt"]%string := text ]> ∅))
           (rel ["classes.txt"%string]) text).
  - vm_compute; reflexivity.
  - vm_compute; reflexivity.
Defined.

Lemma imported_from_app (i : nat) (l1 l2 : list (list ascii)) :
  Registry.imported_from i (l1 ++ l2)
  = Registry.imported_from i l1 ++ Registry.imported_from (i + length l1) l2.
Proof.
  revert i. induction l1 as [|line l1 IH]; intros i.
  { cbn. by rewrite Nat.add_0_r. }
  cbn [app Registry.imported_from length]. rewrite IH.
  replace (S i + length l1)%nat with (i + S (length l1))%nat by lia.
  by destruct (Registry.imported_class i line).
Qed.

Lemma imported_from_length (i : nat) (lines : list (list ascii)) :
  (length (Registry.imported_from i lines) ≤ length lines)%nat.
Proof.
  revert i. induction lines as [|line lines IH]; intros i; [done|].
  cbn [Registry.imported_from length]. specialize (IH (S i)).
  destruct (Registry.imported_class i line); cbn [length]; lia.
Qed.

(** The last class of an import has an id at least the first line
    number plus the number of classes, less one. *)
Lemma imported_from_last_key (i : nat) (lines : list (list ascii)) :
  Registry.imported_from i lines ≠ [] →
  ∃ kv, kv ∈ Registry.imported_from i lines
        ∧ Z.of_nat i + Z.of_nat (length (Registry.imported_from i lines)) - 1 ≤ kv.1.
Proof.
  revert i. induction lines as [|line lines IH]; intros i; [done|].
  cbn [Registry.imported_from].
  destruct (Registry.imported_class i line) as [kv|] eqn:Hline.
  - intros _. destruct (Registry.imported_from (S i) lines) as [|kv' d] eqn:Hd.
    + exists kv. split; [set_solver|]. cbn [length].
      unfold Registry.imported_class in Hline. destruct (decide _); [done|].
      injection Hline as <-. cbn [fst]. lia.
    + destruct (IH (S i)) as (kv0 & Hin & Hle); [by rewrite Hd|].
      rewrite Hd in Hin, Hle. exists kv0. split; [set_solver|].
      cbn [length] in *. lia.
  - intros Hne. destruct (IH (S i) Hne) as (kv0 & Hin & Hle).
    exists kv0. split; [done|]. lia.
Qed.



(** ** [VehicleClassManager]: loading the configuration *)

Lemma foldl_dict_set_ok (entries : list Registry.VehicleClass) (acc : Registry.dict) :
  NoDup (Registry.keys acc) →
  Forall (λ kv : Z * Registry.VehicleClass, Registry.class_id kv.2 = kv.1) acc →
  let d := foldl (λ d c, Registry.dict_set (Registry.class_id c) c d) acc entries in
  NoDup (Registry.keys d)
  ∧ Forall (λ kv : Z * Registry.VehicleClass, Registry.class_id kv.2 = kv.1) d.
Proof.
  revert acc. induction entries as [|c entries IH]; intros acc Hnd Hall; [done|].
  cbn [foldl]. apply IH; [by apply dict_set_NoDup|].
  clear IH Hnd. induction acc as [|[k v] acc IHacc]; cbn [Registry.dict_set].
  - by apply Forall_singleton.
  - apply Forall_cons in Hall as [Hkv Hall].
    destruct (decide (k = Registry.class_id c)); apply Forall_cons; split; auto.
Qed.

Lemma foldr_max_bound (k : Z) (ks : list Z) (x : Z) :
  x ∈ k :: ks → x ≤ foldr Z.max k ks.
Proof.
  induction ks as [|k' ks IH]; cbn [foldr].
  - intros ->%list_elem_of_singleton. lia.
  - intros [->|[->|Hin]%elem_of_cons]%elem_of_cons.
    + assert (k ≤ foldr Z.max k ks) by (apply IH; set_solver). lia.
    + lia.
    + assert (x ≤ foldr Z.max k ks) by (apply IH; set_solver). lia.
Qed.

Lemma foldr_max_lt (k : Z) (ks : list Z) (n : Z) :
  (∀ x, x ∈ k :: ks → x < n) → foldr Z.max k ks < n.
Proof.
  induction ks as [|k' ks IH]; cbn [foldr]; intros Hlt.
  - apply Hlt. set_solver.
  - assert (k' < n) by (apply Hlt; set_solver).
    assert (foldr Z.max k ks < n) by (apply IH; intros x Hx; apply Hlt; set_solver).
    lia.
Qed.

Lemma max_key_bound (d : Registry.dict) (kv : Z * Registry.VehicleClass) :
  kv ∈ d → kv.1 ≤ Registry.max_key d.
Proof.
  unfold Registry.max_key, Registry.keys. intros Hin.
  assert (kv.1 ∈ d.*1) as Hk by (apply list_elem_of_fmap; by exists kv).
  destruct (d.*1) as [|k ks]; [by apply elem_of_nil in Hk|].
  by apply foldr_max_bound.
Qed.

Lemma fix_next_id_ok (self : Registry.manager) :
  NoDup (Registry.keys (Registry.classes self)) →
  Forall (λ kv : Z * Registry.VehicleClass, Registry.class_id kv.2 = kv.1)
    (Registry.classes self) →
  ids_ok (Registry.fix_next_id self).
Proof.
  intros Hnd Hall. unfold Registry.fix_next_id.
  destruct (Registry.classes self) as [|kv d] eqn:Hd.
  { split; rewrite Hd; constructor. }
  split; cbn [Registry.classes Registry.next_id]; [done|].
  rewrite Forall_forall in *. intros kv' Hin. split; [by apply Hall|].
  pose proof (max_key_bound _ _ Hin). lia.
Qed.


Lemma foldl_dict_set_values (d acc : Registry.dict) :
  NoDup (Registry.keys (acc ++ d)) →
  Forall (λ kv : Z * Registry.VehicleClass, Registry.class_id kv.2 = kv.1) d →
  foldl (λ d c, Registry.dict_set (Registry.class_id c) c d) acc (Registry.values d)
  = acc ++ d.
Proof.
  revert acc. induction d as [|[k c] d IH]; intros acc Hnd Hall.
  { cbn. by rewrite app_nil_r. }
  apply Forall_cons in Hall as [Hk Hall]. cbn [fst snd] in Hk.
  unfold Registry.values in *. rewrite fmap_cons. cbn [snd foldl]. rewrite Hk.
  unfold Registry.keys in *.
  rewrite dict_set_fresh.
  2:{ rewrite fmap_app, fmap_cons in Hnd. apply NoDup_app in Hnd as (_ & Hdisj & _).
      intros Hin. apply (Hdisj k Hin). set_solver. }
  rewrite IH; [by rewrite <- app_assoc| |done].
  by rewrite <- app_assoc.
Qed.

(** X18.  Saving a registry and constructing a manager from the saved
    file gives the same classes back, but not the same [next_id]: the
    saved value is ignored for one more than the largest id present.  So
    the ids of classes deleted from the top of the range are handed out
    again after a restart. *)
Theorem reload_resets_next_id (json_dump : list Registry.VehicleClass → Z → string)
    (json_load : string → option (list Registry.VehicleClass * option Z))
    (self : Registry.manager) (fs fs' : FileSystem) :
  ids_ok self →
  Registry.classes self ≠ [] →
  Registry.save_classes json_dump self fs = Ok fs' →
  json_load (json_dump (Registry.values (Registry.classes self)) (Registry.next_id self))
  = Some (Registry.values (Registry.classes self), Some (Registry.next_id self)) →
  Registry.init json_dump json_load (Registry.config_file self) fs'
  = (Registry.Done tt,
     Registry.MkManager (Registry.config_file self) (Registry.classes self)
       (Registry.max_key (Registry.classes self) + 1),
     fs')
  ∧ Registry.max_key (Registry.classes self) + 1 ≤ Registry.next_id self.
Proof.
  intros [Hnd Hall] Hne Hsave Hload. split.
  - unfold Registry.init, Registry.load_classes. cbn [Registry.config_file].
    pose proof (read_after_write _ _ _ _ Hsave) as Hread.
    rewrite (read_text_exists _ _ _ Hread), Hread, Hload.
    rewrite (foldl_dict_set_values _ []).
    + cbn [app]. unfold Registry.fix_next_id. cbn [Registry.classes Registry.config_file].
      by destruct (Registry.classes self).
    + done.
    + eapply Forall_impl; [exact Hall|]. by intros kv [? _].
  - destruct (Registry.classes self) as [|kv d] eqn:Hd; [done|].
    unfold Registry.max_key, Registry.keys. rewrite fmap_cons.
    assert (foldr Z.max kv.1 d.*1 < Registry.next_id self); [|lia].
    apply foldr_max_lt. rewrite <- fmap_cons.
    intros k (kv' & -> & Hin)%list_elem_of_fmap.
    rewrite Forall_forall in Hall. by apply Hall.
Qed.

Lemma reload_resets_next_id_witness :
  let self := Registry.MkManager (rel ["vehicle_classes.json"%string])
                [(0, Registry.new_class 0 "car" None "" true "1" "c");
                 (1, Registry.new_class 1 "bus" None "" true "2" "b")] 3 in
  let load := λ _ : string, Some (Registry.values (Registry.classes self), Some 3) in
  let fs' := MkFs ["home"%string] SampleRegistry.home_dirs
               (<[ ["home"; "vehicle_classes.json"]%string := "car;bus;3"%string ]> ∅) in
  Registry.init SampleRegistry.dump load (Registry.config_file self) fs'
  = (Registry.Done tt,
     Registry.MkManager (Registry.config_file self) (Registry.classes self)
       (Registry.max_key (Registry.classes self) + 1),
     fs')
  ∧ Registry.max_key (Registry.classes self) + 1 ≤ Registry.next_id self.
Proof.
  intros self load fs'.
  apply (reload_resets_next_id SampleRegistry.dump load self SampleRegistry.home fs').
  - split; apply (bool_decide_unpack _); vm_compute; exact I.
  - discriminate.
  - vm_compute; reflexivity.
  - reflexivity.
Defined.

(** ** [VehicleClassManager]: listing the classes *)

Lemma insert_by_id_perm (c : Registry.VehicleClass) (l : list Registry.VehicleClass) :
  Registry.insert_by_id c l ≡ₚ c :: l.
Proof.
  induction l as [|c' l IH]; cbn [Registry.insert_by_id]; [done|].
  destruct (Registry.class_id c <=? Registry.class_id c'); [done|].
  rewrite IH. apply perm_swap.
Qed.

Lemma sorted_by_id_perm (l : list Registry.VehicleClass) :
  Registry.sorted_by_id l ≡ₚ l.
Proof.
  unfold Registry.sorted_by_id. induction l as [|c l IH]; [done|].
  cbn [foldr]. by rewrite insert_by_id_perm, IH.
Qed.

Lemma insert_by_id_ascending (c : Registry.VehicleClass)
    (l : list Registry.VehicleClass) :
  ascending l → ascending (Registry.insert_by_id c l).
Proof.
  induction l as [|c' l IH]; cbn [Registry.insert_by_id ascending].
  { intros _. split; [constructor|done]. }
  intros [Hall Hs].
  destruct (Z.leb_spec (Registry.class_id c) (Registry.class_id c')) as [Hle|Hgt].
  - cbn [ascending]. split; [|done]. constructor; [done|].
    eapply Forall_impl; [exact Hall|]. intros b Hb. cbn beta in *. lia.
  - cbn [ascending]. split; [|by apply IH].
    rewrite insert_by_id_perm. constructor; [lia|done].
Qed.

Lemma sorted_by_id_ascending (l : list Registry.VehicleClass) :
  ascending (Registry.sorted_by_id l).
Proof.
  unfold Registry.sorted_by_id. induction l as [|c l IH]; [done|].
  cbn [foldr]. by apply insert_by_id_ascending.
Qed.

Lemma ascending_lookup (l : list Registry.VehicleClass) (i j : nat)
    (a b : Registry.VehicleClass) :
  ascending l → (i < j)%nat → l !! i = Some a → l !! j = Some b →
  Registry.class_id a ≤ Registry.class_id b.
Proof.
  revert i j. induction l as [|x l IH]; intros i j Hs Hij Hi Hj.
  { by rewrite lookup_nil in Hi. }
  destruct Hs as [Hall Hs].
  destruct j as [|j]; [lia|]. cbn in Hj. destruct i as [|i].
  - cbn in Hi. injection Hi as <-. rewrite Forall_forall in Hall.
    apply Hall. by eapply list_elem_of_lookup_2.
  - cbn in Hi. apply (IH i j); [done|lia|done..].
Qed.

Lemma class_ids_are_keys (self : Registry.manager) :
  ids_ok self →
  Registry.class_id <$> Registry.values (Registry.classes self)
  = Registry.keys (Registry.classes self).
Proof.
  intros [_ Hall]. unfold Registry.values, Registry.keys.
  induction Hall as [|kv d [Hk _] _ IH]; [done|].
  cbn [fmap list_fmap]. by f_equal.
Qed.

(** X19.  On a registry whose ids are in order, [get_all_classes] lists
    each class once -- every class, or every enabled one -- by strictly
    increasing id, whatever the order in which the classes were added. *)
Theorem get_all_classes_by_id (self : Registry.manager) (enabled_only : bool) :
  ids_ok self →
  let l := Registry.get_all_classes self enabled_only in
  (∀ c, c ∈ l ↔ c ∈ Registry.values (Registry.classes self)
                 ∧ (enabled_only = true → Registry.enabled c = true))
  ∧ (∀ i j a b, (i < j)%nat → l !! i = Some a → l !! j = Some b →
                Registry.class_id a < Registry.class_id b).
Proof.
  intros Hok l. subst l. unfold Registry.get_all_classes.
  set (vs := Registry.values (Registry.classes self)).
  set (chosen := if enabled_only then filter (λ c, Registry.enabled c = true) vs else vs).
  assert (chosen `sublist_of` vs) as Hsub.
  { unfold chosen. destruct enabled_only; [apply sublist_filter|done]. }
  assert (NoDup (Registry.class_id <$> vs)) as Hids.
  { unfold vs. rewrite class_ids_are_keys by done. by destruct Hok. }
  split.
  - intros c. rewrite sorted_by_id_perm. unfold chosen.
    destruct enabled_only.
    + rewrite list_elem_of_filter. naive_solver.
    + naive_solver.
  - intros i j a b Hij Hi Hj.
    pose proof (ascending_lookup _ i j a b (sorted_by_id_ascending chosen) Hij Hi Hj)
      as Hle.
    assert (NoDup (Registry.class_id <$> Registry.sorted_by_id chosen)) as Hnd'.
    { rewrite sorted_by_id_perm. eapply sublist_NoDup; [exact Hids|].
      by apply fmap_sublist. }
    assert (Registry.class_id a ≠ Registry.class_id b); [|lia].
    intros Heq.
    assert (i = j); [|lia].
    eapply NoDup_lookup; [exact Hnd'| |].
    + by rewrite list_lookup_fmap, Hi.
    + by rewrite list_lookup_fmap, Hj, Heq.
Qed.

Lemma get_all_classes_by_id_witness :
  let self := Registry.MkManager (rel ["vehicle_classes.json"%string])
                [(2, Registry.new_class 2 "bus" None "" false "" "b");
                 (0, Registry.new_class 0 "car" None "" true "1" "c");
                 (1, Registry.new_class 1 "truck" None "" true "" "t")] 3 in
  let l := Registry.get_all_classes self true in
  (∀ c, c ∈ l ↔ c ∈ Registry.values (Registry.classes self)
                 ∧ (true = true → Registry.enabled c = true))
  ∧ (∀ i j a b, (i < j)%nat → l !! i = Some a → l !! j = Some b →
                Registry.class_id a < Registry.class_id b).
Proof.
  intros self.
  apply (get_all_classes_by_id self true).
  split; apply (bool_decide_unpack _); vm_compute; exact I.
Defined.

(** ** [update_split_ratios] feeding [_split_dataset] *)

Lemma spin_values_accepted :
  forallb (λ a, forallb (λ b, forallb (Dialog.accepted a b) Dialog.spin_values)
                  Dialog.spin_values) Dialog.spin_values = true.
Proof. vm_cast_no_check (eq_refl true). Qed.

Lemma spin_value_listed (k : Z) :
  10 ≤ k ≤ 90 → In (Dialog.spin_value k) Dialog.spin_values.
Proof.
  intros Hk. unfold Dialog.spin_values. apply list_elem_of_In, list_elem_of_fmap.
  exists (Z.to_nat k). split; [by rewrite Z2Nat.id by lia|].
  apply elem_of_seq. lia.
Qed.

Lemma ratio_count_error (n : Z) (ratio : float) (e : exn) :
  ratio_count n ratio = Raise e →
  e = OverflowError ∨ e = ValueError FloatNaNToInt.
Proof.
  unfold ratio_count, int_mul_float, float_of_int.
  destruct (is_infinity (float_of_Z n)); cbn [rbind]; [intros [= <-]; by left|].
  unfold int_of_float. destruct (Prim2SF _); intros [= <-]; auto.
Qed.

(** Past its ratio check, [_split_dataset] raises only what the two
    counts raise. *)
Lemma split_dataset_errors (w : World) (files : loc) (tr vr te : float) (e : exn) :
  (0.01 <? abs (tr + vr + te - 1.0))%float = false →
  (_split_dataset files tr vr te w).1 = Raise e →
  e = OverflowError ∨ e = ValueError FloatNaNToInt.
Proof.
  intros Hcheck. unfold _split_dataset. rewrite Hcheck.
  set (r0 := fresh (dom (heap w))).
  set (l0 := default [] (heap w !! files)) in *.
  rewrite (bind_ok _ _ _ _ _ (list_copy_run _ _)). fold r0 l0.
  rewrite (bind_ok _ _ _ _ _ (random_shuffle_run _ _)).
  cbn [heap rng fs events with_heap].
  rewrite lookup_insert_eq. cbn [default from_option Datatypes.id].
  rewrite insert_insert_eq.
  set (shuffled := (shuffle l0 (rng w)).1).
  set (h0 := <[r0 := shuffled]> (heap w)).
  set (w0 := MkWorld _ h0 _ _).
  assert (h0 !! r0 = Some shuffled) as Hl0 by apply lookup_insert_eq.
  unfold load at 1. rewrite (bind_ok _ _ w0 shuffled w0).
  2:{ cbn. by rewrite Hl0. }
  unfold lift.
  destruct (ratio_count (Z.of_nat (length shuffled)) tr) as [a|e'] eqn:Ha.
  2:{ rewrite (bind_raise _ _ w0 e' w0) by done. intros [= <-].
      by eapply ratio_count_error. }
  rewrite (bind_ok _ _ w0 a w0) by done.
  destruct (ratio_count (Z.of_nat (length shuffled)) vr) as [b|e'] eqn:Hb.
  2:{ rewrite (bind_raise _ _ w0 e' w0) by done. intros [= <-].
      by eapply ratio_count_error. }
  rewrite (bind_ok _ _ w0 b w0) by done.
  rewrite !(bind_ok _ _ _ _ _ (list_slice_run _ _ _ _)).
  discriminate.
Qed.

(** X20.  Whatever the three ratio spin boxes of the training dialog
    hold, [update_split_ratios] stores three positive ratios that pass
    the tolerance check of [_split_dataset]: a dataset prepared from the
    dialog is never refused for its ratios. *)
Theorem dialog_ratios_accepted (a b c : Z) :
  10 ≤ a ≤ 90 → 10 ≤ b ≤ 90 → 10 ≤ c ≤ 90 →
  ∃ t v te,
    Dialog.update_split_ratios (Dialog.spin_value a) (Dialog.spin_value b)
      (Dialog.spin_value c) = Ok (t, v, te)
    ∧ (0 <? t)%float = true ∧ (0 <? v)%float = true ∧ (0 <? te)%float = true
    ∧ ∀ (w : World) (files : loc) (total : float),
        (_split_dataset files t v te w).1 ≠ Raise (ValueError (RatioSumNotOne total)).
Proof.
  intros Ha Hb Hc.
  pose proof spin_values_accepted as Hall.
  rewrite forallb_forall in Hall. specialize (Hall _ (spin_value_listed a Ha)).
  rewrite forallb_forall in Hall. specialize (Hall _ (spin_value_listed b Hb)).
  rewrite forallb_forall in Hall. specialize (Hall _ (spin_value_listed c Hc)).
  unfold Dialog.accepted in Hall.
  destruct (Dialog.update_split_ratios _ _ _) as [[[t v] te]|e]; [|discriminate].
  apply andb_prop in Hall as [Hall Hte]. apply andb_prop in Hall as [Hall Hv].
  apply andb_prop in Hall as [Hcheck Ht]. apply negb_true_iff in Hcheck.
  exists t, v, te. repeat split; try done.
  intros w files total Hraise.
  by destruct (split_dataset_errors w files t v te _ Hcheck Hraise).
Qed.

Lemma dialog_ratios_accepted_witness :
  ∃ t v te,
    Dialog.update_split_ratios (Dialog.spin_value 90) (Dialog.spin_value 90)
      (Dialog.spin_value 10) = Ok (t, v, te)
    ∧ (0 <? t)%float = true ∧ (0 <? v)%float = true ∧ (0 <? te)%float = true
    ∧ ∀ (w : World) (files : loc) (total : float),
        (_split_dataset files t v te w).1 ≠ Raise (ValueError (RatioSumNotOne total)).
Proof. apply (dialog_ratios_accepted 90 90 10); lia. Defined.

(** ** [_save_final_model] *)



(** ** [PredictionResultDialog]: decisions *)

Section PredictionDialog.
Context {A : Type} `{EqDecision A}.
Implicit Types (l predictions : list A) (s : Prediction.state A).

Lemma remove_first_subseteq (x : A) l : Prediction.remove_first x l ⊆ l.
Proof.
  induction l as [|y l IH]; cbn; [done|].
  destruct (decide (y = x)); set_solver.
Qed.

Lemma remove_first_NoDup (x : A) l :
  NoDup l → NoDup (Prediction.remove_first x l) ∧ x ∉ Prediction.remove_first x l.
Proof.
  induction 1 as [|y l Hy Hnd IH]; cbn.
  { split; [constructor|set_solver]. }
  destruct (decide (y = x)) as [->|Hne]; [done|].
  destruct IH as [IH1 IH2]. split.
  - constructor; [|done]. intros Hin. apply Hy. by apply remove_first_subseteq in Hin.
  - set_solver.
Qed.

Lemma moved_consistent (x : A) (from to predictions : list A) :
  x ∈ predictions →
  NoDup from → NoDup to → (∀ y, y ∈ to → y ∉ from) →
  from ⊆ predictions → to ⊆ predictions →
  let r := Prediction.moved x from to in
  NoDup r.1 ∧ NoDup r.2 ∧ (∀ y, y ∈ r.2 → y ∉ r.1)
  ∧ r.1 ⊆ predictions ∧ r.2 ⊆ predictions.
Proof.
  intros Hx Hf Ht Hdisj Hfp Htp. unfold Prediction.moved. cbn [fst snd].
  assert (NoDup (if decide (x ∈ from) then Prediction.remove_first x from else from)
          ∧ (x ∉ (if decide (x ∈ from) then Prediction.remove_first x from else from))
          ∧ (if decide (x ∈ from) then Prediction.remove_first x from else from) ⊆ from)
    as (Hf1 & Hf2 & Hf3).
  { destruct (decide (x ∈ from)).
    - destruct (remove_first_NoDup x from Hf). split; [done|]. split; [done|].
      apply remove_first_subseteq.
    - done. }
  set (from' := if decide (x ∈ from) then _ else _) in *.
  destruct (decide (x ∈ to)).
  - repeat split; try done; [|set_solver]. intros y Hy Hy'. apply (Hdisj y Hy). set_solver.
  - repeat split; try done.
    + apply NoDup_app. repeat split; [done|set_solver|apply NoDup_singleton].
    + intros y [Hy| ->%list_elem_of_singleton]%elem_of_app; [|done].
      intros Hy'. apply (Hdisj y Hy). set_solver.
    + set_solver.
    + set_solver.
Qed.

Lemma handle_consistent predictions s (e : Prediction.event) s' :
  NoDup predictions →
  Prediction.consistent predictions s →
  Prediction.handle predictions s e = Some s' →
  Prediction.consistent predictions s'.
Proof.
  intros Hp (Ha & Hr & Hdisj & Hap & Hrp). destruct e as [index d checked| |]; cbn.
  - unfold Prediction.on_prediction_decision.
    destruct checked; cbn [negb]; [|by intros [= <-]].
    destruct (predictions !! index) as [x|] eqn:Hx; [|done].
    apply list_elem_of_lookup_2 in Hx.
    destruct d; intros [= <-]; unfold Prediction.consistent;
      cbn [Prediction.accepted_predictions Prediction.rejected_predictions].
    + destruct (moved_consistent x (Prediction.rejected_predictions s)
                  (Prediction.accepted_predictions s) predictions)
        as (H1 & H2 & H3 & H4 & H5); try done.
    + destruct (moved_consistent x (Prediction.accepted_predictions s)
                  (Prediction.rejected_predictions s) predictions)
        as (H1 & H2 & H3 & H4 & H5); try done.
      { intros y Hy Hy'. by apply (Hdisj y). }
      repeat split; try done. intros y Hy Hy'. by apply (H3 y).
  - intros [= <-]. repeat split; cbn; [done|constructor|set_solver|done|set_solver].
  - intros [= <-]. repeat split; cbn; [constructor|done|set_solver|set_solver|done].
Qed.

Lemma run_consistent predictions s (events : list Prediction.event) s' :
  NoDup predictions →
  Prediction.consistent predictions s →
  Prediction.run predictions s events = Some s' →
  Prediction.consistent predictions s'.
Proof.
  intros Hp. revert s. induction events as [|e events IH]; intros s Hs; cbn.
  { by intros [= <-]. }
  destruct (Prediction.handle predictions s e) as [s1|] eqn:He; [|done].
  apply IH. by eapply handle_consistent.
Qed.

Lemma filter_complement_length (P : A → Prop) `{!∀ x, Decision (P x)} l :
  (length (filter (λ x, ¬ P x) l) + length (filter P l) = length l)%nat.
Proof.
  induction l as [|x l IH]; [done|]. rewrite !filter_cons.
  destruct (decide (P x)); destruct (decide (¬ P x)); cbn [length]; try lia; done.
Qed.

Lemma filter_complement_perm (P : A → Prop) `{!∀ x, Decision (P x)} l :
  filter (λ x, ¬ P x) l ++ filter P l ≡ₚ l.
Proof.
  induction l as [|x l IH]; [done|]. rewrite !filter_cons.
  destruct (decide (P x)); destruct (decide (¬ P x)); try done.
  - rewrite <- Permutation_middle. by constructor.
  - cbn [app]. by constructor.
Qed.

Lemma filter_listed_length (r l : list A) :
  NoDup l → NoDup r → r ⊆ l → length (filter (λ x, x ∈ r) l) = length r.
Proof.
  intros Hl Hr Hsub. apply Permutation_length, NoDup_Permutation.
  - by apply NoDup_filter.
  - done.
  - intros x. rewrite list_elem_of_filter. set_solver.
Qed.

(** X22.  For a list of pairwise different predictions, after any
    sequence of accept, reject, accept-all and reject-all actions the
    two numbers the dialog shows are the sizes of the two lists
    [apply_selections] then hands over; those lists split the
    predictions, in their order, into the rejected ones and all others,
    and neither list is sent when empty. *)
Theorem dialog_stats_match_selection predictions (events : list Prediction.event) s :
  NoDup predictions →
  Prediction.run predictions Prediction.initial events = Some s →
  let final := Prediction.final_lists predictions s in
  Prediction.update_stats predictions s
  = (Z.of_nat (length final.1), Z.of_nat (length final.2))
  ∧ final.1 ++ final.2 ≡ₚ predictions
  ∧ Prediction.apply_selections predictions s
    = ((if decide (final.1 = []) then None else Some final.1),
       (if decide (final.2 = []) then None else Some final.2)).
Proof.
  intros Hp Hrun final.
  assert (Prediction.consistent predictions s) as (Ha & Hr & Hdisj & Hap & Hrp).
  { eapply run_consistent; [done| |exact Hrun].
    repeat split; cbn; try constructor; set_solver. }
  subst final. unfold Prediction.apply_selections, Prediction.update_stats,
    Prediction.final_lists. cbn [fst snd].
  pose proof (filter_complement_length (λ x, x ∈ Prediction.rejected_predictions s)
                predictions) as Hlen.
  pose proof (filter_listed_length (Prediction.rejected_predictions s) predictions
                Hp Hr Hrp) as Hrej.
  split; [f_equal; lia|]. split; [apply filter_complement_perm|].
  f_equal.
  - destruct (filter (λ pred, pred ∉ _) predictions);
      [by rewrite decide_True|by rewrite decide_False].
  - destruct (filter (λ pred, pred ∈ _) predictions);
      [by rewrite decide_True|by rewrite decide_False].
Qed.

End PredictionDialog.

Lemma dialog_stats_match_selection_witness :
  let predictions := [10; 20; 30] in
  let events := [Prediction.Decide 1 Prediction.Reject true;
                 Prediction.Decide 0 Prediction.Accept true;
                 Prediction.Decide 1 Prediction.Accept false] in
  let s := Prediction.MkState [10] [20] in
  let final := Prediction.final_lists predictions s in
  Prediction.update_stats predictions s
  = (Z.of_nat (length final.1), Z.of_nat (length final.2))
  ∧ final.1 ++ final.2 ≡ₚ predictions
  ∧ Prediction.apply_selections predictions s
    = ((if decide (final.1 = []) then None else Some final.1),
       (if decide (final.2 = []) then None else Some final.2)).
Proof.
  intros predictions events s.
  apply (dialog_stats_match_selection predictions events s).
  - apply (bool_decide_unpack _). vm_compute. exact I.
  - vm_compute; reflexivity.
Defined.

(** With a prediction listed twice, rejecting one of the two makes the
    label and the lists disagree: it shows one accepted and one
    rejected, while both copies are handed over as rejected. *)
Lemma dialog_stats_duplicates :
  let predictions := [7; 7] in
  ∃ s, Prediction.run predictions Prediction.initial
         [Prediction.Decide 0 Prediction.Reject true] = Some s
       ∧ Prediction.update_stats predictions s = (1, 1)
       ∧ Prediction.final_lists predictions s = ([], [7; 7]).
Proof. eexists. split; [reflexivity|]. split; vm_compute; reflexivity. Qed.

(** ** Binary64: [int] is monotone *)

Lemma truncated_scaled (m : positive) (e E : Z) :
  E ≤ e → E ≤ 0 → truncated m e = (Z.pos m * 2 ^ (e - E)) / 2 ^ (- E).
Proof.
  intros He HE. unfold truncated.
  assert (0 < 2 ^ (- E)) by (apply Z.pow_pos_nonneg; lia).
  destruct (Z.leb_spec 0 e) as [H0|H0].
  - replace (e - E) with (e + - E) by lia. rewrite Z.pow_add_r by lia.
    rewrite Z.mul_assoc, Z.div_mul by lia. done.
  - replace (- E) with (- e + (e - E)) by lia. rewrite Z.pow_add_r by lia.
    assert (0 < 2 ^ (e - E)) by (apply Z.pow_pos_nonneg; lia).
    assert (0 < 2 ^ (- e)) by (apply Z.pow_pos_nonneg; lia).
    rewrite Z.div_mul_cancel_r by lia. done.
Qed.

Lemma canonical_cases (m : positive) (e : Z) :
  canonical_mantissa prec emax m e = true →
  Z.pos m < 2 ^ 53 ∧ -1074 ≤ e ∧ (2 ^ 52 ≤ Z.pos m ∨ e = -1074).
Proof.
  unfold canonical_mantissa, fexp, SpecFloat.emin, prec, emax.
  intros Hc%Z.eqb_eq.
  pose proof (digits2_pos_bounds m) as [Hlo Hhi].
  set (d := Z.pos (digits2_pos m)) in *.
  assert (d ≤ 53) as Hd by lia.
  split; [|split; [lia|]].
  - assert (2 ^ d ≤ 2 ^ 53) by (apply Z.pow_le_mono_r; lia). lia.
  - destruct (Z.eq_dec d 53) as [Heq|Hne]; [left; by rewrite Heq in Hlo|right; lia].
Qed.

Lemma valid_finite (f : float) (s : bool) (m : positive) (e : Z) :
  Prim2SF f = S754_finite s m e → canonical_mantissa prec emax m e = true.
Proof.
  intros Hf. pose proof (Prim2SF_valid f) as Hv. rewrite Hf in Hv.
  unfold SpecFloat.valid_binary, SpecFloat.bounded in Hv.
  by apply andb_prop in Hv as [? _].
Qed.

(** Two positive finite floats in canonical form compare as their
    values do. *)
Lemma compare_truncated (m1 m2 : positive) (e1 e2 : Z) :
  canonical_mantissa prec emax m1 e1 = true →
  canonical_mantissa prec emax m2 e2 = true →
  SFleb (S754_finite false m1 e1) (S754_finite false m2 e2) = true →
  truncated m1 e1 ≤ truncated m2 e2.
Proof.
  intros (H1 & He1 & Hn1)%canonical_cases (H2 & He2 & Hn2)%canonical_cases.
  unfold SFleb, SFcompare.
  set (E := Z.min (Z.min e1 e2) 0).
  rewrite (truncated_scaled m1 e1 E), (truncated_scaled m2 e2 E) by lia.
  assert (0 < 2 ^ (- E)) by (apply Z.pow_pos_nonneg; lia).
  destruct (Z.compare_spec e1 e2) as [->|Hlt|Hgt]; [| |done].
  - intros Hc. apply Z.div_le_mono; [lia|].
    apply Z.mul_le_mono_nonneg_r; [apply Z.pow_nonneg; lia|].
    rewrite Pos.compare_cont_spec in Hc. cbn [Pos.switch_Eq] in Hc.
    destruct (Pos.compare_spec m1 m2); [lia|lia|done].
  - intros _. apply Z.div_le_mono; [lia|].
    assert (2 ^ 52 ≤ Z.pos m2) as Hm2 by (destruct Hn2; [done|lia]).
    assert (0 < 2 ^ (e1 - E)) by (apply Z.pow_pos_nonneg; lia).
    replace (e2 - E) with ((e2 - e1 - 1) + 1 + (e1 - E)) by lia.
    rewrite !Z.pow_add_r by lia.
    assert (0 < 2 ^ (e2 - e1 - 1)) by (apply Z.pow_pos_nonneg; lia).
    change (2 ^ 1) with 2.
    set (P := 2 ^ (e2 - e1 - 1)) in *. set (K := 2 ^ (e1 - E)) in *.
    assert (Z.pos m1 ≤ Z.pos m2 * (P * 2)) as Hle by nia.
    transitivity (Z.pos m2 * (P * 2) * K); [|lia].
    apply Z.mul_le_mono_nonneg_r; lia.
Qed.

Lemma truncated_nonneg (m : positive) (e : Z) : 0 ≤ truncated m e.
Proof.
  unfold truncated. destruct (Z.leb_spec 0 e).
  - apply Z.mul_nonneg_nonneg; [lia|]. apply Z.pow_nonneg. lia.
  - apply Z.div_pos; [lia|]. apply Z.pow_pos_nonneg; lia.
Qed.

(** [int] of floats between 0 and 100 returns, and keeps their order. *)
Lemma int_of_float_mono (x y : float) :
  (0 <=? x)%float = true → (x <=? y)%float = true → (y <=? 100)%float = true →
  ∃ a b, int_of_float x = Ok a ∧ int_of_float y = Ok b ∧ 0 ≤ a ∧ a ≤ b.
Proof.
  rewrite !leb_spec. unfold int_of_float.
  pose proof (valid_finite x) as Hvx. pose proof (valid_finite y) as Hvy.
  change (Prim2SF 0) with (S754_zero false).
  change (Prim2SF 100) with (S754_finite false 7036874417766400 (-46)).
  destruct (Prim2SF x) as [sx|sx| |sx mx ex]; destruct (Prim2SF y) as [sy|sy| |sy my ey];
    try (destruct sx); try (destruct sy); try discriminate; intros H0 Hxy H100.
  all: try (eexists _, _; split; [reflexivity|split; [reflexivity|]]).
  all: try (split; [done|]); try done.
  all: fold (truncated my ey); try fold (truncated mx ex).
  all: try apply truncated_nonneg.
  split; [apply truncated_nonneg|].
  eapply compare_truncated; eauto.
Qed.

(** ** More of [on_train_epoch_end] *)

Lemma run_epochs_from (epochs : nat) (first count : nat) (ps : list Z) (w : World) :
  progress_from (Z.of_nat epochs) first count = Ok ps →
  for_each (seq first count) (λ i,
      on_train_epoch_end true false
        (Engine.MkTrainer (Z.of_nat i) (Z.of_nat epochs) None)) w
  = (Ok tt, MkWorld (fs w) (heap w) (rng w) (events w ++ (Progress <$> ps))).
Proof.
  revert first ps w. induction count as [|count IH]; intros first ps w.
  { intros [= <-]. cbn. rewrite app_nil_r. by destruct w. }
  cbn [progress_from seq for_each].
  destruct (progress_percent (Z.of_nat first) (Z.of_nat epochs)) as [p|e] eqn:Hp;
    [|discriminate].
  cbn [rbind].
  destruct (progress_from (Z.of_nat epochs) (S first) count) as [ps'|e] eqn:Hrest;
    [|discriminate].
  cbn [rbind]. intros [= <-].
  erewrite bind_ok.
  2:{ rewrite on_train_epoch_end_progress. cbn [Engine.epoch Engine.epochs].
      rewrite Hp. reflexivity. }
  rewrite (IH _ _ _ Hrest). cbn [fs heap rng events fmap list_fmap].
  by rewrite <- app_assoc.
Qed.

Lemma nondecreasing_from_spec (low : Z) (ps : list Z) :
  nondecreasing_from low ps = true →
  ∀ i j p q, (i ≤ j)%nat → ps !! i = Some p → ps !! j = Some q → low ≤ p ∧ p ≤ q.
Proof.
  revert low. induction ps as [|p0 ps IH]; intros low; [done|].
  cbn [nondecreasing_from]. intros [Hlow Hrest]%andb_prop. apply Z.leb_le in Hlow.
  intros i j p q Hij Hi Hj.
  destruct i as [|i].
  - injection Hi as <-. split; [done|].
    destruct j as [|j]; [injection Hj as <-; lia|].
    destruct (IH _ Hrest j j q q ltac:(lia) Hj Hj). lia.
  - destruct j as [|j]; [lia|].
    destruct (IH _ Hrest i j p q ltac:(lia) Hi Hj). lia.
Qed.

(** The values of a run are [int] of the floats of the run. *)
Lemma progress_from_ints (epochs first count : nat) :
  epochs ≠ 0%nat →
  progress_from (Z.of_nat epochs) first count
  = ints_of ((λ i, float_of_Z (Z.of_nat (S i)) / float_of_Z (Z.of_nat epochs) * 100)%float
               <$> seq first count).
Proof.
  intros Hne. revert first. induction count as [|count IH]; intros first; [done|].
  cbn [progress_from seq fmap list_fmap ints_of]. rewrite IH.
  unfold progress_percent, int_truediv.
  destruct (Z.eqb_spec (Z.of_nat epochs) 0); [lia|].
  cbn [rbind]. by rewrite Nat2Z.inj_succ, Z.add_1_r.
Qed.

Lemma progress_floats_seq (epochs : nat) :
  (epochs ≤ 1000)%nat →
  progress_floats float_table epochs
  = (λ i, float_of_Z (Z.of_nat (S i)) / float_of_Z (Z.of_nat epochs) * 100)%float
      <$> seq 0 epochs.
Proof.
  intros Hle. unfold progress_floats, float_table. cbn zeta.
  rewrite <- fmap_take, take_seq, Nat.min_l by done.
  rewrite <- fmap_S_seq, <- !list_fmap_compose. done.
Qed.

Lemma int_of_float_100 : int_of_float 100 = Ok 100.
Proof. reflexivity. Qed.

Lemma ints_of_ascending (qs : list float) (low : float) (a : Z) :
  floats_ascend low qs = true →
  (0 <=? low)%float = true → int_of_float low = Ok a →
  ∃ ps, ints_of qs = Ok ps ∧ length ps = length qs
        ∧ nondecreasing_from a ps = true
        ∧ (∀ q, last qs = Some q → (100 <=? q)%float = true → last ps = Some 100).
Proof.
  revert low a. induction qs as [|q qs IH]; intros low a.
  { intros _ _ _. exists []. by repeat split. }
  cbn [floats_ascend]. intros [[[Hq0 Hq100]%andb_prop Hlow]%andb_prop Hrest]%andb_prop.
  intros Hlow0 Ha.
  destruct (int_of_float_mono low q Hlow0 Hlow Hq100) as (a' & b & Ha' & Hb & _ & Hab).
  rewrite Ha in Ha'. injection Ha' as <-.
  destruct (IH q b Hrest Hq0 Hb) as (ps & Hps & Hlen & Hmono & Hlast).
  exists (b :: ps). cbn [ints_of]. rewrite Hb, Hps. cbn [rbind length nondecreasing_from].
  split; [done|]. split; [by rewrite Hlen|]. split.
  { rewrite Hmono, andb_true_r. by apply Z.leb_le. }
  intros q' Hq' H100. rewrite last_cons in Hq'. rewrite last_cons.
  destruct (last qs) as [q0|] eqn:Hq0'.
  - injection Hq' as <-. by rewrite (Hlast q0 eq_refl H100).
  - injection Hq' as <-.
    assert (ps = []) as -> by (apply length_zero_iff_nil; rewrite Hlen;
                                 by apply last_None in Hq0' as ->).
    cbn [last]. f_equal.
    destruct (int_of_float_mono 100 q eq_refl H100 Hq100) as (c & d & Hc & Hd & _ & Hcd).
    destruct (int_of_float_mono q 100 Hq0 Hq100 eq_refl) as (d' & c' & Hd' & Hc' & _ & Hdc).
    rewrite int_of_float_100 in Hc, Hc'. rewrite Hb in Hd, Hd'.
    injection Hc as <-. injection Hc' as <-. injection Hd as <-. injection Hd' as <-. lia.
Qed.

Lemma progress_floats_checked :
  forallb (progress_floats_check float_table) (seq 1 1000) = true.
Proof. vm_cast_no_check (eq_refl true). Qed.



(** ** More of [prepare_yolo_dataset] *)

Lemma read_text_write_other (fs fs' : FileSystem) (p q : Path) (content : string) :
  write_text fs p content = Ok fs' →
  resolve fs q ≠ resolve fs p →
  read_text fs' q = read_text fs q ∧ cwd fs' = cwd fs.
Proof.
  unfold write_text, read_text.
  destruct (is_dir fs (resolve fs p)); [discriminate|].
  destruct (is_dir fs (removelast (resolve fs p))); [|discriminate].
  intros [= <-] Hne. split; [|done].
  unfold resolve, is_dir in *. cbn [files cwd dirs].
  by rewrite lookup_insert_ne.
Qed.

Lemma write_text_cwd (fs fs' : FileSystem) (p : Path) (content : string) :
  write_text fs p content = Ok fs' → cwd fs' = cwd fs.
Proof.
  unfold write_text.
  destruct (is_dir fs (resolve fs p)); [discriminate|].
  destruct (is_dir fs (removelast (resolve fs p))); [|discriminate].
  by intros [= <-].
Qed.

Lemma with_fs_ok (f : FileSystem → result FileSystem) (w w' : World) :
  with_fs f w = (Ok tt, w') →
  f (fs w) = Ok (fs w') ∧ heap w' = heap w ∧ rng w' = rng w ∧ events w' = events w.
Proof.
  unfold with_fs. destruct (f (fs w)) as [fs'|e]; [|discriminate].
  by intros [= <-].
Qed.

Lemma create_dataset_yaml_run (registry_classes : option (list string))
    (yaml_dump : list string → list string → string)
    (self : DatasetPreparer) (dataset_path : Path) (config : TrainingConfig)
    (w w' : World) :
  _create_dataset_yaml registry_classes yaml_dump self dataset_path config w
  = (Ok tt, w') →
  ∃ classes,
    write_text (fs w) (child dataset_path "dataset.yaml")
      (yaml_dump (resolve (fs w) dataset_path) classes) = Ok (fs w').
Proof.
  unfold _create_dataset_yaml. intros H.
  apply bind_ok_inv in H as (classes & w1 & Hload & H).
  assert (w1 = w) as ->.
  { unfold _load_vehicle_classes in Hload. destruct registry_classes.
    - by injection Hload as _ <-.
    - unfold bind, read_fs, lift in Hload.
      destruct (first_classes_file _ _); [|discriminate]. by injection Hload as _ <-. }
  apply bind_ok_inv in H as (root & w2 & Hroot & H).
  unfold read_fs in Hroot. injection Hroot as <- <-.
  apply with_fs_ok in H as [H _]. by exists classes.
Qed.

Lemma generate_dataset_statistics_run
    (json_dump : string → Path → list (string * SplitStats) → string)
    (now_isoformat : string) (dataset_path : Path) (w w' : World) :
  _generate_dataset_statistics json_dump now_isoformat dataset_path w = (Ok tt, w') →
  ∃ splits,
    write_text (fs w) (child dataset_path "dataset_statistics.json")
      (json_dump now_isoformat dataset_path splits) = Ok (fs w').
Proof.
  unfold _generate_dataset_statistics. intros H.
  apply bind_ok_inv in H as (fs0 & w1 & Hfs & H).
  unfold read_fs in Hfs. injection Hfs as <- <-.
  apply bind_ok_inv in H as (splits & w2 & Hsplits & H).
  unfold lift in Hsplits.
  destruct (all_split_statistics _ _ _); [|discriminate]. injection Hsplits as <- <-.
  apply with_fs_ok in H as [H _]. eexists. exact H.
Qed.



(** ** [prepare_yolo_dataset] writes inside the dataset directory only *)

Section Frame.
Variables (D root : list string).

Lemma kept_outside_refl (w : World) : kept_outside root w w.
Proof. by split. Qed.

Lemma kept_outside_trans (w1 w2 w3 : World) :
  kept_outside root w1 w2 → kept_outside root w2 w3 → kept_outside root w1 w3.
Proof.
  intros [C1 F1] [C2 F2]. split; [congruence|].
  intros a Ha. by rewrite F2, F1.
Qed.

Lemma wi_same_fs {A} (c : M A) :
  (∀ w, fs (c w).2 = fs w) → writes_inside D root c.
Proof. intros H w _. split; by rewrite H. Qed.

Lemma wi_ret {A} (a : A) : writes_inside D root (ret a).
Proof. by apply wi_same_fs. Qed.

Lemma wi_raise {A} (e : exn) : writes_inside D root (raise (A := A) e).
Proof. by apply wi_same_fs. Qed.

Lemma wi_lift {A} (r : result A) : writes_inside D root (lift r).
Proof. by apply wi_same_fs. Qed.

Lemma wi_read_fs {A} (op : FileSystem → A) : writes_inside D root (read_fs op).
Proof. by apply wi_same_fs. Qed.

Lemma wi_emit (e : event) : writes_inside D root (emit e).
Proof. by apply wi_same_fs. Qed.

Lemma wi_alloc (l : list Path) : writes_inside D root (alloc l).
Proof. by apply wi_same_fs. Qed.

Lemma wi_load (r : loc) : writes_inside D root (load r).
Proof. by apply wi_same_fs. Qed.

Lemma wi_random_shuffle (r : loc) : writes_inside D root (random_shuffle r).
Proof.
  apply wi_same_fs. intros w. unfold random_shuffle. by destruct (shuffle _ _).
Qed.

Lemma wi_bind {A B} (c : M A) (k : A → M B) :
  writes_inside D root c → (∀ a, writes_inside D root (k a)) →
  writes_inside D root (bind c k).
Proof.
  intros Hc Hk w Hw. unfold bind. specialize (Hc w Hw).
  destruct (c w) as [[a|e] w1]; cbn [snd] in *; [|done].
  eapply kept_outside_trans; [exact Hc|]. apply Hk. destruct Hc as [-> _]. done.
Qed.

Lemma wi_list_copy (r : loc) : writes_inside D root (list_copy r).
Proof. apply wi_bind; [apply wi_load|intros; apply wi_alloc]. Qed.

Lemma wi_list_slice (r : loc) (lo hi : option Z) :
  writes_inside D root (list_slice r lo hi).
Proof. apply wi_bind; [apply wi_load|intros; apply wi_alloc]. Qed.

Lemma wi_for_each {A} (l : list A) (body : A → M unit) :
  (∀ x, writes_inside D root (body x)) → writes_inside D root (for_each l body).
Proof.
  intros Hbody. induction l as [|x l IH]; cbn [for_each]; [apply wi_ret|].
  apply wi_bind; [apply Hbody|by intros].
Qed.

Lemma wi_with_fs (op : FileSystem → result FileSystem) :
  (∀ fs fs', cwd fs = D → op fs = Ok fs' →
     cwd fs' = cwd fs ∧ ∀ a, ¬ root `prefix_of` a → files fs' !! a = files fs !! a) →
  writes_inside D root (with_fs op).
Proof.
  intros Hop w Hw. unfold with_fs.
  destruct (op (fs w)) as [fs'|e] eqn:Hfs; [|apply kept_outside_refl].
  by apply Hop.
Qed.

Lemma wi_mkdir (p : Path) : writes_inside D root (with_fs (λ fs, mkdir_p fs p)).
Proof.
  apply wi_with_fs. intros fs fs' _. unfold mkdir_p.
  destruct (existsb _ _); [discriminate|]. by intros [= <-].
Qed.

Lemma write_text_inside (fs fs' : FileSystem) (p : Path) (content : string) :
  root `prefix_of` resolve fs p →
  write_text fs p content = Ok fs' →
  cwd fs' = cwd fs ∧ ∀ a, ¬ root `prefix_of` a → files fs' !! a = files fs !! a.
Proof.
  intros Hin. unfold write_text.
  destruct (is_dir fs (resolve fs p)); [discriminate|].
  destruct (is_dir fs (removelast (resolve fs p))); [|discriminate].
  intros [= <-]. split; [done|]. intros a Ha. cbn [files].
  apply lookup_insert_ne. by intros <-.
Qed.

Lemma resolve_child (fs : FileSystem) (p : Path) (n : string) :
  resolve fs (child p n) = resolve fs p ++ [n].
Proof.
  unfold resolve, child, joinpath. cbn [anchored parts rel].
  destruct (anchored p); [done|]. by rewrite app_assoc.
Qed.

Lemma wi_write (p : Path) (content : FileSystem → string) :
  (∀ fs, cwd fs = D → root `prefix_of` resolve fs p) →
  writes_inside D root (with_fs (λ fs, write_text fs p (content fs))).
Proof.
  intros Hp. apply wi_with_fs. intros fs fs' Hfs. apply write_text_inside. by apply Hp.
Qed.

Lemma wi_copy2 (src dst : Path) :
  (∀ fs, cwd fs = D → root `prefix_of` resolve fs dst) →
  writes_inside D root (with_fs (λ fs, copy2 fs src dst)).
Proof.
  intros Hp. apply wi_with_fs. intros fs fs' Hfs. unfold copy2.
  destruct (read_text fs src) as [content|e]; [|discriminate]. cbn [rbind].
  apply write_text_inside. specialize (Hp fs Hfs).
  destruct (is_dir fs (resolve fs dst)); [|done].
  rewrite resolve_child. by apply prefix_app_r.
Qed.

End Frame.

Lemma wi_split_dataset (D root : list string) (files : loc) (tr vr te : float) :
  writes_inside D root (_split_dataset files tr vr te).
Proof.
  unfold _split_dataset. destruct (0.01 <? abs (tr + vr + te - 1.0))%float.
  { apply wi_raise. }
  repeat (apply wi_bind; [|intros]);
    auto using wi_list_copy, wi_random_shuffle, wi_load, wi_alloc, wi_lift,
      wi_list_slice, wi_ret.
Qed.

Section FramePrepare.
Variable registry_classes : option (list string).
Variable yaml_dump : list string → list string → string.
Variable json_dump : string → Path → list (string * SplitStats) → string.
Variable now_isoformat : string.
Variables (D root : list string) (dataset_path : Path).
Hypothesis root_resolve : ∀ fs, cwd fs = D → resolve fs dataset_path = root.

Lemma inside_child (fs : FileSystem) (n : string) :
  cwd fs = D → root `prefix_of` resolve fs (child dataset_path n).
Proof using Type*. intros H. rewrite resolve_child, root_resolve by done. by apply prefix_app_r. Qed.

Lemma inside_grandchild (fs : FileSystem) (n1 n2 n3 : string) :
  cwd fs = D →
  root `prefix_of` resolve fs (child (child (child dataset_path n1) n2) n3).
Proof using Type*.
  intros H. rewrite !resolve_child, root_resolve by done.
  rewrite <- !app_assoc. by apply prefix_app_r.
Qed.

Lemma wi_create_dataset_structure :
  writes_inside D root (_create_dataset_structure dataset_path).
Proof using Type*.
  apply wi_for_each. intros split. apply wi_bind; [|intros]; apply wi_mkdir.
Qed.

Lemma wi_copy_one (label_files : list Path) (split_name : string) (img_file : Path) :
  writes_inside D root (copy_one dataset_path label_files split_name img_file).
Proof using Type*.
  unfold copy_one. apply wi_bind.
  - apply wi_copy2. intros fs Hfs. by apply inside_grandchild.
  - intros _. destruct (_find_label_file img_file label_files).
    + apply wi_copy2. intros fs Hfs. by apply inside_grandchild.
    + apply wi_ret.
Qed.

Lemma wi_copy_split (label_files : list Path) (progress_callback : bool)
    (total_files : Z) (split_name : string) (file_list : list Path) (processed : Z) :
  writes_inside D root
    (copy_split dataset_path label_files progress_callback total_files split_name
       file_list processed).
Proof using Type*.
  revert processed. induction file_list as [|f l IH]; intros processed;
    cbn [copy_split]; [apply wi_ret|].
  apply wi_bind; [apply wi_copy_one|intros _].
  apply wi_bind; [|intros _; apply IH].
  destruct progress_callback; [|apply wi_ret].
  repeat (apply wi_bind; [|intros]); auto using wi_lift, wi_emit.
Qed.

Lemma wi_create_dataset_yaml (self : DatasetPreparer) (config : TrainingConfig) :
  writes_inside D root
    (_create_dataset_yaml registry_classes yaml_dump self dataset_path config).
Proof using Type*.
  unfold _create_dataset_yaml. apply wi_bind.
  { unfold _load_vehicle_classes. destruct registry_classes; [apply wi_ret|].
    apply wi_bind; [apply wi_read_fs|intros; apply wi_lift]. }
  intros classes. apply wi_bind; [apply wi_read_fs|intros r].
  apply (wi_write D root _ (λ _, yaml_dump r classes)).
  intros fs Hfs. by apply inside_child.
Qed.

Lemma wi_generate_dataset_statistics :
  writes_inside D root
    (_generate_dataset_statistics json_dump now_isoformat dataset_path).
Proof using Type*.
  unfold _generate_dataset_statistics.
  apply wi_bind; [apply wi_read_fs|intros fs0].
  apply wi_bind; [apply wi_lift|intros splits].
  apply (wi_write D root _ (λ _, json_dump now_isoformat dataset_path splits)).
  intros fs Hfs. by apply inside_child.
Qed.

End FramePrepare.


